(** * SnapComposer: attachment upload and post assembly

    A shallow embedding of [src/components/homepage/SnapComposer.tsx].

    Conventions of the embedding.
    - A JavaScript string is a [string]; its characters stand for code
      units below 256.  The texts the component itself builds (ISO
      timestamps, Markdown markup, endpoint URLs) are ASCII.
    - [null] and [undefined] are both [None]; truthiness of a string is
      non-emptiness ([truthy]).
    - A promise is the value it settles to: [Fulfilled v] or
      [Rejected reason], the reason already rendered to text.
    - The outside world (hosts, ledger, browser) is a record of outcomes
      the handlers consult; every externally visible action is logged as
      an [Event], so that the handlers are functions returning the next
      component state together with the log. *)

From Stdlib Require Import Bool Arith ZArith List Ascii String Lia.
From Stdlib Require Import DecimalString.
Import ListNotations.

Open Scope string_scope.
Open Scope list_scope.

Infix "+++" := String.append (at level 60, right associativity).

(* ================================================================== *)
(** ** JavaScript strings *)

Module JsString.

Definition truthy (s : string) : bool :=
  match s with
  | EmptyString => false
  | String _ _ => true
  end.

(** [x || ''] for an optional string. *)
Definition or_empty (x : option string) : string :=
  match x with
  | Some s => s
  | None => ""
  end.

(** Truthiness of [string | null]. *)
Definition truthy_opt (x : option string) : bool := truthy (or_empty x).

Definition code (c : ascii) : nat := nat_of_ascii c.

Definition is_digit (c : ascii) : bool :=
  ((48 <=? code c) && (code c <=? 57))%nat.
Definition is_upper (c : ascii) : bool :=
  ((65 <=? code c) && (code c <=? 90))%nat.
Definition is_lower (c : ascii) : bool :=
  ((97 <=? code c) && (code c <=? 122))%nat.

(** The class [[a-zA-Z0-9]]. *)
Definition is_alnum (c : ascii) : bool :=
  is_lower c || is_upper c || is_digit c.

(** The class [\w] of a regular expression without the [u] flag. *)
Definition is_word (c : ascii) : bool :=
  is_alnum c || Ascii.eqb c "_".

(** White space and line terminators removed by [trim], among the code
    units below 256. *)
Definition is_space (c : ascii) : bool :=
  let n := code c in
  ((9 <=? n) && (n <=? 13) || (n =? 32) || (n =? 160))%nat.

Definition lower_char (c : ascii) : ascii :=
  if is_upper c then ascii_of_nat (code c + 32) else c.

Fixpoint toLowerCase (s : string) : string :=
  match s with
  | EmptyString => EmptyString
  | String c t => String (lower_char c) (toLowerCase t)
  end.

(** [s.replace(/[^...]/g, "")]: keep the characters of the class. *)
Fixpoint keep (p : ascii -> bool) (s : string) : string :=
  match s with
  | EmptyString => EmptyString
  | String c t => if p c then String c (keep p t) else keep p t
  end.

Fixpoint take_while (p : ascii -> bool) (s : string) : string :=
  match s with
  | EmptyString => EmptyString
  | String c t => if p c then String c (take_while p t) else EmptyString
  end.

Fixpoint drop_while (p : ascii -> bool) (s : string) : string :=
  match s with
  | EmptyString => EmptyString
  | String c t => if p c then drop_while p t else s
  end.

Definition rev (s : string) : string :=
  string_of_list_ascii (List.rev (list_ascii_of_string s)).

Definition trim (s : string) : string :=
  rev (drop_while is_space (rev (drop_while is_space s))).

(** [s.split(sep)] for a one-character separator: never empty. *)
Fixpoint split (sep : ascii) (s : string) : list string :=
  match s with
  | EmptyString => [EmptyString]
  | String c t =>
      if Ascii.eqb c sep then EmptyString :: split sep t
      else match split sep t with
           | [] => [String c EmptyString]
           | hd :: tl => String c hd :: tl
           end
  end.

(** [parts.join(sep)]. *)
Fixpoint join (sep : string) (parts : list string) : string :=
  match parts with
  | [] => EmptyString
  | [x] => x
  | x :: rest => x +++ sep +++ join sep rest
  end.

(** [s.slice(1)]. *)
Definition slice1 (s : string) : string :=
  match s with
  | EmptyString => EmptyString
  | String _ t => t
  end.

Definition newline : string := String (ascii_of_nat 10) EmptyString.

End JsString.
Import JsString.

(* ================================================================== *)
(** ** Hashtags and the tag set *)

Module Tags.

Definition hash : ascii := "#"%char.

(** [text.match(/#(\w+)/g) || []]: the matches from left to right, each
    search resuming where the previous match ended.  The fuel bounds
    the number of resumptions; the length of the text is enough. *)
Fixpoint match_all (fuel : nat) (s : string) : list string :=
  match fuel with
  | O => []
  | S fuel' =>
      match s with
      | EmptyString => []
      | String c t =>
          if Ascii.eqb c hash then
            match take_while is_word t with
            | EmptyString => match_all fuel' t
            | run => String c run :: match_all fuel' (drop_while is_word t)
            end
          else match_all fuel' t
      end
  end.

(** lines 44-48 *)
Definition extractHashtags (text : string) : list string :=
  let matches := match_all (String.length text) text in
  map slice1 matches.

Definition mem (x : string) (l : list string) : bool :=
  existsb (String.eqb x) l.

(** [Set.prototype.add]: insertion order, a present value is kept where
    it is. *)
Definition set_add (s : list string) (x : string) : list string :=
  if mem x s then s else s ++ [x].

(** [[...new Set(l)]] *)
Definition unique (l : list string) : list string :=
  fold_left set_add l [].

Definition reserved_tag : string := "snaps".

(** lines 360-370: the seed of the community context, then the merge
    with the hashtags of the body.  [community_tag] is
    [process.env.NEXT_PUBLIC_HIVE_COMMUNITY_TAG]. *)
Definition seedTags (community_tag : option string) (pp : string)
  : list string :=
  if String.eqb pp reserved_tag
  then [or_empty community_tag; reserved_tag]
  else [].

Definition buildTags (community_tag : option string) (pp body : string)
  : list string :=
  let snapsTags := seedTags community_tag pp in
  let hashtags := extractHashtags body in
  unique (snapsTags ++ hashtags).

End Tags.

(* ================================================================== *)
(** ** Dates and the permlink *)

Module JsDate.

Local Open Scope Z_scope.

(** A time value: milliseconds since 1970-01-01T00:00:00Z. *)
Definition time := Z.

Definition msPerSecond : Z := 1000.
Definition msPerMinute : Z := 60000.
Definition msPerHour : Z := 3600000.
Definition msPerDay : Z := 86400000.

Definition Day (t : time) : Z := t / msPerDay.
Definition HourFromTime (t : time) : Z := (t / msPerHour) mod 24.
Definition MinFromTime (t : time) : Z := (t / msPerMinute) mod 60.
Definition SecFromTime (t : time) : Z := (t / msPerSecond) mod 60.
Definition msFromTime (t : time) : Z := t mod msPerSecond.

(** Year, month (1-12) and day of the month (1-31) of a day number in
    the proleptic Gregorian calendar, by 400-year eras that start on
    March 1st. *)
Definition civil_from_days (days : Z) : Z * Z * Z :=
  let z := days + 719468 in
  let era := z / 146097 in
  let doe := z - era * 146097 in
  let yoe := (doe - doe / 1460 + doe / 36524 - doe / 146096) / 365 in
  let doy := doe - (365 * yoe + yoe / 4 - yoe / 100) in
  let mp := (5 * doy + 2) / 153 in
  let d := doy - (153 * mp + 2) / 5 + 1 in
  let m := if mp <? 10 then mp + 3 else mp - 9 in
  let y := yoe + era * 400 + (if m <=? 2 then 1 else 0) in
  (y, m, d).

Definition YearFromTime (t : time) : Z := fst (fst (civil_from_days (Day t))).
Definition MonthFromTime (t : time) : Z := snd (fst (civil_from_days (Day t))).
Definition DateFromTime (t : time) : Z := snd (civil_from_days (Day t)).

Definition digit (d : Z) : ascii := ascii_of_nat (48 + Z.to_nat (d mod 10)).

(** The [width] low decimal digits of [n], most significant first. *)
Fixpoint pad (width : nat) (n : Z) : string :=
  match width with
  | O => EmptyString
  | S w => pad w (n / 10) +++ String (digit n) EmptyString
  end.

(** Four digits for the years 0 to 9999, otherwise a sign and six
    digits. *)
Definition year_string (y : Z) : string :=
  if (0 <=? y) && (y <=? 9999) then pad 4 y
  else (if y <? 0 then "-" else "+") +++ pad 6 (Z.abs y).

(** [Date.prototype.toISOString] *)
Definition toISOString (t : time) : string :=
  year_string (YearFromTime t) +++ "-" +++ pad 2 (MonthFromTime t) +++ "-"
    +++ pad 2 (DateFromTime t) +++ "T" +++ pad 2 (HourFromTime t) +++ ":"
    +++ pad 2 (MinFromTime t) +++ ":" +++ pad 2 (SecFromTime t) +++ "."
    +++ pad 3 (msFromTime t) +++ "Z".

(** lines 323-326 *)
Definition permlink_of (now : time) : string :=
  toLowerCase (keep is_alnum (toISOString now)).

End JsDate.

(* ================================================================== *)
(** ** Data model, events and the outside world *)

Inductive result (A : Type) : Type :=
| Fulfilled (value : A)
| Rejected (reason : string).
Arguments Fulfilled {A} value.
Arguments Rejected {A} reason.

(** The bytes of a blob are never inspected: a blob is its identity. *)
Definition Blob : Type := nat.

Record File : Type := { name : string; content : Blob }.

(** [IGif], of which only [images.downsized_medium.url] and [id] are read. *)
Record IGif : Type := { gif_id : string; downsized_medium_url : string }.

(** A value produced by [JSON.parse], or [undefined].  A number carries
    the text [String(n)] gives for it. *)
#[warnings="-register-all"]
Inductive JSValue : Type :=
| JUndefined
| JNull
| JBool (b : bool)
| JNumber (shown : string)
| JString (s : string)
| JArray (items : list JSValue)
| JObject (fields : list (string * JSValue)).

Record Response : Type := {
  ok : bool;
  status : Z;
  statusText : string;
  text : result string
}.

Inductive FetchBody : Type :=
| FormData_file (blob : Blob)
| Json_thumbnail_url (thumbnail_url : string).

Record Request : Type := {
  url : string;
  x_api_key : option string;
  req_body : FetchBody
}.

(** One run of the resumable upload client, as the callbacks see it:
    the percentages given to [onProgress] after rounding, the value of
    the [X-Embed-URL] header of each response, and how the run ended
    once its retries were used up. *)
Record TusRun : Type := {
  progress : list Z;
  embed_headers : list (option string);
  tus_error : option string
}.

(** The tasks the browser runs for the off-screen video element: it
    dispatches one of the three events the component listens to, or, in
    a task of its own ([blob_ready]), it calls back a [canvas.toBlob]
    call that waits for its blob. *)
Inductive VideoEvent : Type := loadeddata | seeked | error | blob_ready.

(** What the browser does with the off-screen video element:
    [dispatched] lists its tasks in the order they run, so that any
    number of events can come between a [toBlob] call and its callback;
    a call not called back by the end of the list is called back after
    it.  [context2d] tells whether [getContext('2d')] gives a context,
    [encoded] what the encoder hands to the callback of [toBlob]. *)
Record Media : Type := {
  dispatched : list VideoEvent;
  context2d : bool;
  encoded : option Blob
}.

Record JsonMetadata : Type := {
  app : string;
  tags : list string;
  images_meta : list string
}.

Record CommentOp : Type := {
  parent_author : string;
  parent_permlink : string;
  author : string;
  permlink : string;
  title : string;
  body : string;
  json_metadata : JsonMetadata
}.

Record Beneficiary : Type := { account : string; weight : Z }.

(** An extension [[0, { beneficiaries: [...] }]]. *)
Record Extension : Type := { ext_id : Z; beneficiaries : list Beneficiary }.

Record CommentOptionsOp : Type := {
  opt_author : string;
  opt_permlink : string;
  max_accepted_payout : string;
  percent_hbd : Z;
  allow_votes : bool;
  allow_curation_rewards : bool;
  extensions : list Extension
}.

Inductive Operation : Type :=
| comment (op : CommentOp)
| comment_options (op : CommentOptionsOp).

Inductive KeyTypes : Type := Posting | Active | Memo.

(** The two calls that write to the ledger. *)
Inductive Submission : Type :=
| signAndBroadcastTx (ops : list Operation) (key : KeyTypes)
| aioha_comment (pa pp permlink title body : string) (meta : JsonMetadata).

(** The [Partial<Comment>] handed to [onNewComment]: the fields that are
    set, in the order of the object literal, with their values. *)
Definition PartialComment : Type := list (string * string).

Inductive Event : Type :=
| alert (msg : string)
| createObjectURL (f : File)
| revokeObjectURL (f : File)
| call_getFileSignature (f : File)
| call_uploadImage (f : File) (index : option nat)
| call_fetch (r : Request)
| tus_start (endpoint filename owner api_key : string)
| call_getLastSnapsContainer
| submit (s : Submission)
| onNewComment (newComment : PartialComment)
| onClose.

Record World : Type := {
  (* process configuration *)
  NEXT_PUBLIC_3SPEAK_API_KEY : option string;
  NEXT_PUBLIC_HIVE_COMMUNITY_TAG : option string;
  (* built-ins: [None] is a thrown exception *)
  Date_now : JsDate.time;
  URL_searchParams_get : string -> string -> option (option string);
  JSON_parse : string -> option JSValue;
  (* browser and hosts *)
  media : File -> Media;
  getFileSignature : File -> result string;
  uploadImage : File -> string -> option nat -> result string;
  fetch : Request -> result Response;
  tus_run : File -> TusRun;
  getLastSnapsContainer : result string;
  ledger : Submission -> result bool
}.

Record ComposerState : Type := {
  draft : string;                       (* postBodyRef.current.value *)
  images : list File;
  selectedGif : option IGif;
  selectedVideo : option File;
  videoUploadProgress : Z;
  videoEmbedUrl : option string;
  thumbnailProcessing : bool;
  isLoading : bool;
  uploadProgress : list Z
}.

Record Props : Type := { pa : string; pp : string; user : option string }.

Definition setDraft v (st : ComposerState) : ComposerState :=
  {| draft := v; images := images st; selectedGif := selectedGif st;
     selectedVideo := selectedVideo st;
     videoUploadProgress := videoUploadProgress st;
     videoEmbedUrl := videoEmbedUrl st;
     thumbnailProcessing := thumbnailProcessing st;
     isLoading := isLoading st; uploadProgress := uploadProgress st |}.

Definition setImages v (st : ComposerState) : ComposerState :=
  {| draft := draft st; images := v; selectedGif := selectedGif st;
     selectedVideo := selectedVideo st;
     videoUploadProgress := videoUploadProgress st;
     videoEmbedUrl := videoEmbedUrl st;
     thumbnailProcessing := thumbnailProcessing st;
     isLoading := isLoading st; uploadProgress := uploadProgress st |}.

Definition setSelectedGif v (st : ComposerState) : ComposerState :=
  {| draft := draft st; images := images st; selectedGif := v;
     selectedVideo := selectedVideo st;
     videoUploadProgress := videoUploadProgress st;
     videoEmbedUrl := videoEmbedUrl st;
     thumbnailProcessing := thumbnailProcessing st;
     isLoading := isLoading st; uploadProgress := uploadProgress st |}.

Definition setSelectedVideo v (st : ComposerState) : ComposerState :=
  {| draft := draft st; images := images st; selectedGif := selectedGif st;
     selectedVideo := v;
     videoUploadProgress := videoUploadProgress st;
     videoEmbedUrl := videoEmbedUrl st;
     thumbnailProcessing := thumbnailProcessing st;
     isLoading := isLoading st; uploadProgress := uploadProgress st |}.

Definition setVideoUploadProgress v (st : ComposerState) : ComposerState :=
  {| draft := draft st; images := images st; selectedGif := selectedGif st;
     selectedVideo := selectedVideo st;
     videoUploadProgress := v;
     videoEmbedUrl := videoEmbedUrl st;
     thumbnailProcessing := thumbnailProcessing st;
     isLoading := isLoading st; uploadProgress := uploadProgress st |}.

Definition setVideoEmbedUrl v (st : ComposerState) : ComposerState :=
  {| draft := draft st; images := images st; selectedGif := selectedGif st;
     selectedVideo := selectedVideo st;
     videoUploadProgress := videoUploadProgress st;
     videoEmbedUrl := v;
     thumbnailProcessing := thumbnailProcessing st;
     isLoading := isLoading st; uploadProgress := uploadProgress st |}.

Definition setThumbnailProcessing v (st : ComposerState) : ComposerState :=
  {| draft := draft st; images := images st; selectedGif := selectedGif st;
     selectedVideo := selectedVideo st;
     videoUploadProgress := videoUploadProgress st;
     videoEmbedUrl := videoEmbedUrl st;
     thumbnailProcessing := v;
     isLoading := isLoading st; uploadProgress := uploadProgress st |}.

Definition setIsLoading v (st : ComposerState) : ComposerState :=
  {| draft := draft st; images := images st; selectedGif := selectedGif st;
     selectedVideo := selectedVideo st;
     videoUploadProgress := videoUploadProgress st;
     videoEmbedUrl := videoEmbedUrl st;
     thumbnailProcessing := thumbnailProcessing st;
     isLoading := v; uploadProgress := uploadProgress st |}.

Definition setUploadProgress v (st : ComposerState) : ComposerState :=
  {| draft := draft st; images := images st; selectedGif := selectedGif st;
     selectedVideo := selectedVideo st;
     videoUploadProgress := videoUploadProgress st;
     videoEmbedUrl := videoEmbedUrl st;
     thumbnailProcessing := thumbnailProcessing st;
     isLoading := isLoading st; uploadProgress := v |}.

(* ================================================================== *)
(** ** Thumbnail extraction (lines 51-100) *)

Module Thumbnail.

(** The promise under construction: how it settled, if it did, the
    seek position last requested (in milliseconds), the [toBlob] calls
    that wait for their callback, oldest first, each with what the
    encoder made of its canvas, and the log. *)
Record Extraction : Type := {
  settlement : option (result Blob);
  currentTime : option Z;
  waiting : list (option Blob);
  log : list Event
}.

(** [resolve] and [reject]: only the first call settles the promise. *)
Definition settle (r : result Blob) (x : Extraction) : Extraction :=
  match settlement x with
  | Some _ => x
  | None => {| settlement := Some r; currentTime := currentTime x;
               waiting := waiting x; log := log x |}
  end.

Definition emit (e : Event) (x : Extraction) : Extraction :=
  {| settlement := settlement x; currentTime := currentTime x;
     waiting := waiting x; log := log x ++ [e] |}.

Definition on_loadeddata (x : Extraction) : Extraction :=
  {| settlement := settlement x; currentTime := Some 500%Z;
     waiting := waiting x; log := log x |}.

(** [canvas.toBlob(callback, 'image/jpeg', 0.9)]: the call returns at
    once and its callback joins the calls that wait. *)
Definition toBlob (blob : option Blob) (x : Extraction) : Extraction :=
  {| settlement := settlement x; currentTime := currentTime x;
     waiting := waiting x ++ [blob]; log := log x |}.

Definition called_back (rest : list (option Blob)) (x : Extraction)
  : Extraction :=
  {| settlement := settlement x; currentTime := currentTime x;
     waiting := rest; log := log x |}.

(** The callback handed to [toBlob], lines 79-86. *)
Definition toBlob_callback (file : File) (blob : option Blob)
  (x : Extraction) : Extraction :=
  let x' := match blob with
            | Some b => settle (Fulfilled b) x
            | None => settle (Rejected "Failed to create thumbnail blob") x
            end in
  emit (revokeObjectURL file) x'.

(** The listener of [seeked], lines 65-90. *)
Definition on_seeked (m : Media) (x : Extraction) : Extraction :=
  if negb (context2d m) then
    settle (Rejected "Failed to get canvas context") x
  else
    (* drawImage, then toBlob *)
    toBlob (encoded m) x.

(** The listener of [error], lines 92-95. *)
Definition on_error (file : File) (x : Extraction) : Extraction :=
  settle (Rejected "Failed to load video") (emit (revokeObjectURL file) x).

(** The browser calls back the oldest call that waits; with none
    waiting it has no callback to run. *)
Definition on_blob_ready (file : File) (x : Extraction) : Extraction :=
  match waiting x with
  | [] => x
  | blob :: rest => toBlob_callback file blob (called_back rest x)
  end.

Definition dispatch (m : Media) (file : File) (x : Extraction)
  (e : VideoEvent) : Extraction :=
  match e with
  | loadeddata => on_loadeddata x
  | seeked => on_seeked m x
  | error => on_error file x
  | blob_ready => on_blob_ready file x
  end.

(** The calls that still wait when the listed tasks are over are called
    back then, oldest first. *)
Definition drain (file : File) (x : Extraction) : Extraction :=
  fold_left (fun y blob => toBlob_callback file blob y) (waiting x)
    (called_back [] x).

(** The promise never settles ([None]) when the browser fires neither
    [seeked] nor [error]. *)
Definition extractThumbnail (w : World) (file : File)
  : option (result Blob) * list Event :=
  let m := media w file in
  let start := {| settlement := None; currentTime := None; waiting := [];
                  log := [createObjectURL file] |} in
  let x := drain file (fold_left (dispatch m file) (dispatched m) start) in
  (settlement x, log x).

End Thumbnail.

(* ================================================================== *)
(** ** Publishing the thumbnail (lines 103-158) *)

Module Publisher.

Definition ipfs_endpoint : string := "http://65.21.201.94:5002/api/v0/add".
Definition ipfs_gateway : string := "https://ipfs.3speak.tv/ipfs/".

Definition show_Z (z : Z) : string := NilZero.string_of_int (Z.to_int z).

(** [String(v)], as a template literal applies it. *)
Fixpoint ToString (v : JSValue) : string :=
  match v with
  | JUndefined => "undefined"
  | JNull => "null"
  | JBool true => "true"
  | JBool false => "false"
  | JNumber shown => shown
  | JString s => s
  | JArray items =>
      join ","
        (map (fun item => match item with
                          | JUndefined | JNull => ""
                          | _ => ToString item
                          end) items)
  | JObject _ => "[object Object]"
  end.

(** A key written twice keeps its last value. *)
Fixpoint lookup (key : string) (fields : list (string * JSValue))
  : option JSValue :=
  match fields with
  | [] => None
  | (k, v) :: rest =>
      match lookup key rest with
      | Some v' => Some v'
      | None => if String.eqb k key then Some v else None
      end
  end.

(** [v.key]: [None] is the TypeError of reading a property of [null]
    or [undefined]. *)
Definition get (v : JSValue) (key : string) : option JSValue :=
  match v with
  | JUndefined | JNull => None
  | JObject fields =>
      match lookup key fields with
      | Some x => Some x
      | None => Some JUndefined
      end
  | _ => Some JUndefined
  end.

Definition ipfs_request (thumbnailBlob : Blob) : Request :=
  {| url := ipfs_endpoint; x_api_key := None;
     req_body := FormData_file thumbnailBlob |}.

(** lines 103-127 *)
Definition uploadThumbnailToIPFS (w : World) (thumbnailBlob : Blob)
  : result string * list Event :=
  let request := ipfs_request thumbnailBlob in
  let outcome :=
    match fetch w request with
    | Rejected reason => Rejected reason
    | Fulfilled response =>
        if negb (ok response) then
          Rejected ("IPFS upload failed: " +++ show_Z (status response)
                      +++ " - " +++ statusText response)
        else
          match text response with
          | Rejected reason => Rejected reason
          | Fulfilled responseText =>
              let lines := split "010" (trim responseText) in
              let lastLine := last lines "" in
              match JSON_parse w lastLine with
              | None => Rejected "SyntaxError"
              | Some parsed =>
                  match get parsed "Hash" with
                  | None => Rejected "TypeError"
                  | Some ipfsHash =>
                      Fulfilled (ipfs_gateway +++ ToString ipfsHash)
                  end
              end
          end
    end in
  (outcome, [call_fetch request]).

Definition thumbnail_file (file : File) (thumbnailBlob : Blob) : File :=
  {| name := name file +++ "_thumbnail.jpg"; content := thumbnailBlob |}.

(** lines 138-153: the signed upload, then the fallback in its
    [catch]. *)
Definition publishThumbnail (w : World) (file : File) (thumbnailBlob : Blob)
  : result string * list Event :=
  let thumbnailFile := thumbnail_file file thumbnailBlob in
  let fallback (tried : list Event) :=
    let '(ipfsUrl, ev) := uploadThumbnailToIPFS w thumbnailBlob in
    (ipfsUrl, tried ++ ev) in
  match getFileSignature w thumbnailFile with
  | Rejected _ => fallback [call_getFileSignature thumbnailFile]
  | Fulfilled signature =>
      let tried := [call_getFileSignature thumbnailFile;
                    call_uploadImage thumbnailFile None] in
      match uploadImage w thumbnailFile signature None with
      | Fulfilled imageUrl => (Fulfilled imageUrl, tried)
      | Rejected _ => fallback tried
      end
  end.

(** lines 130-158; [None] while the extraction never settles. *)
Definition extractAndUploadThumbnail (w : World) (file : File)
  : option (result string) * list Event :=
  match Thumbnail.extractThumbnail w file with
  | (None, ev) => (None, ev)
  | (Some (Rejected reason), ev) => (Some (Rejected reason), ev)
  | (Some (Fulfilled thumbnailBlob), ev) =>
      let '(r, ev') := publishThumbnail w file thumbnailBlob in
      (Some r, ev ++ ev')
  end.

End Publisher.

(* ================================================================== *)
(** ** Video upload and its orchestration (lines 161-305) *)

Module Video.

Definition credential_missing : string := "3Speak API key not configured".
Definition upload_endpoint : string := "https://embed.3speak.tv/uploads".

(** lines 161-174 *)
Definition extractVideoId (w : World) (embedUrl : string) : option string :=
  match URL_searchParams_get w embedUrl "v" with
  | None => None                                  (* new URL threw *)
  | Some videoParam =>
      if truthy_opt videoParam then
        let parts := split "/" (or_empty videoParam) in
        nth_error parts 1
      else None
  end.

Definition thumbnail_request (apiKey videoId thumbnailUrl : string)
  : Request :=
  {| url := "https://embed.3speak.tv/video/" +++ videoId +++ "/thumbnail";
     x_api_key := Some apiKey;
     req_body := Json_thumbnail_url thumbnailUrl |}.

(** lines 177-197 *)
Definition setVideoThumbnail (w : World) (videoId thumbnailUrl : string)
  : result unit * list Event :=
  let apiKey := or_empty (NEXT_PUBLIC_3SPEAK_API_KEY w) in
  if negb (truthy apiKey) then (Rejected credential_missing, [])
  else
    let request := thumbnail_request apiKey videoId thumbnailUrl in
    let outcome :=
      match fetch w request with
      | Rejected reason => Rejected reason
      | Fulfilled response =>
          if negb (ok response) then
            Rejected ("Failed to set thumbnail: "
                        +++ Publisher.show_Z (status response)
                        +++ " - " +++ statusText response)
          else Fulfilled tt
      end in
    (outcome, [call_fetch request]).

(** [onAfterResponse]: the last non-empty header wins. *)
Definition observe_header (embedUrl : option string) (header : option string)
  : option string :=
  if truthy_opt header then header else embedUrl.

(** lines 200-249 *)
Definition uploadVideoToThreeSpeak (w : World) (user : option string)
  (file : File) (st : ComposerState)
  : result string * ComposerState * list Event :=
  let apiKey := or_empty (NEXT_PUBLIC_3SPEAK_API_KEY w) in
  if negb (truthy apiKey) || String.eqb apiKey "" then
    (Rejected credential_missing, st, [])
  else
    let run := tus_run w file in
    let ev := [tus_start upload_endpoint (name file) (or_empty user) apiKey] in
    let st1 := fold_left (fun s percentage => setVideoUploadProgress percentage s)
                 (progress run) st in
    let embedUrl := fold_left observe_header (embed_headers run) None in
    match tus_error run with
    | Some reason =>
        (Rejected reason, setVideoUploadProgress 0 (setSelectedVideo None st1), ev)
    | None =>
        if truthy_opt embedUrl then (Fulfilled (or_empty embedUrl), st1, ev)
        else (Rejected "Failed to get embed URL from server", st1, ev)
    end.

(** How far a handler got: it returned, it threw out of the handler,
    or it waits on a promise that never settles. *)
Inductive Completion : Type := Returned | Threw (reason : string) | Pending.

Definition upload_failed_msg : string :=
  "Failed to upload video. Please try again.".

(** lines 252-305.  The two tasks of [Promise.allSettled] are logged
    one after the other; their real interleaving is not represented. *)
Definition handleVideoSelection (w : World) (user : option string)
  (file : File) (st : ComposerState)
  : Completion * ComposerState * list Event :=
  let st0 := setThumbnailProcessing true
               (setVideoUploadProgress 1 (setSelectedVideo (Some file) st)) in
  let '(videoResult, st1, ev_video) := uploadVideoToThreeSpeak w user file st0 in
  let '(thumbnailSettled, ev_thumb) := Publisher.extractAndUploadThumbnail w file in
  let started := ev_video ++ ev_thumb in
  match thumbnailSettled with
  | None => (Pending, st1, started)
  | Some thumbnailResult =>
      let '(st2, ev) :=
        match videoResult with
        | Fulfilled embed =>
            let st' := setVideoEmbedUrl (Some embed) st1 in
            match thumbnailResult with
            | Fulfilled thumbnailUrl =>
                match extractVideoId w embed with
                | Some videoId =>
                    if truthy videoId
                    then (st', snd (setVideoThumbnail w videoId thumbnailUrl))
                    else (st', [])
                | None => (st', [])
                end
            | Rejected _ => (st', [])
            end
        | Rejected _ =>
            (setVideoUploadProgress 0 (setSelectedVideo None st1),
             [alert upload_failed_msg])
        end in
      (Returned, setThumbnailProcessing false st2, started ++ ev)
  end.

End Video.

(* ================================================================== *)
(** ** Assembling and publishing the post (lines 307-447) *)

Module Composer.

Import Video.

Definition blank_line : string := newline +++ newline.

Definition image_markdown (url : string) : string := "![image](" +++ url +++ ")".
Definition gif_markdown (gif : IGif) : string :=
  "![gif](" +++ downsized_medium_url gif +++ ")".

(** lines 329-332 *)
Definition add_video (videoEmbedUrl : option string) (commentBody : string)
  : string :=
  if truthy_opt videoEmbedUrl
  then commentBody +++ blank_line +++ or_empty videoEmbedUrl
  else commentBody.

(** lines 349-352 *)
Definition add_images (validUrls : list string) (commentBody : string)
  : string :=
  if (0 <? List.length validUrls)%nat then
    let imageMarkup := join newline (map image_markdown validUrls) in
    commentBody +++ blank_line +++ imageMarkup
  else commentBody.

(** lines 355-357 *)
Definition add_gif (selectedGif : option IGif) (commentBody : string)
  : string :=
  match selectedGif with
  | Some gif => commentBody +++ blank_line +++ gif_markdown gif
  | None => commentBody
  end.

(** [images.map] calls the callback of lines 336-345 for every image
    in turn, and each call runs as far as its first [await]: the
    signatures of all the images are requested, in the order of the
    list, before any callback goes on to its upload. *)
Definition request_signatures (imgs : list File) : list Event :=
  map call_getFileSignature imgs.

(** The callback of [images.map] from the answer to its signature
    request on: the signature is awaited outside the [try], the upload
    inside it. *)
Definition upload_one (w : World) (index : nat) (image : File)
  : result (option string) * list Event :=
  match getFileSignature w image with
  | Rejected reason => (Rejected reason, [])
  | Fulfilled signature =>
      let ev := [call_uploadImage image (Some index)] in
      match uploadImage w image signature (Some index) with
      | Fulfilled uploadUrl => (Fulfilled (Some uploadUrl), ev)
      | Rejected _ => (Fulfilled None, ev)
      end
  end.

(** Each callback goes on when its signature arrives.  The signing
    host is taken to answer in the order it was asked, so that the
    callbacks go on in the order of the images. *)
Fixpoint upload_from (w : World) (index : nat) (imgs : list File)
  : list (result (option string)) * list Event :=
  match imgs with
  | [] => ([], [])
  | image :: rest =>
      let '(r, ev) := upload_one w index image in
      let '(rs, evs) := upload_from w (S index) rest in
      (r :: rs, ev ++ evs)
  end.

(** [Promise.all] over settled promises: the values, or the first
    rejection. *)
Fixpoint promise_all {A : Type} (settled : list (result A)) : result (list A) :=
  match settled with
  | [] => Fulfilled []
  | Rejected reason :: _ => Rejected reason
  | Fulfilled v :: rest =>
      match promise_all rest with
      | Fulfilled vs => Fulfilled (v :: vs)
      | Rejected reason => Rejected reason
      end
  end.

(** [uploadedImages.filter(url => url !== null)] *)
Fixpoint non_null (uploadedImages : list (option string)) : list string :=
  match uploadedImages with
  | [] => []
  | Some u :: rest => u :: non_null rest
  | None :: rest => non_null rest
  end.

Definition is_some {A : Type} (x : option A) : bool :=
  match x with Some _ => true | None => false end.

Definition metadata (snapsTags validUrls : list string) : JsonMetadata :=
  {| app := "mycommunity"; tags := snapsTags; images_meta := validUrls |}.

Definition commentOp (pa pp user permlink commentBody : string)
  (snapsTags validUrls : list string) : Operation :=
  comment {| parent_author := pa; parent_permlink := pp; author := user;
             permlink := permlink; title := ""; body := commentBody;
             json_metadata := metadata snapsTags validUrls |}.

Definition optionsOp (user permlink : string) : Operation :=
  comment_options
    {| opt_author := user; opt_permlink := permlink;
       max_accepted_payout := "1000000.000 HBD";
       percent_hbd := 10000;
       allow_votes := true;
       allow_curation_rewards := true;
       extensions :=
         [ {| ext_id := 0;
              beneficiaries := [ {| account := "snapie"; weight := 1000 |} ] |} ] |}.

(** lines 421-427 *)
Definition clear (st : ComposerState) : ComposerState :=
  setThumbnailProcessing false
    (setVideoUploadProgress 0
       (setVideoEmbedUrl None
          (setSelectedVideo None
             (setSelectedGif None (setImages [] (setDraft "" st)))))).

(** lines 442-445 *)
Definition finally (st : ComposerState) : ComposerState :=
  setUploadProgress [] (setIsLoading false st).

Definition newComment (user permlink commentBody : string) : PartialComment :=
  [("author", user); ("permlink", permlink); ("body", commentBody)].

(** lines 334-347: the uploads of the attached images, joined by
    [Promise.all], and the URLs that are not [null].  A rejection of
    the join stops the handler, not the callbacks of the other images:
    the log holds what all of them do. *)
Definition upload_images (w : World) (imgs : list File)
  : result (list string) * list Event :=
  let '(settled, ev) :=
    if (0 <? List.length imgs)%nat then
      let '(settled, resumed) := upload_from w 0 imgs in
      (settled, request_signatures imgs ++ resumed)
    else ([], []) in
  match promise_all settled with
  | Rejected reason => (Rejected reason, ev)
  | Fulfilled uploadedImages => (Fulfilled (non_null uploadedImages), ev)
  end.

(** lines 313-357: the body, from the draft and the attachments the
    handler closed over. *)
Definition compose (st : ComposerState) (validUrls : list string) : string :=
  let commentBody := draft st in
  let commentBody := add_video (videoEmbedUrl st) commentBody in
  let commentBody := add_images validUrls commentBody in
  add_gif (selectedGif st) commentBody.

(** lines 374-418: two operations signed together when a video is
    embedded, otherwise a plain comment. *)
Definition build_submission (videoEmbedUrl : option string)
  (pa pp user permlink commentBody : string)
  (snapsTags validUrls : list string) : Submission :=
  if truthy_opt videoEmbedUrl then
    signAndBroadcastTx
      [commentOp pa pp user permlink commentBody snapsTags validUrls;
       optionsOp user permlink]
      Posting
  else
    aioha_comment pa pp permlink "" commentBody (metadata snapsTags validUrls).

Definition failed_msg : string := "Failed to post. Please try again.".

(** lines 420-441: what follows the answer of the ledger. *)
Definition respond (w : World) (st : ComposerState)
  (user permlink commentBody : string) (submission : Submission)
  : ComposerState * list Event :=
  match ledger w submission with
  | Fulfilled true =>
      (clear st, [onNewComment (newComment user permlink commentBody); onClose])
  | Fulfilled false => (st, [alert failed_msg])
  | Rejected reason => (st, [alert ("Error posting: " +++ reason)])
  end.

(** The container a post to the reserved tag goes to (lines 363-366);
    the lookup can be rejected. *)
Definition resolve_container (w : World) (pp : string)
  : result string * list Event :=
  if String.eqb pp Tags.reserved_tag
  then (getLastSnapsContainer w, [call_getLastSnapsContainer])
  else (Fulfilled pp, []).

(** lines 359-446, with the attachments and the logged-in user as the
    handler closed over them ([captured]). *)
Definition publish (w : World) (props : Props) (captured : ComposerState)
  (st : ComposerState) (permlink commentBody : string)
  (validUrls : list string) : ComposerState * list Event :=
  if truthy commentBody then
    let user := or_empty (user props) in
    let '(container, lookup) := resolve_container w (pp props) in
    match container with
    | Rejected reason =>
        (finally st, lookup ++ [alert ("Error posting: " +++ reason)])
    | Fulfilled pp' =>
        let snapsTags :=
          Tags.seedTags (NEXT_PUBLIC_HIVE_COMMUNITY_TAG w) (pp props) in
        let hashtags := Tags.extractHashtags commentBody in
        let snapsTags := Tags.unique (snapsTags ++ hashtags) in
        let submission :=
          build_submission (videoEmbedUrl captured) (pa props) pp' user
            permlink commentBody snapsTags validUrls in
        let '(st', after) :=
          respond w st user permlink commentBody submission in
        (finally st', lookup ++ submit submission :: after)
    end
  else (st, []).

Definition login_msg : string := "You must be logged in to post.".
Definition empty_msg : string :=
  "Please enter some text, upload an image, select a gif, or upload a video before posting.".

(** The guard of lines 315-318. *)
Definition nothing_to_post (st : ComposerState) : bool :=
  negb (truthy (trim (draft st)))
  && (List.length (images st) =? 0)%nat
  && negb (is_some (selectedGif st))
  && negb (is_some (selectedVideo st)).

(** lines 307-447 *)
Definition handleComment (w : World) (props : Props) (st : ComposerState)
  : Completion * ComposerState * list Event :=
  if negb (truthy_opt (user props)) then (Returned, st, [alert login_msg])
  else if nothing_to_post st then (Returned, st, [alert empty_msg])
  else
    let st1 := setUploadProgress [] (setIsLoading true st) in
    let permlink := JsDate.permlink_of (Date_now w) in
    match upload_images w (images st) with
    | (Rejected reason, ev_images) => (Threw reason, st1, ev_images)
    | (Fulfilled validUrls, ev_images) =>
        let commentBody := compose st validUrls in
        let '(st2, ev) :=
          publish w props st st1 permlink commentBody validUrls in
        (Returned, st2, ev_images ++ ev)
    end.

(** What a submission writes to the ledger.  [aioha.comment] called
    without an options argument broadcasts one [comment] operation
    authored by the logged-in user. *)
Definition ledger_operations (user : string) (s : Submission)
  : list Operation :=
  match s with
  | signAndBroadcastTx ops _ => ops
  | aioha_comment pa pp permlink title body meta =>
      [comment {| parent_author := pa; parent_permlink := pp;
                  author := user; permlink := permlink; title := title;
                  body := body; json_metadata := meta |}]
  end.

(** The submissions of a log, in order. *)
Fixpoint submissions (log : list Event) : list Submission :=
  match log with
  | [] => []
  | submit s :: rest => s :: submissions rest
  | _ :: rest => submissions rest
  end.

End Composer.

(* ================================================================== *)
(** ** Reference notions the properties are stated with *)

Module Spec.

(** Two time values fall within the same second. *)
Definition same_second (t1 t2 : JsDate.time) : Prop :=
  (t1 / 1000 = t2 / 1000)%Z.

(** [s] ends with [suffix]. *)
Definition ends_with (s suffix : string) : Prop :=
  exists front, s = front +++ suffix.

(** Duplicates removed, every value staying at its first occurrence. *)
Fixpoint first_occurrences (l : list string) : list string :=
  match l with
  | [] => []
  | x :: rest =>
      x :: filter (fun y => negb (String.eqb y x)) (first_occurrences rest)
  end.

Definition starts_with_word (s : string) : bool :=
  match s with
  | EmptyString => false
  | String c _ => is_word c
  end.

Fixpoint all_word (s : string) : bool :=
  match s with
  | EmptyString => true
  | String c t => is_word c && all_word t
  end.

(** [tokens text l]: reading [text] from the left, [l] lists the
    maximal runs of word characters that directly follow a ['#']. *)
Inductive tokens : string -> list string -> Prop :=
| tokens_end : tokens "" []
| tokens_other c rest l :
    c <> "#"%char -> tokens rest l -> tokens (String c rest) l
| tokens_bare rest l :
    starts_with_word rest = false -> tokens rest l ->
    tokens (String "#" rest) l
| tokens_tag run rest l :
    run <> "" -> all_word run = true -> starts_with_word rest = false ->
    tokens rest l -> tokens (String "#" (run +++ rest)) (run :: l).

(** The same tags read position by position: every ['#'] directly
    followed by word characters yields the run that follows it. *)
Fixpoint tags_by_position (s : string) : list string :=
  match s with
  | EmptyString => []
  | String c t =>
      if Ascii.eqb c "#" then
        match take_while is_word t with
        | EmptyString => tags_by_position t
        | run => run :: tags_by_position t
        end
      else tags_by_position t
  end.

(** The URLs of the images whose signed upload succeeded, in the order
    of the attachment list. *)
Fixpoint uploaded_urls (w : World) (index : nat) (imgs : list File)
  : list string :=
  match imgs with
  | [] => []
  | image :: rest =>
      match getFileSignature w image with
      | Fulfilled signature =>
          match uploadImage w image signature (Some index) with
          | Fulfilled u => u :: uploaded_urls w (S index) rest
          | Rejected _ => uploaded_urls w (S index) rest
          end
      | Rejected _ => uploaded_urls w (S index) rest
      end
  end.

Definition signed (w : World) (image : File) : Prop :=
  exists signature, getFileSignature w image = Fulfilled signature.

(** The paragraphs of the body, each with the blank line before it:
    the embed reference as it is, one line [![image](url)] per image
    URL, one line [![gif](url)] for the GIF. *)
Definition line_feed : string := String "010" "".

Definition video_paragraph (videoEmbedUrl : option string) : string :=
  if truthy_opt videoEmbedUrl
  then line_feed +++ line_feed +++ or_empty videoEmbedUrl else "".

Definition image_line (u : string) : string := "![image](" +++ u +++ ")".

Definition image_lines (urls : list string) : list string :=
  map image_line urls.

Definition images_paragraph (urls : list string) : string :=
  match urls with
  | [] => ""
  | _ => line_feed +++ line_feed +++ join line_feed (image_lines urls)
  end.

Definition gif_paragraph (selectedGif : option IGif) : string :=
  match selectedGif with
  | Some gif =>
      line_feed +++ line_feed +++ "![gif](" +++ downsized_medium_url gif +++ ")"
  | None => ""
  end.

(** [u] occurs in [body] and no word character follows it. *)
Definition embedded (u body : string) : Prop :=
  exists before after,
    body = before +++ u +++ after /\ starts_with_word after = false.

(** The media URLs appended to the draft. *)
Definition media_url (st : ComposerState) (validUrls : list string)
  (u : string) : Prop :=
  (truthy u = true /\ videoEmbedUrl st = Some u) \/
  In u validUrls \/
  (exists gif, selectedGif st = Some gif /\ u = downsized_medium_url gif).

(** Every image of the list is signed and uploaded, the one at
    position [index + i] to [url_at i]. *)
Definition all_uploaded (w : World) (index : nat) (imgs : list File)
  (urls : list string) : Prop :=
  Forall2 (fun '(i, image) u =>
             exists signature,
               getFileSignature w image = Fulfilled signature /\
               uploadImage w image signature (Some i) = Fulfilled u)
    (combine (seq index (List.length imgs)) imgs) urls.

Fixpoint contains (sep : ascii) (s : string) : bool :=
  match s with
  | EmptyString => false
  | String c t => Ascii.eqb c sep || contains sep t
  end.

Definition has_newline (s : string) : bool := contains "010" s.

(** The outcome of the signed upload of the thumbnail. *)
Definition primary_outcome (w : World) (file : File) (thumbnailBlob : Blob)
  : result string :=
  let thumbnailFile := Publisher.thumbnail_file file thumbnailBlob in
  match getFileSignature w thumbnailFile with
  | Fulfilled signature => uploadImage w thumbnailFile signature None
  | Rejected reason => Rejected reason
  end.

(** The last line of an NDJSON reply. *)
Definition last_line (responseText : string) : string :=
  last (split "010" (trim responseText)) "".

(** The fields of a submission. *)
Definition submitted_comment (s : Submission) : option CommentOp :=
  match Composer.ledger_operations "" s with
  | comment c :: _ => Some c
  | _ => None
  end.

Definition submitted_body (s : Submission) : string :=
  match submitted_comment s with Some c => body c | None => "" end.

Definition submitted_permlink (s : Submission) : string :=
  match submitted_comment s with Some c => permlink c | None => "" end.

Definition submitted_tags (s : Submission) : list string :=
  match submitted_comment s with
  | Some c => tags (json_metadata c)
  | None => []
  end.

Definition submitted_images (s : Submission) : list string :=
  match submitted_comment s with
  | Some c => images_meta (json_metadata c)
  | None => []
  end.

(** The submission of a run, described from the inputs of the run. *)
Definition the_submission (w : World) (props : Props) (st : ComposerState)
  (validUrls : list string) (pp' : string) : Submission :=
  Composer.build_submission (videoEmbedUrl st) (pa props) pp' (or_empty (user props))
    (JsDate.permlink_of (Date_now w)) (Composer.compose st validUrls)
    (Tags.buildTags (NEXT_PUBLIC_HIVE_COMMUNITY_TAG w) (pp props)
       (Composer.compose st validUrls))
    validUrls.

Definition count_events (p : Event -> bool) (log : list Event) : nat :=
  List.length (filter p log).

Definition is_signed_upload (e : Event) : bool :=
  match e with call_uploadImage _ _ => true | _ => false end.

Definition is_signature (e : Event) : bool :=
  match e with call_getFileSignature _ => true | _ => false end.

Definition is_fallback_fetch (e : Event) : bool :=
  match e with
  | call_fetch r => String.eqb (url r) Publisher.ipfs_endpoint
  | _ => false
  end.

Definition is_revoke (e : Event) : bool :=
  match e with revokeObjectURL _ => true | _ => false end.

Definition is_alert (e : Event) : bool :=
  match e with alert _ => true | _ => false end.

Definition is_notification (e : Event) : bool :=
  match e with onNewComment _ => true | _ => false end.

End Spec.

(* ================================================================== *)
(** ** Concrete runs *)

Module Scenario.

Definition embed : string := "https://play.3speak.tv/embed?v=meno/i2znmy5h".
Definition quote : string := String "034" EmptyString.

(** One NDJSON reply of the content-addressed store: a progress line,
    then the line that carries the hash. *)
Definition hash_line : string :=
  "{" +++ quote +++ "Name" +++ quote +++ ":" +++ quote +++ "t.jpg" +++ quote
    +++ "," +++ quote +++ "Hash" +++ quote +++ ":" +++ quote +++ "QmThumb"
    +++ quote +++ "}".
Definition ipfs_reply : string :=
  "{" +++ quote +++ "Bytes" +++ quote +++ ":512}" +++ newline
    +++ hash_line +++ newline.

(** The built-ins, on the inputs of these runs. *)
Definition searchParams_get (u key : string) : option (option string) :=
  if String.eqb u embed then
    if String.eqb key "v" then Some (Some "meno/i2znmy5h") else Some None
  else None.

Definition parse (line : string) : option JSValue :=
  if String.eqb line hash_line
  then Some (JObject [("Name", JString "t.jpg"); ("Hash", JString "QmThumb")])
  else None.

Definition reply_ok (body : string) : Response :=
  {| ok := true; status := 200; statusText := "OK"; text := Fulfilled body |}.

Definition clip : File := {| name := "clip.mp4"; content := 1 |}.
Definition photo1 : File := {| name := "a.png"; content := 2 |}.
Definition photo2 : File := {| name := "b.png"; content := 3 |}.

(** A world where every host answers; the parameters are the points
    the runs below vary. *)
Definition world (api_key : option string) (context : bool)
  (signature : File -> result string)
  (upload : File -> result string)
  (tus_failure : option string)
  (answer : result bool) : World :=
  {| NEXT_PUBLIC_3SPEAK_API_KEY := api_key;
     NEXT_PUBLIC_HIVE_COMMUNITY_TAG := Some "hive-178315";
     Date_now := 1700000000123%Z;
     URL_searchParams_get := searchParams_get;
     JSON_parse := parse;
     media := fun _ => {| dispatched := [loadeddata; seeked];
                          context2d := context; encoded := Some 9 |};
     getFileSignature := signature;
     uploadImage := fun f _ _ => upload f;
     fetch := fun _ => Fulfilled (reply_ok ipfs_reply);
     tus_run := fun _ => {| progress := [40; 100]%Z;
                            embed_headers := [None; Some embed];
                            tus_error := tus_failure |};
     getLastSnapsContainer := Fulfilled "snap-container-1700000000";
     ledger := fun _ => answer |}.

Definition hosted (f : File) : result string :=
  Fulfilled ("https://images.hive.blog/" +++ name f).

Definition calm : World :=
  world (Some "k3y") true (fun _ => Fulfilled "sig") hosted None
    (Fulfilled true).

Definition refusing : World :=
  world (Some "k3y") true (fun _ => Fulfilled "sig") hosted None
    (Fulfilled false).

Definition primary_down : World :=
  world (Some "k3y") true (fun _ => Fulfilled "sig")
    (fun _ => Rejected "503") None (Fulfilled true).

Definition no_context : World :=
  world (Some "k3y") false (fun _ => Fulfilled "sig") hosted None
    (Fulfilled true).

Definition video_down : World :=
  world (Some "k3y") true (fun _ => Fulfilled "sig") hosted
    (Some "tus: failed to upload chunk") (Fulfilled true).

Definition no_key : World :=
  world None true (fun _ => Fulfilled "sig") hosted None (Fulfilled true).

Definition second_fails : World :=
  world (Some "k3y") true (fun _ => Fulfilled "sig")
    (fun f => if String.eqb (name f) "b.png" then Rejected "413"
              else hosted f)
    None (Fulfilled true).

Definition empty : ComposerState :=
  {| draft := ""; images := []; selectedGif := None; selectedVideo := None;
     videoUploadProgress := 0; videoEmbedUrl := None;
     thumbnailProcessing := false; isLoading := false;
     uploadProgress := [] |}.

Definition with_video : ComposerState :=
  setVideoEmbedUrl (Some embed)
    (setVideoUploadProgress 100
       (setSelectedVideo (Some clip) (setDraft "look #clip" empty))).

Definition with_photos : ComposerState :=
  setImages [photo1; photo2] (setDraft "two #photos" empty).

Definition looping_gif : IGif :=
  {| gif_id := "g1";
     downsized_medium_url := "https://media.giphy.com/media/g1/giphy.gif#loop" |}.

Definition with_gif : ComposerState :=
  setSelectedGif (Some looping_gif) (setDraft "no tags here" empty).

(** The signing of the first photo is refused. *)
Definition first_unsigned : World :=
  world (Some "k3y") true
    (fun f => if String.eqb (name f) "a.png" then Rejected "signing refused"
              else Fulfilled "sig")
    hosted None (Fulfilled true).

(** A draft with every kind of attachment. *)
Definition with_everything : ComposerState :=
  setSelectedGif (Some looping_gif) (setImages [photo1; photo2] with_video).

Definition reply_to : Props :=
  {| pa := "alice"; pp := "re-post"; user := Some "bob" |}.

Definition to_snaps : Props :=
  {| pa := "peak.snaps"; pp := "snaps"; user := Some "bob" |}.

End Scenario.

(* ================================================================== *)
(** ** The rest of the composer: derived flags and small handlers *)

Module ComposerUI.

Import Composer Video.

(** line 41 *)
Definition isDisabled (user : option string) (st : ComposerState) : bool :=
  negb (truthy_opt user) || isLoading st.

(** line 483: [isDisabled || Boolean(selectedVideo && !videoEmbedUrl)] *)
Definition postDisabled (user : option string) (st : ComposerState) : bool :=
  isDisabled user st
  || (is_some (selectedVideo st) && negb (truthy_opt (videoEmbedUrl st))).

(** [array.filter((_, i) => keep(i))], the index counted from [i]. *)
Fixpoint filter_index {A : Type} (keep : nat -> bool) (i : nat) (l : list A)
  : list A :=
  match l with
  | [] => []
  | x :: rest =>
      if keep i then x :: filter_index keep (S i) rest
      else filter_index keep (S i) rest
  end.

(** lines 473 and 498: [prevImages.filter((_, i) => i !== index)] *)
Definition removeImage (index : nat) (st : ComposerState) : ComposerState :=
  setImages (filter_index (fun i => negb (i =? index)%nat) 0 (images st)) st.

Record KeyboardEvent : Type := { ctrlKey : bool; key : string }.

(** lines 450-454 *)
Definition handleKeyDown (w : World) (props : Props) (event : KeyboardEvent)
  (st : ComposerState) : Completion * ComposerState * list Event :=
  if ctrlKey event && String.eqb (key event) "Enter"
  then handleComment w props st
  else (Returned, st, []).

End ComposerUI.

(* ================================================================== *)
(** ** The side bar: fetching and paging posts
    ([src/components/layout/RightSideBar.tsx], lines 8-57) *)

Module RightSideBar.

(** A [Discussion], of which these fields are read. *)
Record Discussion : Type := {
  author : string;
  permlink : string;
  parent_author : string
}.

Record Params : Type := {
  tag : option string;
  limit : Z;
  start_author : string;
  start_permlink : string
}.

(** The state of the component and the three refs. *)
Record State : Type := {
  query : string;
  allPosts : list Discussion;
  isLoading : bool;
  isFetching : bool;                    (* isFetching.current *)
  mutedAccounts : list string;          (* mutedAccountsRef.current *)
  params : Params                       (* params.current *)
}.

(** [process.env.NEXT_PUBLIC_HIVE_SEARCH_TAG] and [findPosts]. *)
Record Host : Type := {
  NEXT_PUBLIC_HIVE_SEARCH_TAG : option string;
  findPosts : string -> Params -> result (list Discussion)
}.

Inductive Call : Type := call_findPosts (query : string) (p : Params).

(** lines 20-25 *)
Definition initial_params (h : Host) : Params :=
  {| tag := NEXT_PUBLIC_HIVE_SEARCH_TAG h; limit := 8;
     start_author := ""; start_permlink := "" |}.

(** [mutedAccountsRef.current.includes(a)] *)
Definition includes (muted : list string) (a : string) : bool :=
  existsb (String.eqb a) muted.

(** lines 35-39: the callback of [posts.filter]. *)
Definition visible (muted : list string) (post : Discussion) : bool :=
  let isTopLevel := String.eqb (parent_author post) "" in
  let isMuted := includes muted (author post) in
  isTopLevel && negb isMuted.

(** [a[a.length - 1]], [undefined] on an empty array. *)
Definition last_of {A : Type} (l : list A) : option A :=
  match List.rev l with
  | [] => None
  | x :: _ => Some x
  end.

(** [x ?? y] *)
Definition nullish {A : Type} (x y : option A) : option A :=
  match x with
  | Some _ => x
  | None => y
  end.

(** lines 44-50: [lastVisible?.field || ''] *)
Definition next_params (h : Host) (lastVisible : option Discussion) : Params :=
  {| tag := NEXT_PUBLIC_HIVE_SEARCH_TAG h; limit := 8;
     start_author := match lastVisible with
                     | Some post => author post
                     | None => ""
                     end;
     start_permlink := match lastVisible with
                       | Some post => permlink post
                       | None => ""
                       end |}.

Definition finish (st : State) : State :=
  {| query := query st; allPosts := allPosts st; isLoading := false;
     isFetching := false; mutedAccounts := mutedAccounts st;
     params := params st |}.

(** lines 27-57 *)
Definition fetchPosts (h : Host) (st : State) : State * list Call :=
  if isFetching st then (st, [])
  else
    let request := call_findPosts (query st) (params st) in
    match findPosts h (query st) (params st) with
    | Fulfilled posts =>
        let topLevelPosts := filter (visible (mutedAccounts st)) posts in
        let lastVisible := nullish (last_of topLevelPosts) (last_of posts) in
        (finish {| query := query st;
                   allPosts := allPosts st ++ topLevelPosts;
                   isLoading := true; isFetching := true;
                   mutedAccounts := mutedAccounts st;
                   params := next_params h lastVisible |},
         [request])
    | Rejected _ =>
        (finish {| query := query st; allPosts := allPosts st;
                   isLoading := true; isFetching := true;
                   mutedAccounts := mutedAccounts st;
                   params := params st |},
         [request])
    end.

End RightSideBar.

(* ================================================================== *)
(** ** Reference notions for the calendar and for further runs *)

Module Calendar.

Local Open Scope Z_scope.

(** The day number of a date of the proleptic Gregorian calendar, by
    400-year eras that start on March 1st. *)
Definition days_from_civil (y m d : Z) : Z :=
  let y' := if m <=? 2 then y - 1 else y in
  let era := y' / 400 in
  let yoe := y' - era * 400 in
  let mp := if 2 <? m then m - 3 else m + 9 in
  let doy := (153 * mp + 2) / 5 + d - 1 in
  let doe := yoe * 365 + yoe / 4 - yoe / 100 + doy in
  era * 146097 + doe - 719468.

(** The date of day [doe] of era [era]: what [civil_from_days] computes
    once the era is known. *)
Definition civil_of_era (era doe : Z) : Z * Z * Z :=
  let yoe := (doe - doe / 1460 + doe / 36524 - doe / 146096) / 365 in
  let doy := doe - (365 * yoe + yoe / 4 - yoe / 100) in
  let mp := (5 * doy + 2) / 153 in
  let d := doy - (153 * mp + 2) / 5 + 1 in
  let m := if mp <? 10 then mp + 3 else mp - 9 in
  let y := yoe + era * 400 + (if m <=? 2 then 1 else 0) in
  (y, m, d).

(** The check of one day of an era: the date is well formed and leads
    back to the day. *)
Definition day_ok (doe : Z) : bool :=
  let '(y, m, d) := civil_of_era 0 doe in
  (days_from_civil y m d =? doe - 719468)
  && (1 <=? m) && (m <=? 12) && (1 <=? d) && (d <=? 31)
  && (0 <=? (if m <=? 2 then y - 1 else y))
  && ((if m <=? 2 then y - 1 else y) <? 400).

Fixpoint days_ok (count : nat) (from : Z) : bool :=
  match count with
  | O => true
  | S n => day_ok from && days_ok n (from + 1)
  end.

(** The first millisecond of the year 10000. *)
Definition year_10000 : JsDate.time := 253402300800000.

(** The time values of the years 1970 to 9999. *)
Definition four_digit_era (t : JsDate.time) : Prop := 0 <= t < year_10000.

(** Digits and lower-case letters only. *)
Fixpoint plain (s : string) : bool :=
  match s with
  | EmptyString => true
  | String c rest => (is_digit c || is_lower c) && plain rest
  end.

End Calendar.

Module Notions.

Fixpoint count_hash (s : string) : nat :=
  match s with
  | EmptyString => 0
  | String c rest =>
      if Ascii.eqb c "#" then S (count_hash rest) else count_hash rest
  end.

(** Nothing but the white space [trim] removes. *)
Fixpoint all_space (s : string) : bool :=
  match s with
  | EmptyString => true
  | String c rest => is_space c && all_space rest
  end.

(** What the callback of [toBlob] settles the promise with. *)
Definition encoding (m : Media) : result Blob :=
  match encoded m with
  | Some blob => Fulfilled blob
  | None => Rejected "Failed to create thumbnail blob"
  end.

(** The outcome the first task that settles the promise leads to.
    [drawn] says that a frame was handed to the encoder and that its
    callback has not run yet. *)
Fixpoint decided_by (m : Media) (drawn : bool) (tasks : list VideoEvent)
  : option (result Blob) :=
  match tasks with
  | [] => if drawn then Some (encoding m) else None
  | loadeddata :: rest => decided_by m drawn rest
  | error :: _ => Some (Rejected "Failed to load video")
  | seeked :: rest =>
      if context2d m then decided_by m true rest
      else Some (Rejected "Failed to get canvas context")
  | blob_ready :: rest =>
      if drawn then Some (encoding m) else decided_by m false rest
  end.

(** How often the tasks release the object URL: once for every [error]
    and once for every frame handed to the encoder. *)
Fixpoint releases (m : Media) (tasks : list VideoEvent) : nat :=
  match tasks with
  | [] => 0
  | error :: rest => S (releases m rest)
  | seeked :: rest =>
      if context2d m then S (releases m rest) else releases m rest
  | _ :: rest => releases m rest
  end.

(** The task neither draws a frame nor settles the promise. *)
Definition idle (e : VideoEvent) : Prop := e = loadeddata \/ e = blob_ready.

(** The task does not end the wait for an encoded frame. *)
Definition early (e : VideoEvent) : Prop := e = loadeddata \/ e = seeked.

(** The parts of the state the video handlers have no business with. *)
Definition same_draft (st st' : ComposerState) : Prop :=
  draft st' = draft st /\ images st' = images st /\
  selectedGif st' = selectedGif st /\ isLoading st' = isLoading st /\
  uploadProgress st' = uploadProgress st.

Definition no_header (h : option string) : Prop := truthy_opt h = false.

(** The text is empty or begins with white space. *)
Definition edge_space (s : string) : bool :=
  match s with
  | EmptyString => true
  | String c _ => is_space c
  end.

(** A line of a reply as a JSON encoder writes it: not empty, no
    newline inside, no white space at either end. *)
Definition clean_line (line : string) : Prop :=
  Spec.contains "010" line = false /\ edge_space line = false /\
  edge_space (rev line) = false.

Definition is_object_url (e : Event) : bool :=
  match e with
  | createObjectURL _ | revokeObjectURL _ => true
  | _ => false
  end.


End Notions.

Module Feed.

Import RightSideBar.

Definition reply : Discussion :=
  {| author := "carol"; permlink := "re-hello"; parent_author := "alice" |}.
Definition post1 : Discussion :=
  {| author := "alice"; permlink := "hello"; parent_author := "" |}.
Definition post2 : Discussion :=
  {| author := "mallory"; permlink := "spam"; parent_author := "" |}.

Definition page : list Discussion := [post1; reply; post2].

Definition host (answer : result (list Discussion)) : Host :=
  {| NEXT_PUBLIC_HIVE_SEARCH_TAG := Some "hive-178315";
     findPosts := fun _ _ => answer |}.

(** Successive fetches, each against what the host answers then. *)
Definition fetch_all (hosts : list Host) (st : State) : State :=
  fold_left (fun s h => fst (fetchPosts h s)) hosts st.

Definition start (muted : list string) : State :=
  {| query := "created"; allPosts := []; isLoading := false;
     isFetching := false; mutedAccounts := muted;
     params := initial_params (host (Fulfilled [])) |}.

End Feed.

Module Runs.




(** A video is selected and still uploading. *)
Definition uploading : ComposerState :=
  setVideoUploadProgress 40
    (setSelectedVideo (Some Scenario.clip) (setDraft "first!" Scenario.empty)).

Definition ctrl_enter : ComposerUI.KeyboardEvent :=
  {| ComposerUI.ctrlKey := true; ComposerUI.key := "Enter" |}.

(** The upload completes but the host never sends the embed header. *)
Definition no_header : World :=
  {| NEXT_PUBLIC_3SPEAK_API_KEY := Some "k3y";
     NEXT_PUBLIC_HIVE_COMMUNITY_TAG := Some "hive-178315";
     Date_now := 1700000000123%Z;
     URL_searchParams_get := Scenario.searchParams_get;
     JSON_parse := Scenario.parse;
     media := media Scenario.calm;
     getFileSignature := getFileSignature Scenario.calm;
     uploadImage := uploadImage Scenario.calm;
     fetch := fetch Scenario.calm;
     tus_run := fun _ => {| progress := [100]%Z;
                            embed_headers := [None; Some ""];
                            tus_error := None |};
     getLastSnapsContainer := getLastSnapsContainer Scenario.calm;
     ledger := ledger Scenario.calm |}.

(** The calm world with another behaviour of the video element. *)
Definition with_media (m : Media) : World :=
  {| NEXT_PUBLIC_3SPEAK_API_KEY := Some "k3y";
     NEXT_PUBLIC_HIVE_COMMUNITY_TAG := Some "hive-178315";
     Date_now := 1700000000123%Z;
     URL_searchParams_get := Scenario.searchParams_get;
     JSON_parse := Scenario.parse;
     media := fun _ => m;
     getFileSignature := getFileSignature Scenario.calm;
     uploadImage := uploadImage Scenario.calm;
     fetch := fetch Scenario.calm;
     tus_run := tus_run Scenario.calm;
     getLastSnapsContainer := getLastSnapsContainer Scenario.calm;
     ledger := ledger Scenario.calm |}.

Definition broken_video : Media :=
  {| dispatched := [loadeddata; error; seeked]; context2d := true;
     encoded := Some 9 |}.

(** The video breaks after a frame was handed to the encoder and
    before the encoder calls back. *)
Definition late_error : Media :=
  {| dispatched := [loadeddata; seeked; error]; context2d := true;
     encoded := Some 9 |}.

(** The video breaks after the encoder has called back. *)
Definition error_after_blob : Media :=
  {| dispatched := [loadeddata; seeked; blob_ready; error]; context2d := true;
     encoded := Some 9 |}.

(** The calm world with another reply of the content-addressed store
    and another reading of its last line. *)
Definition with_reply (reply : string) (parsed : option JSValue) : World :=
  {| NEXT_PUBLIC_3SPEAK_API_KEY := Some "k3y";
     NEXT_PUBLIC_HIVE_COMMUNITY_TAG := Some "hive-178315";
     Date_now := 1700000000123%Z;
     URL_searchParams_get := Scenario.searchParams_get;
     JSON_parse := fun _ => parsed;
     media := media Scenario.calm;
     getFileSignature := getFileSignature Scenario.calm;
     uploadImage := uploadImage Scenario.calm;
     fetch := fun _ => Fulfilled (Scenario.reply_ok reply);
     tus_run := tus_run Scenario.calm;
     getLastSnapsContainer := getLastSnapsContainer Scenario.calm;
     ledger := ledger Scenario.calm |}.

(** The first line of the sample reply. *)
Definition progress_line : string :=
  "{" +++ Scenario.quote +++ "Bytes" +++ Scenario.quote +++ ":512}".

End Runs.

(* ================================================================== *)
(** * Properties *)

Example iso_samples :
  JsDate.toISOString 0%Z = "1970-01-01T00:00:00.000Z" /\
  JsDate.toISOString (-1)%Z = "1969-12-31T23:59:59.999Z" /\
  JsDate.toISOString 951782400000%Z = "2000-02-29T00:00:00.000Z" /\
  JsDate.toISOString 1000000000000%Z = "2001-09-09T01:46:40.000Z" /\
  JsDate.toISOString 1700000000000%Z = "2023-11-14T22:13:20.000Z" /\
  JsDate.toISOString 253402300799999%Z = "9999-12-31T23:59:59.999Z" /\
  JsDate.toISOString 253402300800000%Z = "+010000-01-01T00:00:00.000Z" /\
  JsDate.toISOString (-62167219200001)%Z = "-000001-12-31T23:59:59.999Z" /\
  JsDate.toISOString 4107542400000%Z = "2100-03-01T00:00:00.000Z" /\
  JsDate.permlink_of 1700000000123%Z = "20231114t221320123z".
Proof. repeat split; vm_compute; reflexivity. Qed.

Example hashtags_sample :
  Tags.extractHashtags "hello #world #World #snap" = ["world"; "World"; "snap"].
Proof. reflexivity. Qed.

(* ================================================================== *)
(** ** Facts about strings *)

Module StringFacts.

Lemma append_nil_r (s : string) : s +++ "" = s.
Proof. induction s as [|c s IH]; simpl; [reflexivity | now rewrite IH]. Qed.

Lemma append_assoc (a b c : string) : (a +++ b) +++ c = a +++ b +++ c.
Proof. induction a as [|x a IH]; simpl; [reflexivity | now rewrite IH]. Qed.

Lemma length_append (a b : string) :
  String.length (a +++ b) = String.length a + String.length b.
Proof. induction a as [|x a IH]; simpl; [reflexivity | now rewrite IH]. Qed.

Lemma keep_append p (a b : string) : keep p (a +++ b) = keep p a +++ keep p b.
Proof.
  induction a as [|x a IH]; simpl; [reflexivity |].
  destruct (p x); simpl; now rewrite IH.
Qed.

Lemma toLowerCase_append (a b : string) :
  toLowerCase (a +++ b) = toLowerCase a +++ toLowerCase b.
Proof. induction a as [|x a IH]; simpl; [reflexivity | now rewrite IH]. Qed.

(** Two concatenations with tails of equal length agree on the tails. *)
Lemma append_same_tail (a b c d : string) :
  a +++ b = c +++ d -> String.length b = String.length d -> a = c /\ b = d.
Proof.
  revert c. induction a as [|x a IH]; intros c Heq Hlen.
  - destruct c as [|y c]; simpl in Heq; [now split |].
    apply (f_equal String.length) in Heq. simpl in Heq.
    rewrite length_append in Heq. lia.
  - destruct c as [|y c]; simpl in Heq.
    + apply (f_equal String.length) in Heq. simpl in Heq.
      rewrite length_append in Heq. lia.
    + injection Heq as Hxy Hrest. subst y.
      destruct (IH c Hrest Hlen) as [-> ->]. now split.
Qed.

Lemma ends_with_refl s : Spec.ends_with s s.
Proof. now exists "". Qed.

Lemma ends_with_append a b suffix :
  Spec.ends_with b suffix -> Spec.ends_with (a +++ b) suffix.
Proof.
  intros [front ->]. exists (a +++ front). now rewrite append_assoc.
Qed.

End StringFacts.

(* ================================================================== *)
(** ** The permlink *)

Module PermlinkFacts.

Import JsDate StringFacts.
Local Open Scope Z_scope.

Lemma digit_cases d :
  exists k, (k < 10)%nat /\ digit d = ascii_of_nat (48 + k) /\
            Z.of_nat k = d mod 10.
Proof.
  exists (Z.to_nat (d mod 10)).
  pose proof (Z.mod_pos_bound d 10 eq_refl) as Hb.
  repeat split; [lia | lia].
Qed.

Lemma digit_plain d :
  is_alnum (digit d) = true /\ lower_char (digit d) = digit d.
Proof.
  destruct (digit_cases d) as (k & Hk & -> & _).
  do 10 (destruct k as [|k]; [split; vm_compute; reflexivity |]). lia.
Qed.

Lemma digit_inj a b : digit a = digit b -> a mod 10 = b mod 10.
Proof.
  destruct (digit_cases a) as (k & Hk & -> & <-).
  destruct (digit_cases b) as (j & Hj & -> & <-).
  intros H. apply (f_equal nat_of_ascii) in H.
  rewrite !nat_ascii_embedding in H by lia. lia.
Qed.

Lemma pad_length w n : String.length (pad w n) = w.
Proof.
  revert n. induction w as [|w IH]; intros n; cbn [pad]; [reflexivity |].
  rewrite length_append, IH. cbn [String.length]. lia.
Qed.

Lemma pad_plain w n :
  keep is_alnum (pad w n) = pad w n /\ toLowerCase (pad w n) = pad w n.
Proof.
  revert n. induction w as [|w IH]; intros n; cbn [pad]; [now split |].
  destruct (IH (n / 10)) as [Hk Hl]. destruct (digit_plain n) as [Ha Hc].
  rewrite keep_append, toLowerCase_append, Hk, Hl.
  cbn [keep toLowerCase]. rewrite Ha. cbn [toLowerCase]. rewrite Hc.
  now split.
Qed.

Lemma pad3_inj a b :
  0 <= a < 1000 -> 0 <= b < 1000 -> pad 3 a = pad 3 b -> a = b.
Proof.
  intros Ha Hb H. cbn [pad append] in H.
  injection H as H2 H1 H0.
  apply digit_inj in H0, H1, H2.
  Z.div_mod_to_equations. lia.
Qed.

(** The permlink ends with the three millisecond digits and a [z]. *)
Lemma permlink_tail t :
  Spec.ends_with (permlink_of t) (pad 3 (msFromTime t) +++ "z").
Proof.
  unfold permlink_of, toISOString.
  rewrite !keep_append, !toLowerCase_append.
  destruct (pad_plain 3 (msFromTime t)) as [-> ->].
  do 12 apply ends_with_append.
  replace (toLowerCase (keep is_alnum "Z")) with "z" by (vm_compute; reflexivity).
  apply ends_with_refl.
Qed.

Lemma permlink_ms t1 t2 :
  permlink_of t1 = permlink_of t2 -> t1 mod 1000 = t2 mod 1000.
Proof.
  intros H.
  destruct (permlink_tail t1) as [p1 H1], (permlink_tail t2) as [p2 H2].
  rewrite H1, H2 in H.
  apply append_same_tail in H as [_ H].
  - apply append_same_tail in H as [H _]; [| reflexivity].
    apply pad3_inj in H; [exact H | |];
      unfold msFromTime, msPerSecond; apply Z.mod_pos_bound; lia.
  - rewrite !length_append, !pad_length. reflexivity.
Qed.

End PermlinkFacts.

(* ================================================================== *)
(** ** What [handleComment] submits *)

Module SubmitFacts.

Import Composer Video.

Lemma upload_from_log w index imgs e :
  In e (snd (upload_from w index imgs)) ->
  Spec.is_signature e || Spec.is_signed_upload e = true.
Proof.
  revert index. induction imgs as [|image rest IH]; intros index; simpl.
  - intros [].
  - destruct (upload_one w index image) as [r ev] eqn:Hone.
    destruct (upload_from w (S index) rest) as [rs evs] eqn:Hrest.
    simpl. intros Hin. apply in_app_or in Hin as [Hin | Hin].
    + unfold upload_one in Hone.
      destruct (getFileSignature w image) as [signature | reason].
      * destruct (uploadImage w image signature (Some index));
          injection Hone as _ <-;
          destruct Hin as [<- | []]; reflexivity.
      * injection Hone as _ <-. destruct Hin.
    + specialize (IH (S index)). rewrite Hrest in IH. now apply IH.
Qed.

Lemma request_signatures_log imgs e :
  In e (request_signatures imgs) -> Spec.is_signature e = true.
Proof.
  unfold request_signatures. intros H. apply in_map_iff in H as (f & <- & _).
  reflexivity.
Qed.

Lemma upload_images_log w imgs e :
  In e (snd (upload_images w imgs)) ->
  Spec.is_signature e || Spec.is_signed_upload e = true.
Proof.
  unfold upload_images.
  destruct (0 <? List.length imgs)%nat.
  - pose proof (upload_from_log w 0 imgs e) as H.
    destruct (upload_from w 0 imgs) as [settled ev].
    assert (Hall : In e (request_signatures imgs ++ ev) ->
                   Spec.is_signature e || Spec.is_signed_upload e = true).
    { intros Hin. apply in_app_or in Hin as [Hin | Hin]; [| now apply H].
      now rewrite (request_signatures_log imgs e Hin). }
    destruct (promise_all settled); exact Hall.
  - simpl. intros [].
Qed.

Lemma respond_log w st user permlink commentBody submission e :
  In e (snd (respond w st user permlink commentBody submission)) ->
  Spec.is_alert e || Spec.is_notification e = true \/ e = onClose.
Proof.
  unfold respond.
  destruct (ledger w submission) as [[|] | reason]; simpl;
    intros H; repeat destruct H as [<- | H]; try destruct H; auto.
Qed.

Lemma resolve_container_log w pp e :
  In e (snd (resolve_container w pp)) -> e = call_getLastSnapsContainer.
Proof.
  unfold resolve_container. destruct (String.eqb pp Tags.reserved_tag); simpl.
  - intros [<- | []]. reflexivity.
  - intros [].
Qed.

(** A run that submits anything got past both guards, uploaded its
    images, resolved its container, and submitted once. *)
Lemma handleComment_submits w props st s :
  In (submit s) (snd (handleComment w props st)) ->
  exists validUrls pp',
    truthy_opt (user props) = true /\
    nothing_to_post st = false /\
    fst (upload_images w (images st)) = Fulfilled validUrls /\
    fst (resolve_container w (pp props)) = Fulfilled pp' /\
    truthy (compose st validUrls) = true /\
    s = Spec.the_submission w props st validUrls pp' /\
    let st1 := setUploadProgress [] (setIsLoading true st) in
    let answer := respond w st1 (or_empty (user props))
                    (JsDate.permlink_of (Date_now w))
                    (compose st validUrls) s in
    handleComment w props st =
      (Returned, finally (fst answer),
       snd (upload_images w (images st))
         ++ snd (resolve_container w (pp props))
         ++ submit s :: snd answer).
Proof.
  unfold handleComment.
  destruct (truthy_opt (user props)) eqn:Huser; simpl negb; cbv iota.
  2:{ simpl. intros [H | []]. discriminate H. }
  destruct (nothing_to_post st) eqn:Hguard.
  { simpl. intros [H | []]. discriminate H. }
  pose proof (upload_images_log w (images st)) as Himg.
  destruct (upload_images w (images st)) as [[validUrls | reason] ev_images].
  2:{ simpl. intros Hin. apply Himg in Hin. discriminate Hin. }
  unfold publish.
  destruct (truthy (compose st validUrls)) eqn:Hbody.
  2:{ simpl. rewrite app_nil_r. intros Hin. apply Himg in Hin.
      discriminate Hin. }
  pose proof (resolve_container_log w (pp props)) as Hlook.
  destruct (resolve_container w (pp props)) as [[pp' | reason] lookup].
  2:{ simpl. intros Hin.
      apply in_app_or in Hin as [Hin | Hin];
        [apply Himg in Hin; discriminate Hin |].
      apply in_app_or in Hin as [Hin | [Hin | []]];
        [apply Hlook in Hin |]; discriminate Hin. }
  fold (Tags.buildTags (NEXT_PUBLIC_HIVE_COMMUNITY_TAG w) (pp props)
          (compose st validUrls)).
  fold (Spec.the_submission w props st validUrls pp').
  set (sub := Spec.the_submission w props st validUrls pp').
  pose proof (respond_log w (setUploadProgress [] (setIsLoading true st))
                (or_empty (user props)) (JsDate.permlink_of (Date_now w))
                (compose st validUrls) sub) as Hresp.
  destruct (respond w (setUploadProgress [] (setIsLoading true st))
              (or_empty (user props)) (JsDate.permlink_of (Date_now w))
              (compose st validUrls) sub) as [st' after] eqn:Hanswer.
  simpl. intros Hin.
  assert (s = sub) as ->.
  { apply in_app_or in Hin as [Hin | Hin];
      [apply Himg in Hin; discriminate Hin |].
    apply in_app_or in Hin as [Hin | [Hin | Hin]].
    - apply Hlook in Hin. discriminate Hin.
    - now injection Hin.
    - apply Hresp in Hin as [Hin | Hin]; discriminate Hin. }
  exists validUrls, pp'. rewrite Hanswer. simpl. repeat split; auto.
Qed.

End SubmitFacts.

(* ================================================================== *)
(** ** The shape of the ledger write *)

Module PublishFacts.

Import Composer Video SubmitFacts.

Lemma submissions_app l1 l2 :
  submissions (l1 ++ l2) = submissions l1 ++ submissions l2.
Proof.
  induction l1 as [|e l1 IH]; simpl; [reflexivity |].
  destruct e; simpl; now rewrite ?IH.
Qed.

Lemma submissions_none l :
  (forall s, ~ In (submit s) l) -> submissions l = [].
Proof.
  induction l as [|e l IH]; intros H; simpl; [reflexivity |].
  destruct e; try (apply IH; intros s Hs; apply (H s); now right).
  exfalso. apply (H s). now left.
Qed.

Lemma handleComment_submits_once w props st s :
  In (submit s) (snd (handleComment w props st)) ->
  submissions (snd (handleComment w props st)) = [s].
Proof.
  intros Hin.
  destruct (handleComment_submits w props st s Hin)
    as (validUrls & pp' & _ & _ & _ & _ & _ & _ & Hrun).
  cbv zeta in Hrun. rewrite Hrun. cbn [snd].
  rewrite !submissions_app. cbn [submissions].
  rewrite (submissions_none (snd (upload_images w (images st)))).
  2:{ intros s' Hs'. apply upload_images_log in Hs'. discriminate Hs'. }
  rewrite (submissions_none (snd (resolve_container w (pp props)))).
  2:{ intros s' Hs'. apply resolve_container_log in Hs'. discriminate Hs'. }
  rewrite submissions_none; [reflexivity |].
  intros s' Hs'. apply respond_log in Hs' as [Hs' | Hs']; discriminate Hs'.
Qed.

End PublishFacts.

(** C1: a run of [handleComment] that writes to the ledger writes once.
    With a video embed reference present the write is exactly a
    [comment] operation followed by a [comment_options] operation whose
    single extension lists the single beneficiary [snapie] with weight
    1000, with [max_accepted_payout] set, [percent_hbd] 10000 and votes
    and curation rewards allowed; without one it is exactly one
    [comment] operation, and nothing that carries a beneficiary. *)
Theorem C1_ledger_write_shape (w : World) (props : Props) (st : ComposerState)
  (s : Submission) :
  In (submit s) (snd (Composer.handleComment w props st)) ->
  let me := or_empty (user props) in
  let ops := Composer.ledger_operations me s in
  Composer.submissions (snd (Composer.handleComment w props st)) = [s] /\
  (truthy_opt (videoEmbedUrl st) = true ->
   exists c,
     ops = [comment c;
            comment_options
              {| opt_author := me; opt_permlink := permlink c;
                 max_accepted_payout := "1000000.000 HBD";
                 percent_hbd := 10000;
                 allow_votes := true;
                 allow_curation_rewards := true;
                 extensions :=
                   [ {| ext_id := 0;
                        beneficiaries :=
                          [ {| account := "snapie"; weight := 1000 |} ] |} ] |}]
     /\ author c = me) /\
  (truthy_opt (videoEmbedUrl st) = false ->
   exists c, ops = [comment c] /\ author c = me).
Proof.
  intros Hin me ops. split.
  - now apply PublishFacts.handleComment_submits_once.
  - destruct (SubmitFacts.handleComment_submits w props st s Hin)
      as (validUrls & pp' & _ & _ & _ & _ & _ & Hs & _).
    subst ops s. unfold Spec.the_submission, Composer.build_submission.
    split; intros Hvideo; rewrite Hvideo; cbn [Composer.ledger_operations];
      unfold Composer.commentOp, Composer.optionsOp;
      match goal with
      | |- exists c, comment ?x :: _ = _ /\ _ => exists x
      end; cbn [permlink author]; split; reflexivity.
Qed.

Lemma C1_ledger_write_shape_witness :
  let run := Composer.handleComment Scenario.calm Scenario.reply_to
               Scenario.with_video in
  let s := Spec.the_submission Scenario.calm Scenario.reply_to
             Scenario.with_video [] "re-post" in
  In (submit s) (snd run) /\ Composer.submissions (snd run) = [s].
Proof.
  intros run s.
  assert (Hin : In (submit s) (snd run)) by (vm_compute; left; reflexivity).
  split; [exact Hin |].
  exact (proj1 (C1_ledger_write_shape Scenario.calm Scenario.reply_to
                  Scenario.with_video s Hin)).
Defined.

(** C2, as the code has it: the permlink of a submission is the ISO
    rendering of the submit-time timestamp, which carries milliseconds,
    with every non-alphanumeric character removed and lower-cased.  Two
    submissions one millisecond apart have different permlinks, and two
    submissions within the same second have the same permlink exactly
    when they have the same millisecond timestamp. *)
Theorem C2_permlink_millisecond_resolution :
  (forall w props st s,
      In (submit s) (snd (Composer.handleComment w props st)) ->
      Spec.submitted_permlink s
      = toLowerCase (keep is_alnum (JsDate.toISOString (Date_now w)))) /\
  (forall t, JsDate.permlink_of t <> JsDate.permlink_of (t + 1)%Z) /\
  (forall t1 t2,
      Spec.same_second t1 t2 ->
      (JsDate.permlink_of t1 = JsDate.permlink_of t2 <-> t1 = t2)).
Proof.
  split; [| split].
  - intros w props st s Hin.
    destruct (SubmitFacts.handleComment_submits w props st s Hin)
      as (validUrls & pp' & _ & _ & _ & _ & _ & -> & _).
    unfold Spec.submitted_permlink, Spec.submitted_comment,
      Spec.the_submission, Composer.build_submission.
    destruct (truthy_opt (videoEmbedUrl st)); reflexivity.
  - intros t H. apply PermlinkFacts.permlink_ms in H.
    revert H. Z.div_mod_to_equations. lia.
  - intros t1 t2 Hsec. split; [| now intros ->].
    intros H. apply PermlinkFacts.permlink_ms in H.
    unfold Spec.same_second in Hsec.
    rewrite (Z.div_mod t1 1000), (Z.div_mod t2 1000) by lia.
    now rewrite Hsec, H.
Qed.

Lemma C2_permlink_millisecond_resolution_witness :
  let run := Composer.handleComment Scenario.calm Scenario.reply_to
               Scenario.with_video in
  let s := Spec.the_submission Scenario.calm Scenario.reply_to
             Scenario.with_video [] "re-post" in
  In (submit s) (snd run) /\
  Spec.submitted_permlink s = "20231114t221320123z" /\
  Spec.same_second 1700000000123%Z 1700000000124%Z /\
  (JsDate.permlink_of 1700000000123%Z = JsDate.permlink_of 1700000000124%Z
   <-> 1700000000123%Z = 1700000000124%Z).
Proof.
  intros run s.
  assert (Hin : In (submit s) (snd run)) by (vm_compute; left; reflexivity).
  assert (Hsec : Spec.same_second 1700000000123%Z 1700000000124%Z)
    by (vm_compute; reflexivity).
  destruct C2_permlink_millisecond_resolution as (Hlink & _ & Hsame).
  split; [exact Hin |]. split; [| split; [exact Hsec |]].
  - rewrite (Hlink Scenario.calm Scenario.reply_to Scenario.with_video s Hin).
    vm_compute. reflexivity.
  - exact (Hsame _ _ Hsec).
Defined.

(** C2 as stated fails: two submissions within the same second, half a
    second apart, get different permlinks. *)
Lemma C2_same_second_permlinks_differ :
  Spec.same_second 1700000000000%Z 1700000000500%Z /\
  JsDate.permlink_of 1700000000000%Z <> JsDate.permlink_of 1700000000500%Z.
Proof.
  split; [vm_compute; reflexivity |].
  vm_compute. intros H. discriminate H.
Qed.

(* ================================================================== *)
(** ** Hashtags and the tag set *)

Module TagFacts.

Import Tags Spec StringFacts.

Lemma take_drop p s : take_while p s +++ drop_while p s = s.
Proof.
  induction s as [|c s IH]; simpl; [reflexivity |].
  destruct (p c); simpl; [now rewrite IH | reflexivity].
Qed.

Lemma drop_while_length p s :
  String.length (drop_while p s) <= String.length s.
Proof.
  induction s as [|c s IH]; simpl; [lia |].
  destruct (p c); simpl; lia.
Qed.

Lemma take_while_all p s : forall c t,
  take_while p s = String c t -> p c = true.
Proof.
  destruct s as [|x s]; simpl; intros c t H; [discriminate |].
  destruct (p x) eqn:Hx; [| discriminate]. now injection H as <- _.
Qed.

Lemma hash_not_word c : Ascii.eqb c "#" = true -> is_word c = false.
Proof. intros H. apply Ascii.eqb_eq in H. subst c. reflexivity. Qed.

Lemma word_not_hash c : is_word c = true -> Ascii.eqb c "#" = false.
Proof.
  intros H. destruct (Ascii.eqb c "#") eqn:E; [| reflexivity].
  apply hash_not_word in E. congruence.
Qed.

(** Skipping word characters loses no tag. *)
Lemma tags_skip_word s :
  tags_by_position (drop_while is_word s) = tags_by_position s.
Proof.
  induction s as [|c s IH]; [reflexivity |].
  cbn [drop_while]. destruct (is_word c) eqn:Hc; [| reflexivity].
  rewrite IH. cbn [tags_by_position]. now rewrite (word_not_hash c Hc).
Qed.

(** The length of the text is enough fuel. *)
Lemma match_all_enough fuel s :
  String.length s <= fuel ->
  map slice1 (match_all fuel s) = tags_by_position s.
Proof.
  revert s. induction fuel as [|fuel IH]; intros s Hlen.
  - destruct s; [reflexivity | simpl in Hlen; lia].
  - destruct s as [|c t]; [reflexivity |].
    cbn [String.length] in Hlen.
    cbn [match_all tags_by_position]. unfold hash.
    destruct (Ascii.eqb c "#"); [| apply IH; lia].
    destruct (take_while is_word t) as [|x run] eqn:Hrun; [apply IH; lia |].
    cbn [map slice1]. f_equal.
    rewrite IH, tags_skip_word; [reflexivity |].
    pose proof (drop_while_length is_word t). lia.
Qed.

Lemma extractHashtags_by_position text :
  extractHashtags text = tags_by_position text.
Proof. unfold extractHashtags. now apply match_all_enough. Qed.

Lemma take_while_none s :
  starts_with_word s = false -> take_while is_word s = "".
Proof.
  destruct s as [|c s]; simpl; [reflexivity |]. now intros ->.
Qed.

Lemma take_while_none_inv s :
  take_while is_word s = "" -> starts_with_word s = false.
Proof.
  destruct s as [|c s]; simpl; [reflexivity |].
  destruct (is_word c); [discriminate | reflexivity].
Qed.

Lemma take_while_run run rest :
  all_word run = true -> starts_with_word rest = false ->
  take_while is_word (run +++ rest) = run /\
  drop_while is_word (run +++ rest) = rest.
Proof.
  intros Hrun Hrest. induction run as [|c run IH]; cbn [append].
  - split; [now apply take_while_none |].
    destruct rest as [|c rest]; [reflexivity |].
    simpl in Hrest. simpl. now rewrite Hrest.
  - simpl in Hrun. apply andb_prop in Hrun as [Hc Hrun].
    destruct (IH Hrun) as [Ht Hd]. simpl. rewrite Hc, Ht, Hd. now split.
Qed.

Lemma take_while_all_word s : all_word (take_while is_word s) = true.
Proof.
  induction s as [|c s IH]; simpl; [reflexivity |].
  destruct (is_word c) eqn:Hc; simpl; [now rewrite Hc, IH | reflexivity].
Qed.

Lemma drop_while_stops s : starts_with_word (drop_while is_word s) = false.
Proof.
  induction s as [|c s IH]; simpl; [reflexivity |].
  destruct (is_word c) eqn:Hc; simpl; [exact IH | exact Hc].
Qed.

Lemma tokens_functional text l : tokens text l -> l = tags_by_position text.
Proof.
  induction 1 as [| c rest l Hc _ IH | rest l Hrest _ IH
                  | run rest l Hne Hrun Hrest _ IH].
  - reflexivity.
  - cbn [tags_by_position].
    destruct (Ascii.eqb c "#") eqn:E; [| exact IH].
    apply Ascii.eqb_eq in E. contradiction.
  - cbn [tags_by_position]. rewrite Ascii.eqb_refl.
    now rewrite (take_while_none rest Hrest).
  - cbn [tags_by_position]. rewrite Ascii.eqb_refl.
    destruct (take_while_run run rest Hrun Hrest) as [Ht Hd].
    rewrite Ht. destruct run as [|c run]; [contradiction |].
    f_equal. rewrite <- tags_skip_word, Hd. exact IH.
Qed.

Lemma tokens_total_bounded n : forall text,
  String.length text <= n -> tokens text (tags_by_position text).
Proof.
  induction n as [|n IH]; intros text Hlen.
  - destruct text; [constructor | simpl in Hlen; lia].
  - destruct text as [|c t]; [constructor |].
    cbn [String.length] in Hlen. cbn [tags_by_position].
    destruct (Ascii.eqb c "#") eqn:E.
    + apply Ascii.eqb_eq in E. subst c.
      destruct (take_while is_word t) as [|x run] eqn:Hrun.
      * apply tokens_bare; [now apply take_while_none_inv | apply IH; lia].
      * rewrite <- (take_drop is_word t) at 1. rewrite Hrun.
        apply tokens_tag.
        -- discriminate.
        -- rewrite <- Hrun. apply take_while_all_word.
        -- apply drop_while_stops.
        -- rewrite <- (tags_skip_word t). apply IH.
           pose proof (drop_while_length is_word t). lia.
    + apply tokens_other; [| apply IH; lia].
      intros ->. discriminate E.
Qed.

Lemma tokens_iff text l : tokens text l <-> extractHashtags text = l.
Proof.
  rewrite extractHashtags_by_position. split.
  - intros H. symmetry. now apply tokens_functional.
  - intros <-. now apply (tokens_total_bounded (String.length text)).
Qed.

End TagFacts.

Module SetFacts.

Import Tags Spec.

Lemma mem_In x l : mem x l = true <-> In x l.
Proof.
  unfold mem. rewrite existsb_exists. split.
  - intros (y & Hy & E). apply String.eqb_eq in E. now subst.
  - intros H. exists x. split; [exact H | apply String.eqb_refl].
Qed.

Lemma filter_twice {A} (f g : A -> bool) l :
  filter f (filter g l) = filter (fun y => g y && f y) l.
Proof.
  induction l as [|x l IH]; simpl; [reflexivity |].
  destruct (g x); simpl; [destruct (f x) |]; now rewrite IH.
Qed.

Lemma mem_snoc y acc x : mem y (acc ++ [x]) = mem y acc || String.eqb y x.
Proof. unfold mem. rewrite existsb_app. simpl. now rewrite orb_false_r. Qed.

(** Inserting one by one into a set keeps first occurrences. *)
Lemma fold_set_add l : forall acc,
  fold_left set_add l acc
  = acc ++ filter (fun y => negb (mem y acc)) (first_occurrences l).
Proof.
  induction l as [|x l IH]; intros acc; simpl.
  - now rewrite app_nil_r.
  - unfold set_add at 2. destruct (mem x acc) eqn:E; simpl.
    + rewrite IH. f_equal. rewrite filter_twice. apply filter_ext.
      intros y. destruct (String.eqb y x) eqn:Eyx; [| reflexivity].
      apply String.eqb_eq in Eyx. subst y. now rewrite E.
    + rewrite IH, <- app_assoc. simpl. do 2 f_equal.
      rewrite filter_twice. apply filter_ext. intros y.
      rewrite mem_snoc. destruct (mem y acc), (String.eqb y x); reflexivity.
Qed.

Lemma filter_all {A} (l : list A) : filter (fun _ => true) l = l.
Proof. induction l as [|x l IH]; simpl; [reflexivity | now rewrite IH]. Qed.

Lemma unique_first_occurrences l : unique l = first_occurrences l.
Proof.
  unfold unique. rewrite fold_set_add. simpl. apply filter_all.
Qed.

Lemma first_occurrences_In x l : In x (first_occurrences l) <-> In x l.
Proof.
  induction l as [|y l IH]; simpl; [reflexivity |].
  rewrite filter_In, IH. split.
  - intros [H | [H _]]; auto.
  - intros [H | H]; [now left |].
    destruct (String.eqb x y) eqn:E.
    + apply String.eqb_eq in E. now left.
    + right. now split.
Qed.

Lemma first_occurrences_NoDup l : NoDup (first_occurrences l).
Proof.
  induction l as [|y l IH]; simpl; constructor.
  - rewrite filter_In. intros [_ H]. now rewrite String.eqb_refl in H.
  - now apply NoDup_filter.
Qed.

(** The values of a prefix keep their places; the rest follows without
    them. *)
Lemma first_occurrences_app a b :
  first_occurrences (a ++ b)
  = first_occurrences a
      ++ filter (fun y => negb (mem y a)) (first_occurrences b).
Proof.
  induction a as [|x a IH]; simpl.
  - now rewrite filter_all.
  - f_equal. rewrite IH, filter_app. f_equal.
    rewrite filter_twice. apply filter_ext. intros y.
    unfold mem. simpl. fold (mem y a).
    destruct (mem y a), (String.eqb y x); reflexivity.
Qed.

End SetFacts.

(** C6: the hashtags of a text are exactly the runs of word characters
    that directly follow a ['#'], in the order of the text and as
    written, so [world] and [World] are two tags; the tag set keeps every
    value at its first occurrence, without duplicates; in the community
    context the community tag and the reserved tag come first and the
    hashtags that are not among them follow in first-seen order; and this
    is the tag list of every submission. *)
Theorem C6_hashtags_and_tag_set :
  (forall text l, Spec.tokens text l <-> Tags.extractHashtags text = l) /\
  Tags.extractHashtags "hello #world #World #snap" = ["world"; "World"; "snap"] /\
  (forall l, Tags.unique l = Spec.first_occurrences l /\ NoDup (Tags.unique l) /\
             (forall x, In x (Tags.unique l) <-> In x l)) /\
  (forall community body,
      let seed := [or_empty community; Tags.reserved_tag] in
      Tags.buildTags community Tags.reserved_tag body
      = Spec.first_occurrences seed
          ++ filter (fun h => negb (Tags.mem h seed))
               (Spec.first_occurrences (Tags.extractHashtags body))) /\
  (forall community pp body,
      pp <> Tags.reserved_tag ->
      Tags.buildTags community pp body
      = Spec.first_occurrences (Tags.extractHashtags body)) /\
  (forall w props st s,
      In (submit s) (snd (Composer.handleComment w props st)) ->
      Spec.submitted_tags s
      = Tags.buildTags (NEXT_PUBLIC_HIVE_COMMUNITY_TAG w) (pp props)
          (Spec.submitted_body s)).
Proof.
  split; [exact TagFacts.tokens_iff |].
  split; [reflexivity |].
  split; [| split; [| split]].
  - intros l. rewrite SetFacts.unique_first_occurrences.
    split; [reflexivity |]. split.
    + apply SetFacts.first_occurrences_NoDup.
    + intros x. apply SetFacts.first_occurrences_In.
  - intros community body seed. unfold Tags.buildTags, Tags.seedTags.
    rewrite String.eqb_refl, SetFacts.unique_first_occurrences.
    apply SetFacts.first_occurrences_app.
  - intros community pp body Hpp. unfold Tags.buildTags, Tags.seedTags.
    apply String.eqb_neq in Hpp. rewrite Hpp. simpl.
    apply SetFacts.unique_first_occurrences.
  - intros w props st s Hin.
    destruct (SubmitFacts.handleComment_submits w props st s Hin)
      as (validUrls & pp' & _ & _ & _ & _ & _ & -> & _).
    unfold Spec.submitted_tags, Spec.submitted_body, Spec.submitted_comment,
      Spec.the_submission, Composer.build_submission.
    destruct (truthy_opt (videoEmbedUrl st)); reflexivity.
Qed.

Lemma C6_hashtags_and_tag_set_witness :
  let run := Composer.handleComment Scenario.calm Scenario.to_snaps
               Scenario.with_photos in
  let s := Spec.the_submission Scenario.calm Scenario.to_snaps
             Scenario.with_photos
             ["https://images.hive.blog/a.png"; "https://images.hive.blog/b.png"]
             "snap-container-1700000000" in
  In (submit s) (snd run) /\
  Spec.submitted_tags s = ["hive-178315"; "snaps"; "photos"] /\
  Spec.tokens "hello #world #World #snap" ["world"; "World"; "snap"] /\
  "re-post" <> Tags.reserved_tag /\
  Tags.buildTags None "re-post" "#a #b #a" = ["a"; "b"].
Proof.
  intros run s.
  assert (Hin : In (submit s) (snd run))
    by (vm_compute; do 5 right; left; reflexivity).
  assert (Hpp : "re-post" <> Tags.reserved_tag) by discriminate.
  destruct C6_hashtags_and_tag_set as (Htok & _ & _ & _ & Hplain & Hsub).
  split; [exact Hin |]. split; [| split; [| split; [exact Hpp |]]].
  - rewrite (Hsub _ _ _ s Hin). vm_compute. reflexivity.
  - apply Htok. reflexivity.
  - rewrite (Hplain None "re-post" "#a #b #a" Hpp). vm_compute. reflexivity.
Defined.

(* ================================================================== *)
(** ** The body *)

Module BodyFacts.

Import Composer Spec StringFacts.

Lemma compose_paragraphs st urls :
  compose st urls
  = draft st +++ video_paragraph (videoEmbedUrl st)
      +++ images_paragraph urls +++ gif_paragraph (selectedGif st).
Proof.
  unfold compose, add_gif, add_images, add_video, video_paragraph,
    images_paragraph, gif_paragraph, image_lines.
  destruct (truthy_opt (videoEmbedUrl st)), urls as [|u urls],
    (selectedGif st) as [gif|];
    cbn [List.length Nat.ltb Nat.leb];
    rewrite ?append_assoc; cbn [append]; rewrite ?append_nil_r;
    reflexivity.
Qed.

Lemma upload_from_fulfilled w imgs : forall index uploaded,
  promise_all (fst (upload_from w index imgs)) = Fulfilled uploaded ->
  non_null uploaded = uploaded_urls w index imgs.
Proof.
  induction imgs as [|image rest IH]; intros index uploaded; simpl.
  - intros H. injection H as <-. reflexivity.
  - specialize (IH (S index)).
    unfold upload_one.
    destruct (upload_from w (S index) rest) as [rs evs].
    destruct (getFileSignature w image) as [signature | reason];
      [| discriminate].
    destruct (uploadImage w image signature (Some index)) as [u | reason];
      simpl in *;
      (destruct (promise_all rs) as [vs | reason']; [| discriminate]);
      intros H; injection H as <-; simpl; now rewrite (IH vs eq_refl).
Qed.

Lemma upload_images_fulfilled w imgs validUrls :
  fst (upload_images w imgs) = Fulfilled validUrls ->
  validUrls = uploaded_urls w 0 imgs.
Proof.
  unfold upload_images.
  destruct (0 <? List.length imgs)%nat eqn:E.
  - pose proof (upload_from_fulfilled w imgs 0) as H.
    destruct (upload_from w 0 imgs) as [settled ev]. simpl in H.
    destruct (promise_all settled) as [uploaded | reason]; simpl;
      [| discriminate].
    intros Hv. injection Hv as <-. now apply H.
  - destruct imgs; [| discriminate E]. simpl. intros H. now injection H.
Qed.

Lemma upload_from_signed w imgs : forall index,
  Forall (signed w) imgs ->
  exists uploaded,
    promise_all (fst (upload_from w index imgs)) = Fulfilled uploaded.
Proof.
  induction imgs as [|image rest IH]; intros index Hs; simpl.
  - now exists [].
  - inversion Hs as [|? ? [signature Hsig] Hrest]; subst.
    destruct (IH (S index) Hrest) as [vs Hvs].
    unfold upload_one. rewrite Hsig.
    destruct (upload_from w (S index) rest) as [rs evs]. simpl in Hvs.
    destruct (uploadImage w image signature (Some index)); simpl;
      rewrite Hvs; eexists; reflexivity.
Qed.

Lemma upload_images_signed w imgs :
  Forall (signed w) imgs ->
  fst (upload_images w imgs) = Fulfilled (uploaded_urls w 0 imgs).
Proof.
  intros Hs.
  assert (exists v, fst (upload_images w imgs) = Fulfilled v) as [v Hv].
  { unfold upload_images. destruct (0 <? List.length imgs)%nat.
    - destruct (upload_from_signed w imgs 0 Hs) as [uploaded H].
      destruct (upload_from w 0 imgs) as [settled ev]. simpl in H.
      rewrite H. eexists. reflexivity.
    - eexists. reflexivity. }
  rewrite Hv. f_equal. now apply upload_images_fulfilled.
Qed.

(** Every signed image is handed to the uploader, whatever happens to
    the others. *)
Lemma upload_from_attempts w imgs : forall index i image,
  nth_error imgs i = Some image -> signed w image ->
  In (call_uploadImage image (Some (index + i)))
     (snd (upload_from w index imgs)).
Proof.
  induction imgs as [|x rest IH]; intros index i image Hnth Hs.
  - destruct i; discriminate Hnth.
  - simpl. specialize (IH (S index)).
    destruct (upload_one w index x) as [r ev] eqn:Hone.
    destruct (upload_from w (S index) rest) as [rs evs].
    cbn [snd] in *. apply in_or_app.
    destruct i as [|i]; simpl in Hnth.
    + injection Hnth as ->. destruct Hs as [signature Hsig].
      unfold upload_one in Hone. rewrite Hsig in Hone.
      rewrite Nat.add_0_r. left.
      destruct (uploadImage w image signature (Some index));
        injection Hone as _ <-; now left.
    + right. replace (index + S i) with (S index + i) by lia.
      now apply IH.
Qed.

Lemma upload_from_uploads w imgs : forall index,
  Forall (fun e => is_signed_upload e = true) (snd (upload_from w index imgs)).
Proof.
  induction imgs as [|x rest IH]; intros index; simpl; [constructor |].
  specialize (IH (S index)).
  destruct (upload_one w index x) as [r ev] eqn:Hone.
  destruct (upload_from w (S index) rest) as [rs evs].
  cbn [snd] in *. apply Forall_app. split; [| exact IH].
  unfold upload_one in Hone.
  destruct (getFileSignature w x) as [signature | reason].
  - destruct (uploadImage w x signature (Some index));
      injection Hone as _ <-; now repeat constructor.
  - injection Hone as _ <-. constructor.
Qed.

(** The log of the uploads: the signature requests of all the images,
    then the uploads. *)
Lemma upload_images_events w imgs :
  snd (upload_images w imgs)
  = request_signatures imgs
      ++ (if (0 <? List.length imgs)%nat then snd (upload_from w 0 imgs)
          else []).
Proof.
  unfold upload_images. destruct imgs as [|x rest]; [reflexivity |].
  cbn [List.length Nat.ltb Nat.leb].
  destruct (upload_from w 0 (x :: rest)) as [settled ev].
  destruct (promise_all settled); reflexivity.
Qed.

Lemma upload_images_started w imgs :
  exists uploads,
    snd (upload_images w imgs) = map call_getFileSignature imgs ++ uploads /\
    Forall (fun e => is_signed_upload e = true) uploads.
Proof.
  rewrite upload_images_events. eexists. split; [reflexivity |].
  destruct (0 <? List.length imgs)%nat; [apply upload_from_uploads | constructor].
Qed.

Lemma upload_images_attempts w imgs i image :
  nth_error imgs i = Some image -> signed w image ->
  In (call_uploadImage image (Some i)) (snd (upload_images w imgs)).
Proof.
  intros Hnth Hs. rewrite upload_images_events. apply in_or_app. right.
  destruct imgs as [|x rest]; [destruct i; discriminate Hnth |].
  cbn [List.length Nat.ltb Nat.leb].
  exact (upload_from_attempts w (x :: rest) 0 i image Hnth Hs).
Qed.

Lemma all_uploaded_urls w imgs : forall index urls,
  all_uploaded w index imgs urls -> uploaded_urls w index imgs = urls.
Proof.
  unfold all_uploaded.
  induction imgs as [|image rest IH]; intros index urls H; simpl in *.
  - now inversion H.
  - inversion H as [|? u ? urls' Hhead Hrest]; subst.
    cbn in Hhead. destruct Hhead as (signature & Hsig & Hup).
    rewrite Hsig, Hup. f_equal. now apply IH.
Qed.

Lemma all_uploaded_signed w imgs : forall index urls,
  all_uploaded w index imgs urls -> Forall (signed w) imgs.
Proof.
  unfold all_uploaded.
  induction imgs as [|image rest IH]; intros index urls H; simpl in *.
  - constructor.
  - inversion H as [|? u ? urls' Hhead Hrest]; subst.
    cbn in Hhead. destruct Hhead as (signature & Hsig & Hup).
    constructor; [now exists signature | now apply (IH (S index) urls')].
Qed.

Lemma all_uploaded_length w imgs index urls :
  all_uploaded w index imgs urls -> List.length urls = List.length imgs.
Proof.
  intros H. apply Forall2_length in H.
  rewrite length_combine, length_seq, Nat.min_id in H. now symmetry.
Qed.

Lemma uploaded_urls_In w imgs u : forall index,
  In u (uploaded_urls w index imgs) <->
  exists i image signature,
    nth_error imgs i = Some image /\
    getFileSignature w image = Fulfilled signature /\
    uploadImage w image signature (Some (index + i)) = Fulfilled u.
Proof.
  induction imgs as [|x rest IH]; intros index; simpl.
  - split; [intros [] | intros ([|i] & image & sg & H & _); discriminate H].
  - assert (Hshift :
      In u (uploaded_urls w (S index) rest) <->
      exists i image signature,
        nth_error (x :: rest) (S i) = Some image /\
        getFileSignature w image = Fulfilled signature /\
        uploadImage w image signature (Some (index + S i)) = Fulfilled u).
    { rewrite IH. split; intros (i & image & sg & H1 & H2 & H3);
        exists i, image, sg; repeat split; auto;
        [replace (index + S i) with (S index + i) by lia
        | replace (S index + i) with (index + S i) by lia]; exact H3. }
    assert (Hhere : forall sg r,
      getFileSignature w x = sg ->
      (match sg with
       | Fulfilled signature => uploadImage w x signature (Some index)
       | Rejected reason => Rejected reason
       end) = r ->
      (exists i image signature,
          nth_error (x :: rest) i = Some image /\
          getFileSignature w image = Fulfilled signature /\
          uploadImage w image signature (Some (index + i)) = Fulfilled u)
      <-> (r = Fulfilled u \/
           exists i image signature,
             nth_error (x :: rest) (S i) = Some image /\
             getFileSignature w image = Fulfilled signature /\
             uploadImage w image signature (Some (index + S i))
             = Fulfilled u)).
    { intros sg r Hsg Hr. split.
      - intros ([|i] & image & signature & H1 & H2 & H3).
        + left. simpl in H1. injection H1 as <-. subst sg r.
          rewrite H2. now rewrite Nat.add_0_r in H3.
        + right. now exists i, image, signature.
      - intros [H | (i & image & signature & H)].
        + subst r. destruct sg as [signature | reason]; [| discriminate H].
          exists 0, x, signature. rewrite Nat.add_0_r. now repeat split.
        + now exists (S i), image, signature. }
    rewrite (Hhere _ _ eq_refl eq_refl), <- Hshift.
    destruct (getFileSignature w x) as [signature | reason].
    + destruct (uploadImage w x signature (Some index)) as [u' | reason];
        simpl; split.
      * intros [-> | H]; auto.
      * intros [H | H]; [injection H as ->; now left | now right].
      * now right.
      * intros [H | H]; [discriminate H | exact H].
    + split; [now right | intros [H | H]; [discriminate H | exact H]].
Qed.

Lemma contains_append sep a b :
  contains sep (a +++ b) = contains sep a || contains sep b.
Proof.
  induction a as [|c a IH]; simpl; [reflexivity |].
  now rewrite IH, orb_assoc.
Qed.

Lemma split_plain sep s : contains sep s = false -> split sep s = [s].
Proof.
  induction s as [|c s IH]; simpl; [reflexivity |].
  intros H. apply orb_false_elim in H as [Hc Hs].
  rewrite Hc, (IH Hs). reflexivity.
Qed.

Lemma split_line sep a b :
  contains sep a = false ->
  split sep (a +++ String sep b) = a :: split sep b.
Proof.
  induction a as [|c a IH]; intros H.
  - cbn [append split]. now rewrite Ascii.eqb_refl.
  - simpl in H. apply orb_false_elim in H as [Hc Ha].
    cbn [append split]. rewrite Hc, (IH Ha). reflexivity.
Qed.

Lemma split_join parts :
  parts <> [] -> Forall (fun l => has_newline l = false) parts ->
  split "010" (join newline parts) = parts.
Proof.
  induction parts as [|x rest IH]; intros Hne Hall; [contradiction |].
  inversion Hall as [|? ? Hx Hrest]; subst.
  destruct rest as [|y rest].
  - simpl. now apply split_plain.
  - change (join newline (x :: y :: rest))
      with (x +++ String "010" (join newline (y :: rest))).
    rewrite (split_line _ _ _ Hx), IH;
      [reflexivity | discriminate | exact Hrest].
Qed.

Lemma image_lines_plain urls :
  Forall (fun u => has_newline u = false) urls ->
  Forall (fun l => has_newline l = false) (image_lines urls).
Proof.
  unfold image_lines. induction 1 as [|u urls Hu _ IH]; simpl; constructor;
    [| exact IH].
  unfold image_line, has_newline in *.
  rewrite !contains_append, Hu. reflexivity.
Qed.

(** The signature is requested outside the [try]: when it is refused
    for one image the join of the uploads is rejected, with the reason
    one of the refusals gave. *)
Lemma upload_from_unsigned w imgs image reason : forall index,
  In image imgs -> getFileSignature w image = Rejected reason ->
  exists r refused,
    promise_all (fst (upload_from w index imgs)) = Rejected r /\
    In refused imgs /\ getFileSignature w refused = Rejected r.
Proof.
  induction imgs as [|x rest IH]; intros index Hin Hsig; [destruct Hin |].
  simpl. unfold upload_one.
  destruct (upload_from w (S index) rest) as [rs evs] eqn:Hrest.
  destruct (getFileSignature w x) as [signature | r] eqn:Hx.
  - destruct Hin as [-> | Hin]; [congruence |].
    destruct (IH (S index) Hin Hsig) as (r & refused & Hr & Hin' & Hsig').
    rewrite Hrest in Hr. simpl in Hr.
    exists r, refused.
    split; [| split; [now right | exact Hsig']].
    destruct (uploadImage w x signature (Some index)); simpl; now rewrite Hr.
  - simpl. exists r, x. split; [reflexivity |]. split; [now left | exact Hx].
Qed.

(** The handler then throws before it composes anything, and the
    loading flag it raised stays raised. *)
Lemma signature_rejection_aborts w props st image reason :
  truthy_opt (user props) = true ->
  In image (images st) -> getFileSignature w image = Rejected reason ->
  exists r refused,
    handleComment w props st
    = (Video.Threw r, setUploadProgress [] (setIsLoading true st),
       snd (upload_images w (images st))) /\
    In refused (images st) /\ getFileSignature w refused = Rejected r.
Proof.
  intros Huser Hin Hsig. unfold handleComment.
  assert (Hguard : nothing_to_post st = false).
  { unfold nothing_to_post. destruct (images st); [destruct Hin |].
    cbn [List.length Nat.eqb]. now rewrite andb_false_r. }
  rewrite Huser, Hguard. cbn [negb].
  unfold upload_images.
  destruct (images st) as [|x rest] eqn:Himgs; [destruct Hin |].
  cbn [List.length Nat.ltb Nat.leb].
  destruct (upload_from_unsigned w (x :: rest) image reason 0 Hin Hsig)
    as (r & refused & Hr & Hin' & Hsig').
  destruct (upload_from w 0 (x :: rest)) as [settled ev]. cbn [fst] in Hr.
  rewrite Hr. exists r, refused. now repeat split.
Qed.

(** The uploads show no message. *)
Lemma uploads_quiet w imgs :
  filter is_alert (snd (upload_images w imgs)) = [].
Proof.
  assert (H : forall l : list Event,
             (forall e, In e l -> is_alert e = false) -> filter is_alert l = []).
  { induction l as [|x l IH]; intros H; simpl; [reflexivity |].
    rewrite (H x (or_introl eq_refl)). apply IH. intros e He. apply H.
    now right. }
  apply H. intros e He. apply SubmitFacts.upload_images_log in He.
  destruct e; try discriminate He; reflexivity.
Qed.

End BodyFacts.

(** C4 fails on the code for an image whose signature request is
    refused.  What holds: the body of a submission is the draft text,
    then the video embed reference as a paragraph of its own, then one
    line [![image](url)] per uploaded image URL joined by newlines, then
    the line [![gif](url)] of the GIF, every paragraph that is present
    preceded by a blank line; the signatures of all the images are
    requested before any upload and every image that gets one is handed
    to the uploader whatever happens to the others; when all N uploads
    succeed there are N image lines in the order of the attachments; an
    image whose transfer fails is left out of the URL list.  What does
    not: an image that is refused its signature is not left out, the
    handler throws past its [try], composes and submits nothing, shows
    no message and leaves the loading flag raised. *)
Theorem C4_body_assembly_and_refused_signature :
  (forall w props st s,
      In (submit s) (snd (Composer.handleComment w props st)) ->
      let urls := Spec.uploaded_urls w 0 (images st) in
      Spec.submitted_images s = urls /\
      Spec.submitted_body s
      = draft st +++ Spec.video_paragraph (videoEmbedUrl st)
          +++ Spec.images_paragraph urls
          +++ Spec.gif_paragraph (selectedGif st)) /\
  (forall c embed gif,
      Spec.video_paragraph None = "" /\
      Spec.video_paragraph (Some "") = "" /\
      Spec.video_paragraph (Some (String c embed))
      = String "010" (String "010" (String c embed)) /\
      Spec.images_paragraph [] = "" /\
      Spec.gif_paragraph None = "" /\
      Spec.gif_paragraph (Some gif)
      = String "010"
          (String "010" ("![gif](" +++ downsized_medium_url gif +++ ")"))) /\
  (forall urls,
      urls <> [] -> Forall (fun u => Spec.has_newline u = false) urls ->
      Spec.images_paragraph urls
      = String "010"
          (String "010" (join (String "010" "") (Spec.image_lines urls))) /\
      split "010" (join (String "010" "") (Spec.image_lines urls))
      = Spec.image_lines urls /\
      Spec.image_lines urls = map (fun u => "![image](" +++ u +++ ")") urls /\
      List.length (Spec.image_lines urls) = List.length urls) /\
  (forall w imgs urls,
      Spec.all_uploaded w 0 imgs urls ->
      fst (Composer.upload_images w imgs) = Fulfilled urls /\
      List.length (Spec.image_lines urls) = List.length imgs) /\
  (forall w imgs,
      (exists uploads,
          snd (Composer.upload_images w imgs)
          = map call_getFileSignature imgs ++ uploads /\
          Forall (fun e => Spec.is_signed_upload e = true) uploads) /\
      (forall i image,
          nth_error imgs i = Some image -> Spec.signed w image ->
          In (call_uploadImage image (Some i))
             (snd (Composer.upload_images w imgs)))) /\
  (forall w imgs,
      Forall (Spec.signed w) imgs ->
      fst (Composer.upload_images w imgs)
      = Fulfilled (Spec.uploaded_urls w 0 imgs) /\
      (forall u,
          In u (Spec.uploaded_urls w 0 imgs) <->
          exists i image signature,
            nth_error imgs i = Some image /\
            getFileSignature w image = Fulfilled signature /\
            uploadImage w image signature (Some i) = Fulfilled u)) /\
  (forall w props st image reason,
      truthy_opt (user props) = true ->
      In image (images st) ->
      getFileSignature w image = Rejected reason ->
      let run := Composer.handleComment w props st in
      (exists r refused,
          fst (fst run) = Video.Threw r /\
          In refused (images st) /\
          getFileSignature w refused = Rejected r) /\
      snd (fst run) = setUploadProgress [] (setIsLoading true st) /\
      snd run = snd (Composer.upload_images w (images st)) /\
      Composer.submissions (snd run) = [] /\
      filter Spec.is_alert (snd run) = []).
Proof.
  split; [| split; [| split; [| split; [| split; [| split]]]]].
  - intros w props st s Hin urls.
    destruct (SubmitFacts.handleComment_submits w props st s Hin)
      as (validUrls & pp' & _ & _ & Hup & _ & _ & -> & _).
    apply BodyFacts.upload_images_fulfilled in Hup. subst validUrls. fold urls.
    rewrite <- BodyFacts.compose_paragraphs.
    unfold Spec.submitted_images, Spec.submitted_body, Spec.submitted_comment,
      Spec.the_submission, Composer.build_submission.
    destruct (truthy_opt (videoEmbedUrl st)); split; reflexivity.
  - intros c embed gif.
    split; [reflexivity |]. split; [reflexivity |]. split; [reflexivity |].
    split; [reflexivity |]. split; reflexivity.
  - intros urls Hne Hplain.
    split; [destruct urls; [contradiction | reflexivity] |].
    split; [| split; [reflexivity | apply length_map]].
    apply (BodyFacts.split_join (Spec.image_lines urls)).
    + destruct urls; [contradiction | discriminate].
    + now apply BodyFacts.image_lines_plain.
  - intros w imgs urls Hall. split.
    + rewrite (BodyFacts.upload_images_signed w imgs
                 (BodyFacts.all_uploaded_signed w imgs 0 urls Hall)).
      f_equal. now apply BodyFacts.all_uploaded_urls.
    + unfold Spec.image_lines. rewrite length_map.
      now apply (BodyFacts.all_uploaded_length w imgs 0).
  - intros w imgs. split.
    + apply BodyFacts.upload_images_started.
    + intros i image. apply BodyFacts.upload_images_attempts.
  - intros w imgs Hs. split; [now apply BodyFacts.upload_images_signed |].
    intros u. apply (BodyFacts.uploaded_urls_In w imgs u 0).
  - intros w props st image reason Huser Hin Hsig run. subst run.
    destruct (BodyFacts.signature_rejection_aborts w props st image reason
                Huser Hin Hsig) as (r & refused & -> & Hin' & Hsig').
    cbn [fst snd].
    split; [exists r, refused; now repeat split |].
    split; [reflexivity |]. split; [reflexivity |]. split.
    + apply PublishFacts.submissions_none. intros s Hs.
      apply SubmitFacts.upload_images_log in Hs. discriminate Hs.
    + apply BodyFacts.uploads_quiet.
Qed.

Lemma C4_body_assembly_and_refused_signature_witness :
  let a := "https://images.hive.blog/a.png" in
  let b := "https://images.hive.blog/b.png" in
  let photos := [Scenario.photo1; Scenario.photo2] in
  let s := Spec.the_submission Scenario.second_fails Scenario.reply_to
             Scenario.with_everything [a] "re-post" in
  let refused := Composer.handleComment Scenario.first_unsigned
                   Scenario.reply_to Scenario.with_photos in
  (In (submit s)
      (snd (Composer.handleComment Scenario.second_fails Scenario.reply_to
              Scenario.with_everything)) /\
   Spec.submitted_images s = [a] /\
   Spec.submitted_body s
   = "look #clip" +++ newline +++ newline
       +++ "https://play.3speak.tv/embed?v=meno/i2znmy5h"
       +++ newline +++ newline
       +++ "![image](https://images.hive.blog/a.png)"
       +++ newline +++ newline
       +++ "![gif](https://media.giphy.com/media/g1/giphy.gif#loop)") /\
  (Spec.all_uploaded Scenario.calm 0 photos [a; b] /\
   fst (Composer.upload_images Scenario.calm photos) = Fulfilled [a; b] /\
   split "010" (join (String "010" "") (Spec.image_lines [a; b]))
   = ["![image](https://images.hive.blog/a.png)";
      "![image](https://images.hive.blog/b.png)"]) /\
  (getFileSignature Scenario.first_unsigned Scenario.photo1
   = Rejected "signing refused" /\
   Spec.signed Scenario.first_unsigned Scenario.photo2 /\
   refused
   = (Video.Threw "signing refused",
      setUploadProgress [] (setIsLoading true Scenario.with_photos),
      [call_getFileSignature Scenario.photo1;
       call_getFileSignature Scenario.photo2;
       call_uploadImage Scenario.photo2 (Some 1)]) /\
   isLoading (snd (fst refused)) = true /\
   Composer.submissions (snd refused) = []).
Proof.
  intros a b photos s refused.
  assert (Hin : In (submit s)
                  (snd (Composer.handleComment Scenario.second_fails
                          Scenario.reply_to Scenario.with_everything)))
    by (vm_compute; do 4 right; left; reflexivity).
  assert (Hall : Spec.all_uploaded Scenario.calm 0 photos [a; b])
    by (repeat constructor; exists "sig"; split; reflexivity).
  assert (Hne : [a; b] <> []) by discriminate.
  assert (Hplain : Forall (fun u => Spec.has_newline u = false) [a; b])
    by (repeat constructor).
  assert (Huser : truthy_opt (user Scenario.reply_to) = true) by reflexivity.
  assert (Hphoto : In Scenario.photo1 (images Scenario.with_photos))
    by (left; reflexivity).
  assert (Hsig : getFileSignature Scenario.first_unsigned Scenario.photo1
                 = Rejected "signing refused") by reflexivity.
  assert (Hsigned : Spec.signed Scenario.first_unsigned Scenario.photo2)
    by (exists "sig"; reflexivity).
  destruct C4_body_assembly_and_refused_signature
    as (Hbody & _ & Hlines & Hok & Hstart & _ & Hrefused).
  destruct (Hbody Scenario.second_fails Scenario.reply_to
              Scenario.with_everything s Hin) as [Himages Hb].
  destruct (Hlines [a; b] Hne Hplain) as (_ & Hsplit & _).
  destruct (Hok Scenario.calm photos [a; b] Hall) as [Hboth _].
  destruct (Hrefused Scenario.first_unsigned Scenario.reply_to
              Scenario.with_photos Scenario.photo1 "signing refused"
              Huser Hphoto Hsig)
    as (_ & Hstate & Hlog & Hnone & _).
  split; [| split].
  - split; [exact Hin |].
    split; [rewrite Himages; vm_compute; reflexivity |].
    rewrite Hb. vm_compute. reflexivity.
  - split; [exact Hall |]. split; [exact Hboth |].
    rewrite Hsplit. reflexivity.
  - split; [exact Hsig |]. split; [exact Hsigned |].
    fold refused in Hstate, Hlog, Hnone.
    split; [vm_compute; reflexivity |].
    split; [rewrite Hstate; reflexivity | exact Hnone].
Defined.

(* ================================================================== *)
(** ** Tags that come from the appended media *)

Module MediaTagFacts.

Import Composer Spec StringFacts TagFacts.

Lemma tags_after_char c s t :
  In t (tags_by_position s) -> In t (tags_by_position (String c s)).
Proof.
  intros H. cbn [tags_by_position].
  destruct (Ascii.eqb c "#"); [| exact H].
  destruct (take_while is_word s); [exact H | now right].
Qed.

Lemma tags_after before s t :
  In t (tags_by_position s) -> In t (tags_by_position (before +++ s)).
Proof.
  intros H. induction before as [|c before IH]; [exact H |].
  cbn [append]. now apply tags_after_char.
Qed.

Lemma take_while_before s after :
  starts_with_word after = false ->
  take_while is_word (s +++ after) = take_while is_word s.
Proof.
  intros H. induction s as [|c s IH]; cbn [append].
  - now apply take_while_none.
  - simpl. now rewrite IH.
Qed.

Lemma tags_before s after t :
  starts_with_word after = false ->
  In t (tags_by_position s) -> In t (tags_by_position (s +++ after)).
Proof.
  intros Hafter. induction s as [|c s IH]; [intros [] |].
  cbn [append tags_by_position].
  rewrite (take_while_before s after Hafter).
  destruct (Ascii.eqb c "#"); [| exact IH].
  destruct (take_while is_word s); [exact IH |].
  intros [H | H]; [now left | right; now apply IH].
Qed.

(** The hashtags of an embedded text are hashtags of the whole. *)
Lemma embedded_tags u body t :
  embedded u body ->
  In t (Tags.extractHashtags u) -> In t (Tags.extractHashtags body).
Proof.
  intros (before & after & -> & Hafter).
  rewrite !extractHashtags_by_position. intros H.
  apply tags_after. now apply tags_before.
Qed.

Lemma starts_with_word_append a b :
  starts_with_word a = false -> starts_with_word b = false ->
  starts_with_word (a +++ b) = false.
Proof. destruct a; simpl; auto. Qed.

Lemma embedded_after u body before :
  embedded u body -> embedded u (before +++ body).
Proof.
  intros (a & c & -> & Hc). exists (before +++ a), c.
  now rewrite append_assoc.
Qed.

Lemma embedded_before u body after :
  embedded u body -> starts_with_word after = false ->
  embedded u (body +++ after).
Proof.
  intros (a & c & -> & Hc) Hafter. exists a, (c +++ after).
  rewrite !append_assoc. split; [reflexivity |].
  now apply starts_with_word_append.
Qed.

Lemma embedded_in_line u : embedded u (image_line u).
Proof. now exists "![image](", ")". Qed.

Lemma embedded_in_lines u urls :
  In u urls -> embedded u (join line_feed (image_lines urls)).
Proof.
  induction urls as [|x rest IH]; intros Hin; [destruct Hin |].
  destruct rest as [|y rest].
  - destruct Hin as [-> | []]. apply embedded_in_line.
  - change (join line_feed (image_lines (x :: y :: rest)))
      with (image_line x +++ line_feed
              +++ join line_feed (image_lines (y :: rest))).
    destruct Hin as [-> | Hin].
    + apply embedded_before; [apply embedded_in_line | reflexivity].
    + do 2 apply embedded_after. now apply IH.
Qed.

Lemma paragraphs_start st urls :
  starts_with_word (images_paragraph urls) = false /\
  starts_with_word (gif_paragraph (selectedGif st)) = false.
Proof.
  split; [destruct urls | destruct (selectedGif st)]; reflexivity.
Qed.

Lemma media_url_embedded st validUrls u :
  media_url st validUrls u -> embedded u (compose st validUrls).
Proof.
  rewrite BodyFacts.compose_paragraphs.
  destruct (paragraphs_start st validUrls) as [Himg Hgif].
  intros [[Hu Hvideo] | [Himage | (gif & Hsel & ->)]].
  - apply embedded_after. apply embedded_before.
    + unfold video_paragraph, truthy_opt. rewrite Hvideo. simpl. rewrite Hu.
      exists blank_line, "". now rewrite append_nil_r.
    + now apply starts_with_word_append.
  - do 2 apply embedded_after. apply embedded_before; [| exact Hgif].
    unfold images_paragraph. destruct validUrls as [|x rest];
      [destruct Himage |].
    do 2 apply embedded_after. now apply embedded_in_lines.
  - do 3 apply embedded_after. rewrite Hsel. unfold gif_paragraph.
    do 2 apply embedded_after. now exists "![gif](", ")".
Qed.

End MediaTagFacts.

(** C10: the tags of a submission are computed from the body that is
    submitted, which is the composed body with the video embed URL, the
    Markdown image lines and the GIF Markdown appended, not from the
    draft; every hashtag of the composed body, and so every hashtag
    inside an appended media URL, is one of the published tags. *)
Theorem C10_tags_from_composed_body (w : World) (props : Props)
  (st : ComposerState) (s : Submission) :
  In (submit s) (snd (Composer.handleComment w props st)) ->
  let validUrls := Spec.uploaded_urls w 0 (images st) in
  Spec.submitted_body s = Composer.compose st validUrls /\
  Spec.submitted_tags s
  = Tags.unique
      (Tags.seedTags (NEXT_PUBLIC_HIVE_COMMUNITY_TAG w) (pp props)
         ++ Tags.extractHashtags (Composer.compose st validUrls)) /\
  (forall t, In t (Tags.extractHashtags (Composer.compose st validUrls)) ->
             In t (Spec.submitted_tags s)) /\
  (forall u t, Spec.media_url st validUrls u ->
               In t (Tags.extractHashtags u) ->
               In t (Spec.submitted_tags s)).
Proof.
  intros Hin validUrls.
  destruct (SubmitFacts.handleComment_submits w props st s Hin)
    as (urls & pp' & _ & _ & Hup & _ & _ & -> & _).
  apply BodyFacts.upload_images_fulfilled in Hup. subst urls. fold validUrls.
  assert (Hbody : Spec.submitted_body
                    (Spec.the_submission w props st validUrls pp')
                  = Composer.compose st validUrls).
  { unfold Spec.submitted_body, Spec.submitted_comment, Spec.the_submission,
      Composer.build_submission.
    destruct (truthy_opt (videoEmbedUrl st)); reflexivity. }
  assert (Htags : Spec.submitted_tags
                    (Spec.the_submission w props st validUrls pp')
                  = Tags.unique
                      (Tags.seedTags (NEXT_PUBLIC_HIVE_COMMUNITY_TAG w) (pp props)
                         ++ Tags.extractHashtags (Composer.compose st validUrls))).
  { unfold Spec.submitted_tags, Spec.submitted_comment, Spec.the_submission,
      Composer.build_submission.
    destruct (truthy_opt (videoEmbedUrl st)); reflexivity. }
  assert (Hall : forall t,
             In t (Tags.extractHashtags (Composer.compose st validUrls)) ->
             In t (Spec.submitted_tags
                     (Spec.the_submission w props st validUrls pp'))).
  { intros t Ht. rewrite Htags, SetFacts.unique_first_occurrences.
    apply SetFacts.first_occurrences_In, in_or_app. now right. }
  repeat split; auto.
  intros u t Hu Ht. apply Hall.
  apply (MediaTagFacts.embedded_tags u); [| exact Ht].
  now apply MediaTagFacts.media_url_embedded.
Qed.

Lemma C10_tags_from_composed_body_witness :
  let w := Scenario.calm in
  let s := Spec.the_submission w Scenario.reply_to Scenario.with_gif []
             "re-post" in
  In (submit s)
     (snd (Composer.handleComment w Scenario.reply_to Scenario.with_gif)) /\
  Tags.extractHashtags (draft Scenario.with_gif) = [] /\
  Spec.submitted_tags s = ["loop"] /\
  In "loop" (Spec.submitted_tags s).
Proof.
  intros w s.
  assert (Hin : In (submit s)
                  (snd (Composer.handleComment w Scenario.reply_to
                          Scenario.with_gif)))
    by (vm_compute; left; reflexivity).
  destruct (C10_tags_from_composed_body w Scenario.reply_to Scenario.with_gif
              s Hin) as (_ & Htags & _ & Hmedia).
  split; [exact Hin |].
  split; [vm_compute; reflexivity |].
  split; [rewrite Htags; vm_compute; reflexivity |].
  apply (Hmedia (downsized_medium_url Scenario.looping_gif)).
  - right. right. exists Scenario.looping_gif. split; reflexivity.
  - vm_compute. left. reflexivity.
Defined.

(* ================================================================== *)
(** ** After the answer of the ledger *)

Module OutcomeFacts.

Import Composer Spec SubmitFacts.

Lemma filter_none {A} (p : A -> bool) l :
  (forall e, In e l -> p e = false) -> filter p l = [].
Proof.
  induction l as [|x l IH]; intros H; simpl; [reflexivity |].
  rewrite (H x (or_introl eq_refl)). apply IH. intros e He. apply H. now right.
Qed.

Lemma quiet_before_submit w props st (p : Event -> bool) :
  (forall f, p (call_getFileSignature f) = false) ->
  (forall f i, p (call_uploadImage f i) = false) ->
  p call_getLastSnapsContainer = false ->
  filter p (snd (upload_images w (images st))) = [] /\
  filter p (snd (resolve_container w (pp props))) = [].
Proof.
  intros Hsig Hup Hlook. split; apply filter_none; intros e He.
  - apply upload_images_log in He. destruct e; try discriminate He; auto.
  - apply resolve_container_log in He. now subst e.
Qed.

(** The log of a submitting run, seen through a filter that ignores
    the uploads, the lookup and the submission itself. *)
Lemma filtered_log w props st s (p : Event -> bool) :
  In (submit s) (snd (handleComment w props st)) ->
  (forall f, p (call_getFileSignature f) = false) ->
  (forall f i, p (call_uploadImage f i) = false) ->
  p call_getLastSnapsContainer = false ->
  (forall x, p (submit x) = false) ->
  filter p (snd (handleComment w props st))
  = filter p (snd (respond w (setUploadProgress [] (setIsLoading true st))
                     (or_empty (user props))
                     (JsDate.permlink_of (Date_now w))
                     (Spec.submitted_body s) s)) /\
  snd (fst (handleComment w props st))
  = finally (fst (respond w (setUploadProgress [] (setIsLoading true st))
                    (or_empty (user props))
                    (JsDate.permlink_of (Date_now w))
                    (Spec.submitted_body s) s)) /\
  Spec.submitted_permlink s = JsDate.permlink_of (Date_now w).
Proof.
  intros Hin Hsig Hup Hlook Hsub.
  destruct (handleComment_submits w props st s Hin)
    as (validUrls & pp' & _ & _ & _ & _ & _ & Hs & Hrun).
  assert (Hbody : Spec.submitted_body s = compose st validUrls
                  /\ Spec.submitted_permlink s
                     = JsDate.permlink_of (Date_now w)).
  { subst s. unfold Spec.submitted_body, Spec.submitted_permlink,
      Spec.submitted_comment, Spec.the_submission, build_submission.
    destruct (truthy_opt (videoEmbedUrl st)); split; reflexivity. }
  destruct Hbody as [Hbody Hlink]. rewrite Hbody.
  cbv zeta in Hrun. rewrite Hrun. cbn [fst snd].
  destruct (quiet_before_submit w props st p Hsig Hup Hlook) as [H1 H2].
  rewrite !filter_app, H1, H2. cbn [filter app]. rewrite Hsub.
  repeat split; auto.
Qed.

End OutcomeFacts.

(** C7: when the ledger accepts the submission, the text, the images,
    the GIF, the video attachment, the embed reference, the upload
    progress and the thumbnail-processing flag are all cleared and the
    caller is notified once, with exactly the record of author, permlink
    and body; when the ledger rejects it, by answering without success or
    by failing, those parts of the state are as they were before the run
    and one failure message is shown. *)
Theorem C7_after_the_ledger_answers (w : World) (props : Props)
  (st : ComposerState) (s : Submission) :
  In (submit s) (snd (Composer.handleComment w props st)) ->
  let run := Composer.handleComment w props st in
  let st' := snd (fst run) in
  let log := snd run in
  (ledger w s = Fulfilled true ->
   draft st' = "" /\ images st' = [] /\ selectedGif st' = None /\
   selectedVideo st' = None /\ videoEmbedUrl st' = None /\
   videoUploadProgress st' = 0%Z /\ uploadProgress st' = [] /\
   thumbnailProcessing st' = false /\
   filter Spec.is_notification log
   = [onNewComment [("author", or_empty (user props));
                    ("permlink", Spec.submitted_permlink s);
                    ("body", Spec.submitted_body s)]] /\
   filter Spec.is_alert log = []) /\
  (ledger w s <> Fulfilled true ->
   draft st' = draft st /\ images st' = images st /\
   selectedGif st' = selectedGif st /\ selectedVideo st' = selectedVideo st /\
   videoEmbedUrl st' = videoEmbedUrl st /\
   videoUploadProgress st' = videoUploadProgress st /\
   thumbnailProcessing st' = thumbnailProcessing st /\
   (exists msg, filter Spec.is_alert log = [alert msg]) /\
   filter Spec.is_notification log = [] /\
   (isLoading st = false -> uploadProgress st = [] -> st' = st)).
Proof.
  intros Hin run st' log. subst run st' log.
  destruct (OutcomeFacts.filtered_log w props st s Spec.is_alert Hin)
    as (Halert & Hstate & Hlink); try reflexivity.
  destruct (OutcomeFacts.filtered_log w props st s Spec.is_notification Hin)
    as (Hnote & _ & _); try reflexivity.
  rewrite Halert, Hnote, Hstate, Hlink. unfold Composer.respond.
  split; intros Hanswer.
  - rewrite Hanswer. cbn. repeat split; reflexivity.
  - assert (Hsame : isLoading st = false -> uploadProgress st = [] ->
                    Composer.finally
                      (setUploadProgress [] (setIsLoading true st)) = st).
    { destruct st; cbn. now intros -> ->. }
    destruct (ledger w s) as [[|] | reason]; [contradiction | |];
      cbn [fst snd filter Spec.is_alert Spec.is_notification];
      (split; [reflexivity |]); (split; [reflexivity |]);
      (split; [reflexivity |]); (split; [reflexivity |]);
      (split; [reflexivity |]); (split; [reflexivity |]);
      (split; [reflexivity |]); (split; [eexists; reflexivity |]);
      (split; [reflexivity | exact Hsame]).
Qed.

Lemma C7_after_the_ledger_answers_witness :
  let accepted := Spec.the_submission Scenario.calm Scenario.reply_to
                    Scenario.with_video [] "re-post" in
  let refused := Spec.the_submission Scenario.refusing Scenario.reply_to
                   Scenario.with_video [] "re-post" in
  let after w := snd (fst (Composer.handleComment w Scenario.reply_to
                             Scenario.with_video)) in
  (In (submit accepted)
      (snd (Composer.handleComment Scenario.calm Scenario.reply_to
              Scenario.with_video)) /\
   ledger Scenario.calm accepted = Fulfilled true /\
   draft (after Scenario.calm) = "" /\
   videoEmbedUrl (after Scenario.calm) = None) /\
  (In (submit refused)
      (snd (Composer.handleComment Scenario.refusing Scenario.reply_to
              Scenario.with_video)) /\
   ledger Scenario.refusing refused <> Fulfilled true /\
   draft (after Scenario.refusing) = "look #clip" /\
   videoEmbedUrl (after Scenario.refusing) = Some Scenario.embed).
Proof.
  intros accepted refused after.
  assert (Hin1 : In (submit accepted)
                   (snd (Composer.handleComment Scenario.calm
                           Scenario.reply_to Scenario.with_video)))
    by (vm_compute; left; reflexivity).
  assert (Hin2 : In (submit refused)
                   (snd (Composer.handleComment Scenario.refusing
                           Scenario.reply_to Scenario.with_video)))
    by (vm_compute; left; reflexivity).
  assert (Hyes : ledger Scenario.calm accepted = Fulfilled true)
    by reflexivity.
  assert (Hno : ledger Scenario.refusing refused <> Fulfilled true)
    by discriminate.
  destruct (C7_after_the_ledger_answers Scenario.calm Scenario.reply_to
              Scenario.with_video accepted Hin1) as [Hclear _].
  destruct (C7_after_the_ledger_answers Scenario.refusing Scenario.reply_to
              Scenario.with_video refused Hin2) as [_ Hkeep].
  destruct (Hclear Hyes) as (Hd & _ & _ & _ & He & _).
  destruct (Hkeep Hno) as (Hd' & _ & _ & _ & He' & _).
  split.
  - split; [exact Hin1 |]. split; [exact Hyes |]. split; [exact Hd | exact He].
  - split; [exact Hin2 |]. split; [exact Hno |].
    split; [exact Hd' | exact He'].
Defined.

(* ================================================================== *)
(** ** The API credential *)

(** C9: when the API key is absent from the process configuration, or
    empty, the video upload and the thumbnail assignment both fail at
    once with the credential-missing error, leaving the state as it was
    and an empty log: no request is issued. *)
Theorem C9_credential_missing (w : World) (user : option string) (file : File)
  (st : ComposerState) (videoId thumbnailUrl : string) :
  truthy_opt (NEXT_PUBLIC_3SPEAK_API_KEY w) = false ->
  Video.uploadVideoToThreeSpeak w user file st
  = (Rejected Video.credential_missing, st, []) /\
  Video.setVideoThumbnail w videoId thumbnailUrl
  = (Rejected Video.credential_missing, []) /\
  Video.credential_missing = "3Speak API key not configured".
Proof.
  unfold truthy_opt, Video.uploadVideoToThreeSpeak, Video.setVideoThumbnail.
  intros ->. repeat split; reflexivity.
Qed.

Lemma C9_credential_missing_witness :
  truthy_opt (NEXT_PUBLIC_3SPEAK_API_KEY Scenario.no_key) = false /\
  Video.uploadVideoToThreeSpeak Scenario.no_key (Some "bob") Scenario.clip
    Scenario.empty
  = (Rejected "3Speak API key not configured", Scenario.empty, []) /\
  Video.setVideoThumbnail Scenario.no_key "i2znmy5h" "https://t/x.jpg"
  = (Rejected "3Speak API key not configured", []).
Proof.
  assert (H : truthy_opt (NEXT_PUBLIC_3SPEAK_API_KEY Scenario.no_key) = false)
    by reflexivity.
  destruct (C9_credential_missing Scenario.no_key (Some "bob") Scenario.clip
              Scenario.empty "i2znmy5h" "https://t/x.jpg" H) as (Hv & Ht & _).
  split; [exact H |]. split; [exact Hv | exact Ht].
Defined.

(* ================================================================== *)
(** ** The lifetime of the object URL *)

Module ThumbnailFacts.

Import Thumbnail.

(** Without a rendering context no call of [toBlob] is made, and
    without an [error] event nothing is ever added to the log. *)
Lemma no_context_idle m file events : forall x,
  context2d m = false -> ~ In error events -> waiting x = [] ->
  log (fold_left (dispatch m file) events x) = log x /\
  waiting (fold_left (dispatch m file) events x) = [].
Proof.
  induction events as [|e events IH]; intros x Hctx Herr Hw; [now split |].
  cbn [fold_left].
  assert (Hstep : log (dispatch m file x e) = log x /\
                  waiting (dispatch m file x e) = []).
  { destruct e; cbn [dispatch].
    - now split.
    - unfold on_seeked. rewrite Hctx. cbn [negb]. unfold settle.
      destruct (settlement x); now split.
    - exfalso. apply Herr. now left.
    - unfold on_blob_ready. rewrite Hw. now split. }
  destruct Hstep as [Hlog Hw'].
  destruct (IH (dispatch m file x e) Hctx
              (fun H => Herr (or_intror H)) Hw') as [H1 H2].
  rewrite H1, H2, Hlog. now split.
Qed.

Lemma drain_idle file x :
  waiting x = [] ->
  settlement (drain file x) = settlement x /\ log (drain file x) = log x.
Proof. unfold drain. intros ->. now split. Qed.

Lemma callback_settled file blob x r :
  settlement x = Some r -> settlement (toBlob_callback file blob x) = Some r.
Proof.
  intros Hx. unfold toBlob_callback, emit, settle.
  destruct blob; cbn; now rewrite Hx.
Qed.

Lemma callbacks_settled file blobs : forall x r,
  settlement x = Some r ->
  settlement (fold_left (fun y blob => toBlob_callback file blob y) blobs x)
  = Some r.
Proof.
  induction blobs as [|blob blobs IH]; intros x r Hx; [exact Hx |].
  cbn [fold_left]. apply IH. now apply callback_settled.
Qed.

Lemma dispatch_settled m file x e r :
  settlement x = Some r -> settlement (dispatch m file x e) = Some r.
Proof.
  intros Hx. destruct e; cbn [dispatch]; [exact Hx | | |].
  - unfold on_seeked, settle, toBlob.
    destruct (negb (context2d m)); [now rewrite Hx | exact Hx].
  - unfold on_error, settle, emit. cbn. now rewrite Hx.
  - unfold on_blob_ready. destruct (waiting x) as [|blob rest]; [exact Hx |].
    now apply callback_settled.
Qed.

Lemma settled_stays m file events : forall x r,
  settlement x = Some r ->
  settlement (fold_left (dispatch m file) events x) = Some r.
Proof.
  induction events as [|e events IH]; intros x r Hx; [exact Hx |].
  cbn [fold_left]. apply IH. now apply dispatch_settled.
Qed.

Lemma drain_settled file x r :
  settlement x = Some r -> settlement (drain file x) = Some r.
Proof. intros Hx. unfold drain. now apply callbacks_settled. Qed.

Lemma no_context_settles m file events : forall x,
  context2d m = false -> ~ In error events -> In seeked events ->
  settlement x = None -> waiting x = [] ->
  settlement (fold_left (dispatch m file) events x)
  = Some (Rejected "Failed to get canvas context").
Proof.
  induction events as [|e events IH]; intros x Hctx Herr Hseek Hx Hw;
    [destruct Hseek |].
  cbn [fold_left].
  assert (Hrest : ~ In error events) by (intros H; apply Herr; now right).
  destruct e; cbn [dispatch].
  - apply IH; auto.
    destruct Hseek as [H | H]; [discriminate H | exact H].
  - apply settled_stays. unfold on_seeked. rewrite Hctx. cbn [negb].
    unfold settle. now rewrite Hx.
  - exfalso. apply Herr. now left.
  - unfold on_blob_ready. rewrite Hw. apply IH; auto.
    destruct Hseek as [H | H]; [discriminate H | exact H].
Qed.

End ThumbnailFacts.

(** C8 fails on the code: when the video loads and seeks but the canvas
    gives no 2D rendering context, the extraction ends, rejected with
    'Failed to get canvas context', and the object URL created for the
    video is never released; the paths through the [error] event and
    through the callback of [toBlob] do release it. *)
Theorem C8_object_url_not_released_without_context (w : World) (file : File) :
  (context2d (media w file) = false ->
   ~ In error (dispatched (media w file)) ->
   In seeked (dispatched (media w file)) ->
   Thumbnail.extractThumbnail w file
   = (Some (Rejected "Failed to get canvas context"), [createObjectURL file])) /\
  (context2d (media w file) = true ->
   dispatched (media w file) = [loadeddata; seeked] ->
   Spec.count_events Spec.is_revoke (snd (Thumbnail.extractThumbnail w file)) = 1
   /\ fst (Thumbnail.extractThumbnail w file)
      = Some (match encoded (media w file) with
              | Some blob => Fulfilled blob
              | None => Rejected "Failed to create thumbnail blob"
              end)) /\
  (dispatched (media w file) = [error] ->
   Thumbnail.extractThumbnail w file
   = (Some (Rejected "Failed to load video"),
      [createObjectURL file; revokeObjectURL file])).
Proof.
  unfold Thumbnail.extractThumbnail. split; [| split].
  - intros Hctx Herr Hseek.
    set (start := {| Thumbnail.settlement := None;
                     Thumbnail.currentTime := None;
                     Thumbnail.waiting := [];
                     Thumbnail.log := [createObjectURL file] |}).
    destruct (ThumbnailFacts.no_context_idle _ file _ start Hctx Herr eq_refl)
      as [Hlog Hidle].
    destruct (ThumbnailFacts.drain_idle file _ Hidle) as [-> ->].
    rewrite Hlog.
    rewrite (ThumbnailFacts.no_context_settles _ _ _ start Hctx Herr Hseek
               eq_refl eq_refl).
    reflexivity.
  - intros Hctx ->. cbn [fold_left Thumbnail.dispatch Thumbnail.on_loadeddata].
    unfold Thumbnail.on_seeked. rewrite Hctx. cbn [negb].
    destruct (encoded (media w file)); split; reflexivity.
  - intros ->. reflexivity.
Qed.

Lemma C8_object_url_not_released_without_context_witness :
  context2d (media Scenario.no_context Scenario.clip) = false /\
  Thumbnail.extractThumbnail Scenario.no_context Scenario.clip
  = (Some (Rejected "Failed to get canvas context"),
     [createObjectURL Scenario.clip]) /\
  Spec.count_events Spec.is_revoke
    (snd (Thumbnail.extractThumbnail Scenario.no_context Scenario.clip)) = 0.
Proof.
  assert (Hctx : context2d (media Scenario.no_context Scenario.clip) = false)
    by reflexivity.
  assert (Herr : ~ In error (dispatched (media Scenario.no_context Scenario.clip)))
    by (intros [H | [H | []]]; discriminate H).
  assert (Hseek : In seeked (dispatched (media Scenario.no_context Scenario.clip)))
    by (right; left; reflexivity).
  destruct (C8_object_url_not_released_without_context Scenario.no_context
              Scenario.clip) as [Hleak _].
  specialize (Hleak Hctx Herr Hseek).
  split; [exact Hctx |]. split; [exact Hleak |].
  rewrite Hleak. reflexivity.
Defined.

(* ================================================================== *)
(** ** The two tiers of thumbnail publishing *)

(** C5: publishing a thumbnail first tries the signed upload to the
    image host; when that attempt fails, at the signature or at the
    upload, the content-addressed store is asked exactly once, and the
    outcome of that request is the outcome of the publication, so its
    failure is final; when it succeeds the URL is the gateway prefix
    followed by the [Hash] field of the last line of the NDJSON reply.
    No tier is tried more than once. *)
Theorem C5_thumbnail_publish (w : World) (file : File) (thumbnailBlob : Blob) :
  let run := Publisher.publishThumbnail w file thumbnailBlob in
  let primary := Spec.primary_outcome w file thumbnailBlob in
  let fallback := Publisher.uploadThumbnailToIPFS w thumbnailBlob in
  let request := Publisher.ipfs_request thumbnailBlob in
  Spec.count_events Spec.is_signature (snd run) = 1 /\
  Spec.count_events Spec.is_signed_upload (snd run) <= 1 /\
  Spec.count_events Spec.is_fallback_fetch (snd run) <= 1 /\
  (forall imageUrl,
      primary = Fulfilled imageUrl ->
      fst run = Fulfilled imageUrl /\
      Spec.count_events Spec.is_fallback_fetch (snd run) = 0) /\
  (forall reason,
      primary = Rejected reason ->
      Spec.count_events Spec.is_fallback_fetch (snd run) = 1 /\
      In (call_fetch request) (snd run) /\
      fst run = fst fallback) /\
  (forall reason,
      fetch w request = Rejected reason -> fst fallback = Rejected reason) /\
  (forall response,
      fetch w request = Fulfilled response -> ok response = false ->
      exists reason, fst fallback = Rejected reason) /\
  (forall response responseText,
      fetch w request = Fulfilled response -> ok response = true ->
      text response = Fulfilled responseText ->
      JSON_parse w (Spec.last_line responseText) = None ->
      exists reason, fst fallback = Rejected reason) /\
  (forall response responseText fields ipfsHash,
      fetch w request = Fulfilled response -> ok response = true ->
      text response = Fulfilled responseText ->
      JSON_parse w (Spec.last_line responseText) = Some (JObject fields) ->
      Publisher.lookup "Hash" fields = Some (JString ipfsHash) ->
      fst fallback = Fulfilled ("https://ipfs.3speak.tv/ipfs/" +++ ipfsHash)).
Proof.
  intros run primary fallback request.
  assert (Hrun :
    match primary with
    | Fulfilled imageUrl =>
        fst run = Fulfilled imageUrl /\
        Spec.count_events Spec.is_signature (snd run) = 1 /\
        Spec.count_events Spec.is_signed_upload (snd run) = 1 /\
        Spec.count_events Spec.is_fallback_fetch (snd run) = 0
    | Rejected _ =>
        fst run = fst fallback /\
        Spec.count_events Spec.is_signature (snd run) = 1 /\
        Spec.count_events Spec.is_signed_upload (snd run) <= 1 /\
        Spec.count_events Spec.is_fallback_fetch (snd run) = 1 /\
        In (call_fetch request) (snd run)
    end).
  { subst run primary fallback request.
    unfold Spec.primary_outcome, Publisher.publishThumbnail,
      Publisher.uploadThumbnailToIPFS.
    destruct (getFileSignature w (Publisher.thumbnail_file file thumbnailBlob))
      as [signature | reason].
    - destruct (uploadImage w (Publisher.thumbnail_file file thumbnailBlob)
                  signature None) as [imageUrl | reason].
      + repeat split; reflexivity.
      + cbn [fst snd app].
        split; [reflexivity |]. split; [reflexivity |].
        split; [unfold Spec.count_events; cbn; lia |].
        split; [reflexivity |]. right. right. now left.
    - cbn [fst snd app].
      split; [reflexivity |]. split; [reflexivity |].
      split; [unfold Spec.count_events; cbn; lia |].
      split; [reflexivity |]. right. now left. }
  split; [destruct primary; tauto |].
  split; [destruct primary; intuition lia |].
  split; [destruct primary; intuition lia |].
  split; [intros imageUrl E; rewrite E in Hrun; tauto |].
  split; [intros reason E; rewrite E in Hrun; tauto |].
  subst fallback request. unfold Publisher.uploadThumbnailToIPFS, Spec.last_line.
  cbn [fst].
  split; [intros reason ->; reflexivity |].
  split; [intros response -> ->; eexists; reflexivity |].
  split.
  - intros response responseText -> -> -> ->. eexists. reflexivity.
  - intros response responseText fields ipfsHash -> -> -> -> Hhash.
    cbn [negb Publisher.get]. rewrite Hhash. reflexivity.
Qed.

Lemma C5_thumbnail_publish_witness :
  let w := Scenario.primary_down in
  let run := Publisher.publishThumbnail w Scenario.clip 9 in
  Spec.primary_outcome w Scenario.clip 9 = Rejected "503" /\
  fetch w (Publisher.ipfs_request 9)
  = Fulfilled (Scenario.reply_ok Scenario.ipfs_reply) /\
  JSON_parse w (Spec.last_line Scenario.ipfs_reply)
  = Some (JObject [("Name", JString "t.jpg"); ("Hash", JString "QmThumb")]) /\
  Spec.count_events Spec.is_fallback_fetch (snd run) = 1 /\
  fst run = Fulfilled "https://ipfs.3speak.tv/ipfs/QmThumb".
Proof.
  intros w run.
  assert (Hprimary : Spec.primary_outcome w Scenario.clip 9 = Rejected "503")
    by reflexivity.
  assert (Hfetch : fetch w (Publisher.ipfs_request 9)
                   = Fulfilled (Scenario.reply_ok Scenario.ipfs_reply))
    by reflexivity.
  assert (Hparse : JSON_parse w (Spec.last_line Scenario.ipfs_reply)
                   = Some (JObject [("Name", JString "t.jpg");
                                    ("Hash", JString "QmThumb")]))
    by (vm_compute; reflexivity).
  destruct (C5_thumbnail_publish w Scenario.clip 9)
    as (_ & _ & _ & _ & Hdown & _ & _ & _ & Hurl).
  destruct (Hdown "503" Hprimary) as (Honce & _ & Hsame).
  split; [exact Hprimary |]. split; [exact Hfetch |]. split; [exact Hparse |].
  split; [exact Honce |].
  fold run in Hsame. rewrite Hsame.
  apply (Hurl (Scenario.reply_ok Scenario.ipfs_reply) Scenario.ipfs_reply
           [("Name", JString "t.jpg"); ("Hash", JString "QmThumb")] "QmThumb");
    [exact Hfetch | reflexivity | reflexivity | exact Hparse | reflexivity].
Defined.

(* ================================================================== *)
(** ** Orchestrating the video upload and the thumbnail *)

Module VideoFacts.

Import Video Spec.

Lemma progress_keeps ps : forall st,
  let st' := fold_left (fun s percentage => setVideoUploadProgress percentage s)
               ps st in
  selectedVideo st' = selectedVideo st /\
  videoEmbedUrl st' = videoEmbedUrl st /\
  thumbnailProcessing st' = thumbnailProcessing st.
Proof.
  induction ps as [|p ps IH]; intros st; cbn [fold_left]; [now repeat split |].
  destruct (IH (setVideoUploadProgress p st)) as (H1 & H2 & H3).
  cbv zeta. rewrite H1, H2, H3. now repeat split.
Qed.

(** What an upload leaves of the state, and what a successful one
    implies. *)
Lemma upload_state w user file st :
  let run := uploadVideoToThreeSpeak w user file st in
  videoEmbedUrl (snd (fst run)) = videoEmbedUrl st /\
  thumbnailProcessing (snd (fst run)) = thumbnailProcessing st /\
  (forall embed,
      fst (fst run) = Fulfilled embed ->
      selectedVideo (snd (fst run)) = selectedVideo st /\
      truthy (or_empty (NEXT_PUBLIC_3SPEAK_API_KEY w)) = true).
Proof.
  unfold uploadVideoToThreeSpeak.
  destruct (truthy (or_empty (NEXT_PUBLIC_3SPEAK_API_KEY w))) eqn:Hkey;
    cbn [negb orb].
  2:{ cbn [fst snd]. split; [reflexivity |]. split; [reflexivity |].
      intros embed H. discriminate H. }
  destruct (String.eqb (or_empty (NEXT_PUBLIC_3SPEAK_API_KEY w)) "").
  { cbn [fst snd]. split; [reflexivity |]. split; [reflexivity |].
    intros embed H. discriminate H. }
  destruct (progress_keeps (progress (tus_run w file)) st) as (H1 & H2 & H3).
  cbv zeta in H1, H2, H3.
  destruct (tus_error (tus_run w file)) as [reason |].
  - cbn [fst snd]. split; [exact H2 |]. split; [exact H3 |].
    intros embed H. discriminate H.
  - destruct (truthy_opt
                (fold_left observe_header (embed_headers (tus_run w file)) None));
      cbn [fst snd]; (split; [exact H2 |]); (split; [exact H3 |]);
      intros embed H; [now split | discriminate H].
Qed.

Lemma extractVideoId_owner_id w embed owner id :
  URL_searchParams_get w embed "v" = Some (Some (owner +++ "/" +++ id)) ->
  contains "/" owner = false -> contains "/" id = false ->
  extractVideoId w embed = Some id.
Proof.
  intros Hv Howner Hid. unfold extractVideoId. rewrite Hv.
  assert (Htruthy : truthy_opt (Some (owner +++ "/" +++ id)) = true)
    by (destruct owner; reflexivity).
  rewrite Htruthy. cbn [or_empty].
  change (owner +++ "/" +++ id) with (owner +++ String "/" id).
  rewrite (BodyFacts.split_line "/" owner id Howner),
    (BodyFacts.split_plain "/" id Hid).
  reflexivity.
Qed.

End VideoFacts.

(** C3: the video upload and the thumbnail pipeline are both started and
    logged whatever the other does, and the handler decides only once
    both have settled.  A failed video upload gives one failure alert and
    resets the attachment, whatever the thumbnail pipeline produced; a
    successful upload with a failed thumbnail pipeline keeps the
    attachment with its embed reference and makes no association call;
    when both succeed and the [v] parameter of the embed URL reads
    [owner/id], the identifier is [id] and one association request is
    issued, to [https://embed.3speak.tv/video/<id>/thumbnail] with the
    API key and the URL of the thumbnail, whose outcome does not enter
    the resulting state. *)
Theorem C3_video_orchestration (w : World) (user : option string) (file : File)
  (st : ComposerState) :
  let st0 := setThumbnailProcessing true
               (setVideoUploadProgress 1 (setSelectedVideo (Some file) st)) in
  let video := Video.uploadVideoToThreeSpeak w user file st0 in
  let thumb := Publisher.extractAndUploadThumbnail w file in
  let run := Video.handleVideoSelection w user file st in
  let st' := snd (fst run) in
  (exists decided, snd run = snd video ++ snd thumb ++ decided) /\
  (fst thumb = None ->
   run = (Video.Pending, snd (fst video), snd video ++ snd thumb)) /\
  (forall thumbnailResult reason,
      fst thumb = Some thumbnailResult ->
      fst (fst video) = Rejected reason ->
      fst (fst run) = Video.Returned /\
      snd run = snd video ++ snd thumb ++ [alert Video.upload_failed_msg] /\
      selectedVideo st' = None /\ videoUploadProgress st' = 0%Z /\
      videoEmbedUrl st' = videoEmbedUrl st /\
      thumbnailProcessing st' = false) /\
  (forall embed reason,
      fst (fst video) = Fulfilled embed ->
      fst thumb = Some (Rejected reason) ->
      fst (fst run) = Video.Returned /\
      snd run = snd video ++ snd thumb /\
      selectedVideo st' = Some file /\ videoEmbedUrl st' = Some embed /\
      thumbnailProcessing st' = false) /\
  (forall embed thumbnailUrl owner id,
      fst (fst video) = Fulfilled embed ->
      fst thumb = Some (Fulfilled thumbnailUrl) ->
      URL_searchParams_get w embed "v" = Some (Some (owner +++ "/" +++ id)) ->
      Spec.contains "/" owner = false -> Spec.contains "/" id = false ->
      id <> "" ->
      Video.extractVideoId w embed = Some id /\
      fst (fst run) = Video.Returned /\
      (exists apiKey,
          NEXT_PUBLIC_3SPEAK_API_KEY w = Some apiKey /\ apiKey <> "" /\
          snd run
          = snd video ++ snd thumb
              ++ [call_fetch
                    {| url := "https://embed.3speak.tv/video/" +++ id
                                +++ "/thumbnail";
                       x_api_key := Some apiKey;
                       req_body := Json_thumbnail_url thumbnailUrl |}]) /\
      selectedVideo st' = Some file /\ videoEmbedUrl st' = Some embed /\
      thumbnailProcessing st' = false).
Proof.
  intros st0 video thumb run st'.
  pose proof (VideoFacts.upload_state w user file st0) as Hup.
  cbv zeta in Hup. fold video in Hup.
  destruct Hup as (Hembed & _ & Hok).
  subst st' run. unfold Video.handleVideoSelection.
  fold st0. fold video. fold thumb.
  destruct video as [[videoResult st1] ev_video].
  destruct thumb as [thumbnailSettled ev_thumb].
  cbn [fst snd] in *.
  split; [| split; [| split; [| split]]].
  - destruct thumbnailSettled as [thumbnailResult |].
    + destruct videoResult as [embed | reason].
      * destruct thumbnailResult as [thumbnailUrl | reason].
        -- destruct (Video.extractVideoId w embed) as [videoId |].
           ++ destruct (truthy videoId); cbn [snd]; rewrite <- app_assoc;
                eexists; reflexivity.
           ++ cbn [snd]. rewrite <- app_assoc. eexists. reflexivity.
        -- cbn [snd]. rewrite <- app_assoc. eexists. reflexivity.
      * cbn [snd]. rewrite <- app_assoc. eexists. reflexivity.
    + exists []. cbn [snd]. now rewrite app_nil_r.
  - intros ->. reflexivity.
  - intros thumbnailResult reason -> ->. cbn [fst snd].
    rewrite <- app_assoc. repeat split; try reflexivity. exact Hembed.
  - intros embed reason -> ->. cbn [fst snd].
    destruct (Hok embed eq_refl) as [Hsel _].
    rewrite app_nil_r. repeat split; try reflexivity. exact Hsel.
  - intros embed thumbnailUrl owner id -> -> Hv Howner Hid Hne.
    destruct (Hok embed eq_refl) as [Hsel Hkey].
    rewrite (VideoFacts.extractVideoId_owner_id w embed owner id Hv Howner Hid).
    assert (Hid' : truthy id = true) by (destruct id; [contradiction | reflexivity]).
    rewrite Hid'. unfold Video.setVideoThumbnail. rewrite Hkey.
    cbn [negb fst snd]. rewrite <- app_assoc.
    split; [reflexivity |]. split; [reflexivity |].
    split; [| split; [exact Hsel | split; reflexivity]].
    destruct (NEXT_PUBLIC_3SPEAK_API_KEY w) as [[|c apiKey] |];
      try discriminate Hkey.
    exists (String c apiKey).
    split; [reflexivity |]. split; [discriminate | reflexivity].
Qed.

Lemma C3_video_orchestration_witness :
  let thumbnailUrl := "https://images.hive.blog/clip.mp4_thumbnail.jpg" in
  let good := Video.handleVideoSelection Scenario.calm (Some "bob")
                Scenario.clip Scenario.empty in
  let bad := Video.handleVideoSelection Scenario.video_down (Some "bob")
               Scenario.clip Scenario.empty in
  (fst (Publisher.extractAndUploadThumbnail Scenario.calm Scenario.clip)
   = Some (Fulfilled thumbnailUrl) /\
   Video.extractVideoId Scenario.calm Scenario.embed = Some "i2znmy5h" /\
   In (call_fetch
         {| url := "https://embed.3speak.tv/video/i2znmy5h/thumbnail";
            x_api_key := Some "k3y";
            req_body := Json_thumbnail_url
                          "https://images.hive.blog/clip.mp4_thumbnail.jpg" |})
      (snd good) /\
   selectedVideo (snd (fst good)) = Some Scenario.clip /\
   videoEmbedUrl (snd (fst good)) = Some Scenario.embed) /\
  (fst (Publisher.extractAndUploadThumbnail Scenario.video_down Scenario.clip)
   = Some (Fulfilled thumbnailUrl) /\
   Spec.count_events Spec.is_alert (snd bad) = 1 /\
   selectedVideo (snd (fst bad)) = None /\
   videoUploadProgress (snd (fst bad)) = 0%Z).
Proof.
  intros thumbnailUrl good bad.
  assert (Hthumb : forall w,
             w = Scenario.calm \/ w = Scenario.video_down ->
             fst (Publisher.extractAndUploadThumbnail w Scenario.clip)
             = Some (Fulfilled thumbnailUrl))
    by (intros w [-> | ->]; vm_compute; reflexivity).
  destruct (C3_video_orchestration Scenario.calm (Some "bob") Scenario.clip
              Scenario.empty) as (_ & _ & _ & _ & Hboth).
  destruct (C3_video_orchestration Scenario.video_down (Some "bob")
              Scenario.clip Scenario.empty) as (_ & _ & Hfail & _).
  destruct (Hboth Scenario.embed thumbnailUrl "meno" "i2znmy5h")
    as (Hid & _ & (apiKey & Hkey & _ & Hlog) & Hsel & Hurl & _);
    [vm_compute; reflexivity | apply Hthumb; now left | reflexivity
    | reflexivity | reflexivity | discriminate |].
  destruct (Hfail (Fulfilled thumbnailUrl) "tus: failed to upload chunk")
    as (_ & Hlog' & Hsel' & Hzero & _);
    [apply Hthumb; now right | vm_compute; reflexivity |].
  split.
  - split; [apply Hthumb; now left |]. split; [exact Hid |].
    split; [| split; [exact Hsel | exact Hurl]].
    fold good in Hlog. rewrite Hlog. apply in_or_app. right.
    apply in_or_app. right. left.
    injection Hkey as <-. reflexivity.
  - split; [apply Hthumb; now right |].
    split; [| split; [exact Hsel' | exact Hzero]].
    fold bad in Hlog'. rewrite Hlog'. vm_compute. reflexivity.
Defined.

(* ================================================================== *)
(** ** The calendar behind the permlink *)

Module CalendarFacts.

Import JsDate Calendar StringFacts.
Local Open Scope Z_scope.

Lemma days_ok_all count : forall from z,
  days_ok count from = true ->
  from <= z < from + Z.of_nat count -> day_ok z = true.
Proof.
  induction count as [|n IH]; intros from z H Hz; [lia |].
  cbn [days_ok] in H. apply andb_prop in H as [Hfrom Hrest].
  destruct (Z.eq_dec z from) as [-> | Hne]; [exact Hfrom |].
  apply (IH (from + 1)); [exact Hrest | lia].
Qed.

Lemma era_ok doe : 0 <= doe < 146097 -> day_ok doe = true.
Proof.
  intros H. apply (days_ok_all (Z.to_nat 146097) 0); [| lia].
  vm_cast_no_check (eq_refl true).
Qed.

Lemma civil_from_days_era z :
  civil_from_days z
  = civil_of_era ((z + 719468) / 146097) ((z + 719468) mod 146097).
Proof.
  unfold civil_from_days, civil_of_era.
  rewrite (Z.mod_eq (z + 719468) 146097) by lia.
  replace (146097 * ((z + 719468) / 146097))
    with ((z + 719468) / 146097 * 146097) by lia.
  reflexivity.
Qed.

Lemma civil_of_era_shift era doe :
  civil_of_era era doe
  = let '(y, m, d) := civil_of_era 0 doe in (y + 400 * era, m, d).
Proof.
  unfold civil_of_era. cbv zeta. f_equal. f_equal. lia.
Qed.

Lemma days_from_civil_shift y m d era :
  days_from_civil (y + 400 * era) m d = days_from_civil y m d + 146097 * era.
Proof.
  unfold days_from_civil.
  assert (Hshift : forall y',
    let era' := (y' + era * 400) / 400 in
    era' = y' / 400 + era /\
    y' + era * 400 - era' * 400 = y' - y' / 400 * 400).
  { intros y'. cbv zeta. rewrite Z.div_add by lia. lia. }
  destruct (m <=? 2).
  - replace (y + 400 * era - 1) with (y - 1 + era * 400) by lia.
    destruct (Hshift (y - 1)) as [-> Hyoe]. rewrite Hyoe. lia.
  - replace (y + 400 * era) with (y + era * 400) by lia.
    destruct (Hshift y) as [He Hyoe]. cbv zeta in *. rewrite Hyoe, He. lia.
Qed.

(** The date of a day leads back to the day, and is well formed. *)
Lemma civil_roundtrip z :
  let '(y, m, d) := civil_from_days z in
  days_from_civil y m d = z /\ 1 <= m <= 12 /\ 1 <= d <= 31.
Proof.
  rewrite civil_from_days_era, civil_of_era_shift.
  pose proof (Z.mod_pos_bound (z + 719468) 146097 eq_refl) as Hdoe.
  pose proof (era_ok _ Hdoe) as Hok. unfold day_ok in Hok.
  destruct (civil_of_era 0 ((z + 719468) mod 146097)) as [[y m] d].
  rewrite days_from_civil_shift.
  repeat (apply andb_prop in Hok as [Hok ?]).
  apply Z.eqb_eq in Hok.
  pose proof (Z.div_mod (z + 719468) 146097). lia.
Qed.

Lemma civil_from_days_inj z1 z2 :
  civil_from_days z1 = civil_from_days z2 -> z1 = z2.
Proof.
  intros H. pose proof (civil_roundtrip z1) as H1.
  pose proof (civil_roundtrip z2) as H2. rewrite H in H1.
  destruct (civil_from_days z2) as [[y m] d]. lia.
Qed.

End CalendarFacts.

Module PermlinkShape.

Import JsDate Calendar StringFacts.
Local Open Scope Z_scope.

Lemma time_fields t :
  t = Day t * msPerDay + HourFromTime t * msPerHour
      + MinFromTime t * msPerMinute + SecFromTime t * msPerSecond
      + msFromTime t /\
  0 <= HourFromTime t < 24 /\ 0 <= MinFromTime t < 60 /\
  0 <= SecFromTime t < 60 /\ 0 <= msFromTime t < 1000.
Proof.
  unfold Day, HourFromTime, MinFromTime, SecFromTime, msFromTime,
    msPerDay, msPerHour, msPerMinute, msPerSecond.
  Z.div_mod_to_equations. lia.
Qed.

(** The years 1970 to 9999 are exactly the time values from 0 up to the
    first millisecond of the year 10000. *)
Lemma four_digit_year t :
  four_digit_era t -> 1970 <= YearFromTime t <= 9999.
Proof.
  unfold four_digit_era, year_10000, YearFromTime. intros Ht.
  assert (Hday : 0 <= Day t <= 2932896)
    by (unfold Day, msPerDay; Z.div_mod_to_equations; lia).
  pose proof (CalendarFacts.civil_roundtrip (Day t)) as Hrt.
  destruct (civil_from_days (Day t)) as [[y m] d]. cbn [fst].
  destruct Hrt as (Hback & Hm & Hd). unfold days_from_civil in Hback.
  destruct (m <=? 2) eqn:Em, (2 <? m) eqn:Em';
    Z.div_mod_to_equations; lia.
Qed.

Lemma pad2_inj a b :
  0 <= a < 100 -> 0 <= b < 100 -> pad 2 a = pad 2 b -> a = b.
Proof.
  intros Ha Hb H. cbn [pad append] in H. injection H as H1 H0.
  apply PermlinkFacts.digit_inj in H0, H1. Z.div_mod_to_equations. lia.
Qed.

Lemma pad4_inj a b :
  0 <= a < 10000 -> 0 <= b < 10000 -> pad 4 a = pad 4 b -> a = b.
Proof.
  intros Ha Hb H. cbn [pad append] in H. injection H as H3 H2 H1 H0.
  apply PermlinkFacts.digit_inj in H0, H1, H2, H3.
  Z.div_mod_to_equations. lia.
Qed.

Lemma append_same_head (a b c d : string) :
  String.length a = String.length c -> a +++ b = c +++ d -> a = c /\ b = d.
Proof.
  revert c. induction a as [|x a IH]; intros [|y c] Hlen H;
    try discriminate Hlen.
  - now split.
  - cbn [append] in H. injection H as -> H. injection Hlen as Hlen.
    destruct (IH c Hlen H) as [-> ->]. now split.
Qed.

(** In the years that print with four digits the permlink is the
    fields of the timestamp, each at its fixed width. *)
Lemma permlink_fields t :
  four_digit_era t ->
  permlink_of t
  = pad 4 (YearFromTime t) +++ pad 2 (MonthFromTime t)
      +++ pad 2 (DateFromTime t) +++ "t" +++ pad 2 (HourFromTime t)
      +++ pad 2 (MinFromTime t) +++ pad 2 (SecFromTime t)
      +++ pad 3 (msFromTime t) +++ "z".
Proof.
  intros Ht. pose proof (four_digit_year t Ht) as Hy.
  unfold permlink_of, toISOString, year_string.
  replace ((0 <=? YearFromTime t) && (YearFromTime t <=? 9999)) with true
    by (symmetry; apply andb_true_intro; split; apply Z.leb_le; lia).
  rewrite !keep_append, !toLowerCase_append.
  rewrite !(fun w n => proj1 (PermlinkFacts.pad_plain w n)).
  rewrite !(fun w n => proj2 (PermlinkFacts.pad_plain w n)).
  replace (toLowerCase (keep is_alnum "-")) with "" by (vm_compute; reflexivity).
  replace (toLowerCase (keep is_alnum ":")) with "" by (vm_compute; reflexivity).
  replace (toLowerCase (keep is_alnum ".")) with "" by (vm_compute; reflexivity).
  replace (toLowerCase (keep is_alnum "T")) with "t" by (vm_compute; reflexivity).
  replace (toLowerCase (keep is_alnum "Z")) with "z" by (vm_compute; reflexivity).
  reflexivity.
Qed.

Lemma alnum_lowered c :
  is_alnum c = true ->
  is_digit (lower_char c) || is_lower (lower_char c) = true.
Proof.
  destruct c as [[] [] [] [] [] [] [] []]; vm_compute; intros H;
    first [reflexivity | discriminate H].
Qed.

Lemma plain_lowered s : plain (toLowerCase (keep is_alnum s)) = true.
Proof.
  induction s as [|c s IH]; [reflexivity |].
  cbn [keep]. destruct (is_alnum c) eqn:Hc; [| exact IH].
  cbn [toLowerCase plain]. now rewrite (alnum_lowered c Hc), IH.
Qed.

End PermlinkShape.

(** X1: a permlink never holds anything but digits and lower-case
    letters, whatever the submit time; for the submit times of the
    years 1970 to 9999 it is 19 characters long. *)
Theorem X1_permlink_alphabet_and_length :
  (forall t, Calendar.plain (JsDate.permlink_of t) = true) /\
  (forall t, Calendar.four_digit_era t ->
             String.length (JsDate.permlink_of t) = 19).
Proof.
  split.
  - intros t. apply PermlinkShape.plain_lowered.
  - intros t Ht. rewrite (PermlinkShape.permlink_fields t Ht).
    rewrite !StringFacts.length_append, !PermlinkFacts.pad_length.
    reflexivity.
Qed.

Lemma X1_permlink_alphabet_and_length_witness :
  Calendar.four_digit_era 1700000000123%Z /\
  String.length (JsDate.permlink_of 1700000000123%Z) = 19.
Proof.
  assert (H : Calendar.four_digit_era 1700000000123%Z)
    by (unfold Calendar.four_digit_era, Calendar.year_10000; lia).
  split; [exact H |].
  exact (proj2 X1_permlink_alphabet_and_length 1700000000123%Z H).
Defined.

(** X2: among the submit times of the years 1970 to 9999 the permlink
    determines the timestamp: two submissions get the same permlink only
    when they are made in the same millisecond. *)
Theorem X2_permlink_injective (t1 t2 : JsDate.time) :
  Calendar.four_digit_era t1 -> Calendar.four_digit_era t2 ->
  JsDate.permlink_of t1 = JsDate.permlink_of t2 -> t1 = t2.
Proof.
  intros H1 H2 H.
  rewrite (PermlinkShape.permlink_fields t1 H1),
    (PermlinkShape.permlink_fields t2 H2) in H.
  pose proof (PermlinkShape.four_digit_year t1 H1) as Hy1.
  pose proof (PermlinkShape.four_digit_year t2 H2) as Hy2.
  pose proof (CalendarFacts.civil_roundtrip (JsDate.Day t1)) as Hc1.
  pose proof (CalendarFacts.civil_roundtrip (JsDate.Day t2)) as Hc2.
  pose proof (PermlinkShape.time_fields t1) as (Ht1 & Hh1 & Hm1 & Hs1 & Hms1).
  pose proof (PermlinkShape.time_fields t2) as (Ht2 & Hh2 & Hm2 & Hs2 & Hms2).
  assert (Hlen : forall w a b, String.length (JsDate.pad w a)
                               = String.length (JsDate.pad w b))
    by (intros; now rewrite !PermlinkFacts.pad_length).
  apply PermlinkShape.append_same_head in H as [Hy H]; [| apply Hlen].
  apply PermlinkShape.append_same_head in H as [Hmo H]; [| apply Hlen].
  apply PermlinkShape.append_same_head in H as [Hd H]; [| apply Hlen].
  apply PermlinkShape.append_same_head in H as [_ H]; [| reflexivity].
  apply PermlinkShape.append_same_head in H as [Hh H]; [| apply Hlen].
  apply PermlinkShape.append_same_head in H as [Hmi H]; [| apply Hlen].
  apply PermlinkShape.append_same_head in H as [Hs H]; [| apply Hlen].
  apply PermlinkShape.append_same_head in H as [Hms _]; [| apply Hlen].
  unfold JsDate.YearFromTime, JsDate.MonthFromTime, JsDate.DateFromTime in *.
  assert (Hday : JsDate.Day t1 = JsDate.Day t2).
  { apply CalendarFacts.civil_from_days_inj.
    destruct (JsDate.civil_from_days (JsDate.Day t1)) as [[y1 m1] d1].
    destruct (JsDate.civil_from_days (JsDate.Day t2)) as [[y2 m2] d2].
    cbn [fst snd] in *.
    apply PermlinkShape.pad4_inj in Hy; [| lia | lia].
    apply PermlinkShape.pad2_inj in Hmo; [| lia | lia].
    apply PermlinkShape.pad2_inj in Hd; [| lia | lia].
    now subst. }
  apply PermlinkShape.pad2_inj in Hh; [| lia | lia].
  apply PermlinkShape.pad2_inj in Hmi; [| lia | lia].
  apply PermlinkShape.pad2_inj in Hs; [| lia | lia].
  apply PermlinkFacts.pad3_inj in Hms; [| lia | lia].
  rewrite Ht1, Ht2, Hday, Hh, Hmi, Hs, Hms. reflexivity.
Qed.

Lemma X2_permlink_injective_witness :
  Calendar.four_digit_era 0%Z /\
  Calendar.four_digit_era 253402300799999%Z /\
  (JsDate.permlink_of 0%Z = JsDate.permlink_of 253402300799999%Z ->
   0%Z = 253402300799999%Z).
Proof.
  assert (H1 : Calendar.four_digit_era 0%Z)
    by (unfold Calendar.four_digit_era, Calendar.year_10000; lia).
  assert (H2 : Calendar.four_digit_era 253402300799999%Z)
    by (unfold Calendar.four_digit_era, Calendar.year_10000; lia).
  split; [exact H1 |]. split; [exact H2 |].
  exact (X2_permlink_injective 0%Z 253402300799999%Z H1 H2).
Defined.

(* ================================================================== *)
(** ** More about hashtags *)

Module HashtagFacts.

Import Tags Spec Notions StringFacts TagFacts MediaTagFacts.

Lemma position_tag s t :
  In t (tags_by_position s) ->
  t <> "" /\ all_word t = true /\ embedded (String "#" t) s.
Proof.
  induction s as [|c s IH]; [intros [] |].
  cbn [tags_by_position].
  assert (Hlater : In t (tags_by_position s) ->
                   t <> "" /\ all_word t = true /\
                   embedded (String "#" t) (String c s)).
  { intros H. destruct (IH H) as (H1 & H2 & H3). repeat split; auto.
    apply (embedded_after _ s (String c "")) in H3. exact H3. }
  destruct (Ascii.eqb c "#") eqn:E; [| exact Hlater].
  destruct (take_while is_word s) as [|x run] eqn:Hrun; [exact Hlater |].
  intros [<- | H]; [| now apply Hlater].
  apply Ascii.eqb_eq in E. subst c.
  split; [discriminate |]. split.
  - rewrite <- Hrun. apply take_while_all_word.
  - exists "", (drop_while is_word s). split; [| apply drop_while_stops].
    rewrite <- Hrun. cbn [append]. now rewrite take_drop.
Qed.

Lemma position_count s : List.length (tags_by_position s) <= count_hash s.
Proof.
  induction s as [|c s IH]; [apply Nat.le_refl |].
  cbn [tags_by_position count_hash].
  destruct (Ascii.eqb c "#"); [| exact IH].
  destruct (take_while is_word s); cbn [List.length]; lia.
Qed.

Lemma position_append a b :
  starts_with_word b = false ->
  tags_by_position (a +++ b) = tags_by_position a ++ tags_by_position b.
Proof.
  intros Hb. induction a as [|c a IH]; [reflexivity |].
  cbn [append tags_by_position].
  rewrite (take_while_before a b Hb), IH.
  destruct (Ascii.eqb c "#"); [| reflexivity].
  destruct (take_while is_word a); reflexivity.
Qed.

End HashtagFacts.

(** X3: every hashtag [extractHashtags] returns is a non-empty run of
    word characters that stands in the text right after a ['#'] and is
    not followed by a further word character; there are at most as many
    hashtags as the text has ['#'] characters. *)
Theorem X3_hashtags_are_word_runs (text : string) :
  (forall t, In t (Tags.extractHashtags text) ->
             t <> "" /\ Spec.all_word t = true /\
             Spec.embedded (String "#" t) text) /\
  List.length (Tags.extractHashtags text) <= Notions.count_hash text.
Proof.
  rewrite TagFacts.extractHashtags_by_position. split.
  - intros t. apply HashtagFacts.position_tag.
  - apply HashtagFacts.position_count.
Qed.

Lemma X3_hashtags_are_word_runs_witness :
  In "b_1" (Tags.extractHashtags "a## #b_1-c #") /\
  Spec.all_word "b_1" = true /\
  Spec.embedded "#b_1" "a## #b_1-c #".
Proof.
  assert (H : In "b_1" (Tags.extractHashtags "a## #b_1-c #"))
    by (vm_compute; left; reflexivity).
  destruct (proj1 (X3_hashtags_are_word_runs "a## #b_1-c #") "b_1" H)
    as (_ & Hw & He).
  split; [exact H |]. split; [exact Hw | exact He].
Defined.

(** X4: the hashtags of a text followed by something that does not
    begin with a word character are the hashtags of the text and then
    those of what follows.  So the hashtags of a composed body are those
    of the draft, then those of the video paragraph, of the image
    paragraph and of the GIF paragraph: appending media never alters a
    hashtag of the draft. *)
Theorem X4_hashtags_of_concatenation :
  (forall a b, Spec.starts_with_word b = false ->
               Tags.extractHashtags (a +++ b)
               = Tags.extractHashtags a ++ Tags.extractHashtags b) /\
  (forall st validUrls,
      Tags.extractHashtags (Composer.compose st validUrls)
      = Tags.extractHashtags (draft st)
          ++ Tags.extractHashtags (Spec.video_paragraph (videoEmbedUrl st))
          ++ Tags.extractHashtags (Spec.images_paragraph validUrls)
          ++ Tags.extractHashtags (Spec.gif_paragraph (selectedGif st))).
Proof.
  assert (Happ : forall a b, Spec.starts_with_word b = false ->
                   Tags.extractHashtags (a +++ b)
                   = Tags.extractHashtags a ++ Tags.extractHashtags b).
  { intros a b Hb. rewrite !TagFacts.extractHashtags_by_position.
    now apply HashtagFacts.position_append. }
  split; [exact Happ |].
  intros st validUrls. rewrite BodyFacts.compose_paragraphs.
  destruct (MediaTagFacts.paragraphs_start st validUrls) as [Himg Hgif].
  assert (Hvid : Spec.starts_with_word
                   (Spec.video_paragraph (videoEmbedUrl st)) = false)
    by (unfold Spec.video_paragraph;
        destruct (truthy_opt (videoEmbedUrl st)); reflexivity).
  rewrite Happ.
  2:{ now repeat apply MediaTagFacts.starts_with_word_append. }
  rewrite Happ.
  2:{ now apply MediaTagFacts.starts_with_word_append. }
  rewrite Happ by exact Hgif. reflexivity.
Qed.

Lemma X4_hashtags_of_concatenation_witness :
  Spec.starts_with_word (newline +++ "x#b") = false /\
  Tags.extractHashtags ("see #a" +++ newline +++ "x#b") = ["a"; "b"].
Proof.
  assert (H : Spec.starts_with_word (newline +++ "x#b") = false)
    by reflexivity.
  split; [exact H |].
  rewrite (proj1 X4_hashtags_of_concatenation "see #a" _ H).
  vm_compute. reflexivity.
Defined.

(* ================================================================== *)
(** ** The guards and the [finally] of [handleComment] *)

Module TrimFacts.

Import Notions.

Lemma all_space_list s :
  all_space s = forallb is_space (list_ascii_of_string s).
Proof. induction s as [|c s IH]; simpl; [reflexivity | now rewrite IH]. Qed.

Lemma forallb_rev {A} (p : A -> bool) l : forallb p (List.rev l) = forallb p l.
Proof.
  induction l as [|x l IH]; [reflexivity |].
  simpl. rewrite forallb_app, IH. simpl. rewrite andb_true_r. apply andb_comm.
Qed.

Lemma all_space_rev s : all_space (rev s) = all_space s.
Proof.
  unfold rev. rewrite !all_space_list, list_ascii_of_string_of_list_ascii.
  apply forallb_rev.
Qed.

Lemma rev_empty s : rev s = "" -> s = "".
Proof.
  unfold rev. intros H. apply (f_equal list_ascii_of_string) in H.
  rewrite list_ascii_of_string_of_list_ascii in H. simpl in H.
  destruct s as [|c s]; [reflexivity |]. simpl in H.
  apply app_eq_nil in H as [_ H]. discriminate H.
Qed.

Lemma drop_spaces_empty s :
  drop_while is_space s = "" <-> all_space s = true.
Proof.
  induction s as [|c s IH]; simpl; [tauto |].
  destruct (is_space c); simpl; [exact IH |]. split; discriminate.
Qed.

Lemma all_space_dropped s :
  all_space (drop_while is_space s) = true -> all_space s = true.
Proof.
  induction s as [|c s IH]; simpl; [auto |].
  destruct (is_space c) eqn:Hc; simpl; [exact IH |]. now rewrite Hc.
Qed.

(** [trim] leaves nothing exactly when the text is white space. *)
Lemma trim_blank s : truthy (trim s) = false <-> all_space s = true.
Proof.
  unfold trim. split.
  - intros H.
    assert (Hrev : rev (drop_while is_space (rev (drop_while is_space s))) = "")
      by (destruct (rev _); [reflexivity | discriminate H]).
    apply rev_empty, drop_spaces_empty in Hrev.
    rewrite all_space_rev in Hrev. now apply all_space_dropped.
  - intros H. apply drop_spaces_empty in H. rewrite H. reflexivity.
Qed.

End TrimFacts.

Module RunFacts.

Import Composer Video Spec SubmitFacts.







End RunFacts.

(** X5: [handleComment] refuses to start without a logged-in user, and
    refuses a draft that is only white space with no image, GIF or
    video: in both cases it shows one message, issues no request and
    leaves the state as it was.  Any other event in the log of a run
    means that the user was logged in and that the draft had text or an
    attachment. *)
Theorem X5_nothing_happens_behind_the_guards (w : World) (props : Props)
  (st : ComposerState) :
  (truthy_opt (user props) = false ->
   Composer.handleComment w props st
   = (Video.Returned, st, [alert "You must be logged in to post."])) /\
  (truthy_opt (user props) = true ->
   Notions.all_space (draft st) = true -> images st = [] ->
   selectedGif st = None -> selectedVideo st = None ->
   Composer.handleComment w props st
   = (Video.Returned, st, [alert Composer.empty_msg])) /\
  (forall e, In e (snd (Composer.handleComment w props st)) ->
             Spec.is_alert e = false ->
             truthy_opt (user props) = true /\
             (Notions.all_space (draft st) = false \/ images st <> [] \/
              selectedGif st <> None \/ selectedVideo st <> None)).
Proof.
  unfold Composer.handleComment, Composer.nothing_to_post.
  split; [| split].
  - intros ->. reflexivity.
  - intros -> Hblank -> -> ->.
    apply TrimFacts.trim_blank in Hblank. rewrite Hblank. reflexivity.
  - intros e.
    destruct (truthy_opt (user props)); cbn [negb].
    2:{ intros [<- | []] H. discriminate H. }
    destruct (truthy (trim (draft st))) eqn:Htrim; cbn [negb andb].
    { intros _ _. split; [reflexivity |]. left.
      destruct (Notions.all_space (draft st)) eqn:Hs; [| reflexivity].
      apply TrimFacts.trim_blank in Hs. congruence. }
    destruct (images st) as [|x rest]; cbn [List.length Nat.eqb andb].
    2:{ intros _ _. split; [reflexivity |]. right. left. discriminate. }
    destruct (selectedGif st); cbn [Composer.is_some negb andb].
    { intros _ _. split; [reflexivity |]. right. right. left. discriminate. }
    destruct (selectedVideo st); cbn [Composer.is_some negb andb].
    { intros _ _. split; [reflexivity |]. do 3 right. discriminate. }
    intros [<- | []] H. discriminate H.
Qed.

Lemma X5_nothing_happens_behind_the_guards_witness :
  let blank := setDraft (" " +++ newline) Scenario.empty in
  Notions.all_space (draft blank) = true /\
  Composer.handleComment Scenario.calm Scenario.reply_to blank
  = (Video.Returned, blank, [alert Composer.empty_msg]).
Proof.
  intros blank.
  assert (H : Notions.all_space (draft blank) = true) by reflexivity.
  split; [exact H |].
  apply (X5_nothing_happens_behind_the_guards Scenario.calm Scenario.reply_to
           blank); reflexivity.
Defined.



Module StuckFacts.

Import Composer Spec.



End StuckFacts.





(** X9: the comment of every submission is addressed to the parent
    author of the props and to the container the lookup returned when
    the parent permlink is the reserved tag, otherwise to the parent
    permlink of the props; the lookup is requested only in the first
    case.  Its title is empty, its application identifier is
    [mycommunity], its author is the logged-in user and not empty, and
    its body is not empty and begins with the draft. *)
Theorem X9_submitted_comment_fields (w : World) (props : Props)
  (st : ComposerState) (s : Submission) :
  In (submit s) (snd (Composer.handleComment w props st)) ->
  exists c others,
    Composer.ledger_operations (or_empty (user props)) s = comment c :: others /\
    parent_author c = pa props /\
    (pp props = "snaps" ->
     getLastSnapsContainer w = Fulfilled (parent_permlink c)) /\
    (pp props <> "snaps" -> parent_permlink c = pp props) /\
    (In call_getLastSnapsContainer (snd (Composer.handleComment w props st))
     <-> pp props = "snaps") /\
    title c = "" /\ app (json_metadata c) = "mycommunity" /\
    author c = or_empty (user props) /\ truthy (author c) = true /\
    truthy (body c) = true /\
    exists appended, body c = draft st +++ appended.
Proof.
  intros Hin.
  destruct (SubmitFacts.handleComment_submits w props st s Hin)
    as (validUrls & pp' & Huser & _ & _ & Hpp & Hbody & Hs & Hrun).
  cbv zeta in Hrun.
  assert (Hlog : In call_getLastSnapsContainer
                   (snd (Composer.handleComment w props st))
                 <-> pp props = "snaps").
  { rewrite Hrun. cbn [snd]. unfold Composer.resolve_container.
    destruct (String.eqb (pp props) Tags.reserved_tag) eqn:E.
    - apply String.eqb_eq in E. split; [intros _; exact E |].
      intros _. apply in_or_app. right. now left.
    - apply String.eqb_neq in E. split; [| intros H; contradiction].
      intros H. apply in_app_or in H as [H | H].
      + apply SubmitFacts.upload_images_log in H. discriminate H.
      + cbn in H. destruct H as [H | H]; [discriminate H |].
        apply SubmitFacts.respond_log in H as [H | H]; discriminate H. }
  assert (Hroute : (pp props = "snaps" ->
                    getLastSnapsContainer w = Fulfilled pp') /\
                   (pp props <> "snaps" -> pp' = pp props)).
  { unfold Composer.resolve_container in Hpp.
    destruct (String.eqb (pp props) Tags.reserved_tag) eqn:E; cbn in Hpp.
    - apply String.eqb_eq in E. split; [intros _; exact Hpp |].
      intros H. contradiction.
    - apply String.eqb_neq in E. injection Hpp as <-.
      split; [intros H; contradiction | reflexivity]. }
  assert (Hprefix : exists appended,
             Composer.compose st validUrls = draft st +++ appended)
    by (rewrite BodyFacts.compose_paragraphs; eexists; reflexivity).
  subst s. unfold Spec.the_submission, Composer.build_submission.
  destruct (truthy_opt (videoEmbedUrl st));
    cbn [Composer.ledger_operations]; unfold Composer.commentOp;
    eexists; eexists; (split; [reflexivity |]);
    cbn [parent_author parent_permlink title json_metadata app author body
         Composer.metadata];
    repeat split; try reflexivity; try tauto; exact Huser.
Qed.

Lemma X9_submitted_comment_fields_witness :
  let s := Spec.the_submission Scenario.calm Scenario.to_snaps
             Scenario.with_photos
             ["https://images.hive.blog/a.png"; "https://images.hive.blog/b.png"]
             "snap-container-1700000000" in
  In (submit s)
     (snd (Composer.handleComment Scenario.calm Scenario.to_snaps
             Scenario.with_photos)) /\
  exists c others,
    Composer.ledger_operations "bob" s = comment c :: others /\
    parent_permlink c = "snap-container-1700000000".
Proof.
  intros s.
  assert (Hin : In (submit s)
                  (snd (Composer.handleComment Scenario.calm Scenario.to_snaps
                          Scenario.with_photos)))
    by (vm_compute; do 5 right; left; reflexivity).
  split; [exact Hin |].
  destruct (X9_submitted_comment_fields Scenario.calm Scenario.to_snaps
              Scenario.with_photos s Hin)
    as (c & others & Hops & _ & Hsnaps & _).
  exists c, others. split; [exact Hops |].
  specialize (Hsnaps eq_refl). cbn in Hsnaps. now injection Hsnaps.
Defined.

(** X10: the keyboard shortcut runs [handleComment] for Ctrl+Enter and
    does nothing for any other key.  It does not look at the condition
    that disables the Post button: pressed while a video is selected
    whose embed reference has not arrived, it can submit, and what it
    submits is a single comment whose body is the draft with the image
    and GIF paragraphs and without a video paragraph. *)
Theorem X10_shortcut_while_video_uploads (w : World) (props : Props)
  (event : ComposerUI.KeyboardEvent) (st : ComposerState) :
  (ComposerUI.ctrlKey event && String.eqb (ComposerUI.key event) "Enter" = false ->
   ComposerUI.handleKeyDown w props event st = (Video.Returned, st, [])) /\
  (ComposerUI.ctrlKey event = true -> ComposerUI.key event = "Enter" ->
   forall file s,
     selectedVideo st = Some file -> videoEmbedUrl st = None ->
     In (submit s) (snd (ComposerUI.handleKeyDown w props event st)) ->
     ComposerUI.postDisabled (user props) st = true /\
     exists c,
       Composer.ledger_operations (or_empty (user props)) s = [comment c] /\
       body c = draft st
                  +++ Spec.images_paragraph (Spec.uploaded_urls w 0 (images st))
                  +++ Spec.gif_paragraph (selectedGif st)).
Proof.
  unfold ComposerUI.handleKeyDown. split.
  - intros ->. reflexivity.
  - intros -> -> file s Hsel Hembed Hin. cbn [andb String.eqb] in Hin.
    change (String.eqb "Enter" "Enter") with true in Hin. cbv iota in Hin.
    split.
    + unfold ComposerUI.postDisabled. rewrite Hsel, Hembed.
      cbn. apply orb_true_r.
    + destruct (SubmitFacts.handleComment_submits w props st s Hin)
        as (validUrls & pp' & _ & _ & Hup & _ & _ & -> & _).
      apply BodyFacts.upload_images_fulfilled in Hup. subst validUrls.
      unfold Spec.the_submission, Composer.build_submission.
      rewrite Hembed. cbn [truthy_opt or_empty truthy].
      cbn [Composer.ledger_operations]. eexists. split; [reflexivity |].
      cbn [body]. rewrite BodyFacts.compose_paragraphs, Hembed. reflexivity.
Qed.

Lemma X10_shortcut_while_video_uploads_witness :
  let run := ComposerUI.handleKeyDown Scenario.calm Scenario.reply_to
               Runs.ctrl_enter Runs.uploading in
  let s := Spec.the_submission Scenario.calm Scenario.reply_to Runs.uploading
             [] "re-post" in
  In (submit s) (snd run) /\
  ComposerUI.postDisabled (Some "bob") Runs.uploading = true /\
  exists c, Composer.ledger_operations "bob" s = [comment c] /\
            body c = "first!".
Proof.
  intros run s.
  assert (Hin : In (submit s) (snd run)) by (vm_compute; left; reflexivity).
  split; [exact Hin |].
  destruct (proj2 (X10_shortcut_while_video_uploads Scenario.calm
                     Scenario.reply_to Runs.ctrl_enter Runs.uploading)
              eq_refl eq_refl Scenario.clip s eq_refl eq_refl Hin)
    as (Hdisabled & c & Hops & Hbody).
  split; [exact Hdisabled |]. exists c. split; [exact Hops |].
  rewrite Hbody. reflexivity.
Defined.

(* ================================================================== *)
(** ** More about the video upload and its orchestration *)

Module UploadFacts.

Import Video Notions.

Lemma headers_none hs : forall seen,
  Forall no_header hs -> fold_left observe_header hs seen = seen.
Proof.
  induction hs as [|h hs IH]; intros seen H; [reflexivity |].
  inversion H as [|? ? Hh Hrest]; subst. cbn [fold_left].
  unfold observe_header at 2. unfold no_header in Hh. rewrite Hh.
  now apply IH.
Qed.

Lemma headers_last before u after : forall seen,
  truthy u = true -> Forall no_header after ->
  fold_left observe_header (before ++ Some u :: after) seen = Some u.
Proof.
  intros seen Hu Hafter. rewrite fold_left_app. cbn [fold_left].
  rewrite (headers_none after _ Hafter).
  unfold observe_header, truthy_opt. cbn [or_empty]. now rewrite Hu.
Qed.

Lemma progress_frame ps : forall st,
  same_draft st
    (fold_left (fun s percentage => setVideoUploadProgress percentage s) ps st).
Proof.
  induction ps as [|p ps IH]; intros st; cbn [fold_left].
  - now repeat split.
  - destruct (IH (setVideoUploadProgress p st)) as (H1 & H2 & H3 & H4 & H5).
    repeat split; assumption.
Qed.

Lemma upload_frame w user file st :
  same_draft st (snd (fst (uploadVideoToThreeSpeak w user file st))).
Proof.
  unfold uploadVideoToThreeSpeak.
  destruct (negb (truthy (or_empty (NEXT_PUBLIC_3SPEAK_API_KEY w)))
            || String.eqb (or_empty (NEXT_PUBLIC_3SPEAK_API_KEY w)) "");
    [now repeat split |].
  pose proof (progress_frame (progress (tus_run w file)) st) as H.
  destruct (tus_error (tus_run w file)).
  - cbn [fst snd]. destruct H as (H1 & H2 & H3 & H4 & H5).
    repeat split; assumption.
  - destruct (truthy_opt _); exact H.
Qed.

Lemma upload_fulfilled_truthy w user file st embed :
  fst (fst (uploadVideoToThreeSpeak w user file st)) = Fulfilled embed ->
  truthy embed = true.
Proof.
  unfold uploadVideoToThreeSpeak.
  destruct (negb (truthy (or_empty (NEXT_PUBLIC_3SPEAK_API_KEY w)))
            || String.eqb (or_empty (NEXT_PUBLIC_3SPEAK_API_KEY w)) "");
    [discriminate |].
  destruct (tus_error (tus_run w file)); [discriminate |].
  destruct (truthy_opt
              (fold_left observe_header (embed_headers (tus_run w file)) None))
    eqn:E; [| discriminate].
  cbn [fst]. intros H. injection H as <-. exact E.
Qed.

End UploadFacts.

(** X11: with the API key present, an upload that the transport
    completes resolves to the last non-empty [X-Embed-URL] header any
    response carried, and rejects with 'Failed to get embed URL from
    server' when no response carried one; an upload the transport gives
    up on rejects with the transport's reason after deselecting the
    video and zeroing its progress.  A fulfilled upload never yields an
    empty embed reference. *)
Theorem X11_embed_reference_from_headers (w : World) (user : option string)
  (file : File) (st : ComposerState) :
  let run := Video.uploadVideoToThreeSpeak w user file st in
  (truthy_opt (NEXT_PUBLIC_3SPEAK_API_KEY w) = true ->
   tus_error (tus_run w file) = None ->
   (forall before u after,
       embed_headers (tus_run w file) = before ++ Some u :: after ->
       truthy u = true -> Forall Notions.no_header after ->
       fst (fst run) = Fulfilled u) /\
   (Forall Notions.no_header (embed_headers (tus_run w file)) ->
    fst (fst run) = Rejected "Failed to get embed URL from server" /\
    selectedVideo (snd (fst run)) = selectedVideo st)) /\
  (truthy_opt (NEXT_PUBLIC_3SPEAK_API_KEY w) = true ->
   forall reason,
     tus_error (tus_run w file) = Some reason ->
     fst (fst run) = Rejected reason /\
     selectedVideo (snd (fst run)) = None /\
     videoUploadProgress (snd (fst run)) = 0%Z) /\
  (forall embed, fst (fst run) = Fulfilled embed -> truthy embed = true).
Proof.
  intros run. subst run. split; [| split].
  - intros Hkey Hdone. unfold Video.uploadVideoToThreeSpeak.
    unfold truthy_opt in Hkey. rewrite Hkey, Hdone. cbn [negb orb].
    assert (Hne : String.eqb (or_empty (NEXT_PUBLIC_3SPEAK_API_KEY w)) ""
                  = false)
      by (destruct (or_empty (NEXT_PUBLIC_3SPEAK_API_KEY w));
          [discriminate Hkey | reflexivity]).
    rewrite Hne. split.
    + intros before u after -> Hu Hafter.
      rewrite (UploadFacts.headers_last before u after None Hu Hafter).
      unfold truthy_opt. cbn [or_empty]. rewrite Hu. reflexivity.
    + intros Hnone. rewrite (UploadFacts.headers_none _ None Hnone).
      cbn [truthy_opt or_empty truthy fst snd]. split; [reflexivity |].
      apply VideoFacts.progress_keeps.
  - intros Hkey reason Hfail. unfold Video.uploadVideoToThreeSpeak.
    unfold truthy_opt in Hkey. rewrite Hkey, Hfail. cbn [negb orb].
    destruct (String.eqb (or_empty (NEXT_PUBLIC_3SPEAK_API_KEY w)) "") eqn:Hne.
    { apply String.eqb_eq in Hne. rewrite Hne in Hkey. discriminate Hkey. }
    repeat split; reflexivity.
  - intros embed. apply UploadFacts.upload_fulfilled_truthy.
Qed.

Lemma X11_embed_reference_from_headers_witness :
  let good := Video.uploadVideoToThreeSpeak Scenario.calm (Some "bob")
                Scenario.clip Scenario.empty in
  let bad := Video.uploadVideoToThreeSpeak Runs.no_header (Some "bob")
               Scenario.clip Scenario.empty in
  fst (fst good) = Fulfilled Scenario.embed /\
  Forall Notions.no_header (embed_headers (tus_run Runs.no_header Scenario.clip)) /\
  fst (fst bad) = Rejected "Failed to get embed URL from server".
Proof.
  intros good bad.
  assert (Hnone : Forall Notions.no_header
                    (embed_headers (tus_run Runs.no_header Scenario.clip)))
    by (repeat constructor).
  destruct (X11_embed_reference_from_headers Scenario.calm (Some "bob")
              Scenario.clip Scenario.empty) as (Hgood & _).
  destruct (X11_embed_reference_from_headers Runs.no_header (Some "bob")
              Scenario.clip Scenario.empty) as (Hbad & _).
  destruct (Hgood eq_refl eq_refl) as [Hlast _].
  destruct (Hbad eq_refl eq_refl) as [_ Hmissing].
  split; [| split; [exact Hnone | exact (proj1 (Hmissing Hnone))]].
  apply (Hlast [None] Scenario.embed []); [reflexivity | reflexivity |].
  constructor.
Defined.

Module SelectionFacts.

Import Video Notions.

(** Where [handleVideoSelection] ends, case by case. *)
Lemma selection_cases w user file st :
  let st0 := setThumbnailProcessing true
               (setVideoUploadProgress 1 (setSelectedVideo (Some file) st)) in
  let video := uploadVideoToThreeSpeak w user file st0 in
  let thumb := Publisher.extractAndUploadThumbnail w file in
  fst (handleVideoSelection w user file st)
  = match fst thumb with
    | None => (Pending, snd (fst video))
    | Some _ =>
        match fst (fst video) with
        | Fulfilled embed =>
            (Returned,
             setThumbnailProcessing false
               (setVideoEmbedUrl (Some embed) (snd (fst video))))
        | Rejected _ =>
            (Returned,
             setThumbnailProcessing false
               (setVideoUploadProgress 0
                  (setSelectedVideo None (snd (fst video)))))
        end
    end.
Proof.
  cbv zeta. unfold handleVideoSelection.
  destruct (uploadVideoToThreeSpeak w user file _)
    as [[videoResult st1] ev_video].
  destruct (Publisher.extractAndUploadThumbnail w file)
    as [[thumbnailResult |] ev_thumb]; cbn [fst snd]; [| reflexivity].
  destruct videoResult as [embed | reason]; [| reflexivity].
  destruct thumbnailResult as [thumbnailUrl | reason]; [| reflexivity].
  destruct (extractVideoId w embed) as [videoId |]; [| reflexivity].
  destruct (truthy videoId); reflexivity.
Qed.

End SelectionFacts.

(** X12: [handleVideoSelection] never touches the draft text, the
    images, the GIF, the loading flag or the per-image progress list,
    and it never throws.  When it has returned, the thumbnail-processing
    flag is off and either the video is deselected with its progress at
    zero, or it is still selected and has a non-empty embed reference:
    the Post button is then disabled only for the reasons that disable
    the whole composer.  While the thumbnail pipeline never settles the
    handler stays pending with the flag on. *)
Theorem X12_after_video_selection (w : World) (user : option string)
  (file : File) (st : ComposerState) :
  let run := Video.handleVideoSelection w user file st in
  let st' := snd (fst run) in
  Notions.same_draft st st' /\
  (forall reason, fst (fst run) <> Video.Threw reason) /\
  (fst (fst run) = Video.Returned ->
   thumbnailProcessing st' = false /\
   ((selectedVideo st' = None /\ videoUploadProgress st' = 0%Z) \/
    (selectedVideo st' = Some file /\
     exists embed, videoEmbedUrl st' = Some embed /\ truthy embed = true)) /\
   ComposerUI.postDisabled user st' = ComposerUI.isDisabled user st') /\
  (fst (fst run) = Video.Pending ->
   thumbnailProcessing st' = true /\
   fst (Publisher.extractAndUploadThumbnail w file) = None).
Proof.
  intros run st'. subst st' run.
  rewrite (SelectionFacts.selection_cases w user file st). cbv zeta.
  set (st0 := setThumbnailProcessing true
                (setVideoUploadProgress 1 (setSelectedVideo (Some file) st))).
  pose proof (UploadFacts.upload_frame w user file st0) as Hframe.
  pose proof (VideoFacts.upload_state w user file st0) as Hstate.
  pose proof (UploadFacts.upload_fulfilled_truthy w user file st0) as Htruthy.
  cbv zeta in Hstate.
  destruct (Video.uploadVideoToThreeSpeak w user file st0)
    as [[videoResult st1] ev_video].
  cbn [fst snd] in *.
  destruct Hframe as (F1 & F2 & F3 & F4 & F5).
  destruct Hstate as (_ & Hflag & Hok).
  destruct (fst (Publisher.extractAndUploadThumbnail w file))
    as [thumbnailResult |].
  - destruct videoResult as [embed | reason]; cbn [fst snd].
    + destruct (Hok embed eq_refl) as [Hsel _].
      specialize (Htruthy embed eq_refl).
      split; [repeat split; assumption |].
      split; [discriminate |]. split; [| discriminate].
      intros _. split; [reflexivity |]. split.
      * right. split; [exact Hsel |]. exists embed. now split.
      * unfold ComposerUI.postDisabled.
        cbn [videoEmbedUrl setThumbnailProcessing setVideoEmbedUrl].
        unfold truthy_opt. cbn [or_empty]. rewrite Htruthy. cbn [negb].
        now rewrite andb_false_r, orb_false_r.
    + split; [repeat split; assumption |].
      split; [discriminate |]. split; [| discriminate].
      intros _. split; [reflexivity |]. split; [left; now split |].
      unfold ComposerUI.postDisabled. cbn. apply orb_false_r.
  - cbn [fst snd]. split; [repeat split; assumption |].
    split; [discriminate |]. split; [discriminate |].
    intros _. split; [exact Hflag | reflexivity].
Qed.

Lemma X12_after_video_selection_witness :
  let st' := snd (fst (Video.handleVideoSelection Scenario.calm (Some "bob")
                         Scenario.clip Scenario.with_photos)) in
  fst (fst (Video.handleVideoSelection Scenario.calm (Some "bob")
              Scenario.clip Scenario.with_photos)) = Video.Returned /\
  thumbnailProcessing st' = false /\
  ComposerUI.postDisabled (Some "bob") st' = false /\
  images st' = [Scenario.photo1; Scenario.photo2].
Proof.
  intros st'.
  assert (Hret : fst (fst (Video.handleVideoSelection Scenario.calm
                             (Some "bob") Scenario.clip Scenario.with_photos))
                 = Video.Returned) by (vm_compute; reflexivity).
  destruct (X12_after_video_selection Scenario.calm (Some "bob") Scenario.clip
              Scenario.with_photos) as ((_ & Himg & _) & _ & Hdone & _).
  destruct (Hdone Hret) as (Hflag & _ & Hpost).
  split; [exact Hret |]. split; [exact Hflag |]. split.
  - fold st' in Hpost. rewrite Hpost. vm_compute. reflexivity.
  - exact Himg.
Defined.

(** X13: [extractVideoId] gives no identifier when the embed reference
    is not a URL, when it has no [v] parameter or an empty one, and when
    the parameter has no slash; for [owner/] it gives the empty
    identifier and for [a/b/c] the middle segment [b].  Whenever it
    gives none or the empty one, [handleVideoSelection] makes no
    association request, although video and thumbnail both succeeded,
    and still keeps the attachment. *)
Theorem X13_no_association_without_identifier (w : World)
  (user : option string) (file : File) (st : ComposerState) :
  (forall embed,
      (URL_searchParams_get w embed "v" = None \/
       URL_searchParams_get w embed "v" = Some None \/
       URL_searchParams_get w embed "v" = Some (Some "") \/
       exists v, URL_searchParams_get w embed "v" = Some (Some v) /\
                 Spec.contains "/" v = false) ->
      Video.extractVideoId w embed = None) /\
  (forall embed a b rest,
      URL_searchParams_get w embed "v"
      = Some (Some (a +++ "/" +++ b +++ rest)) ->
      Spec.contains "/" a = false -> Spec.contains "/" b = false ->
      rest = "" \/ (exists c, rest = String "/" c) ->
      Video.extractVideoId w embed = Some b) /\
  (forall embed thumbnailUrl,
      let st0 := setThumbnailProcessing true
                   (setVideoUploadProgress 1 (setSelectedVideo (Some file) st)) in
      let video := Video.uploadVideoToThreeSpeak w user file st0 in
      let thumb := Publisher.extractAndUploadThumbnail w file in
      let run := Video.handleVideoSelection w user file st in
      fst (fst video) = Fulfilled embed ->
      fst thumb = Some (Fulfilled thumbnailUrl) ->
      Video.extractVideoId w embed = None \/
      Video.extractVideoId w embed = Some "" ->
      snd run = snd video ++ snd thumb /\
      selectedVideo (snd (fst run)) = Some file /\
      videoEmbedUrl (snd (fst run)) = Some embed).
Proof.
  split; [| split].
  - intros embed H. unfold Video.extractVideoId.
    destruct H as [-> | [-> | [-> | (v & -> & Hv)]]]; try reflexivity.
    destruct (truthy_opt (Some v)); [| reflexivity]. cbn [or_empty].
    now rewrite (BodyFacts.split_plain "/" v Hv).
  - intros embed a b rest Hv Ha Hb Hrest. unfold Video.extractVideoId.
    rewrite Hv.
    assert (Htruthy : truthy_opt (Some (a +++ "/" +++ b +++ rest)) = true)
      by (destruct a; reflexivity).
    rewrite Htruthy. cbn [or_empty].
    change (a +++ "/" +++ b +++ rest) with (a +++ String "/" (b +++ rest)).
    rewrite (BodyFacts.split_line "/" a _ Ha).
    destruct Hrest as [-> | [c ->]].
    + rewrite StringFacts.append_nil_r, (BodyFacts.split_plain "/" b Hb).
      reflexivity.
    + rewrite (BodyFacts.split_line "/" b c Hb). reflexivity.
  - intros embed thumbnailUrl st0 video thumb run Hvideo Hthumb Hid.
    pose proof (VideoFacts.upload_state w user file st0) as Hstate.
    cbv zeta in Hstate. fold video in Hstate.
    destruct Hstate as (_ & _ & Hok).
    destruct (Hok embed Hvideo) as [Hsel _].
    subst run. unfold Video.handleVideoSelection.
    fold st0. fold video. fold thumb.
    destruct video as [[videoResult st1] ev_video].
    destruct thumb as [thumbnailSettled ev_thumb].
    cbn [fst snd] in *. subst videoResult thumbnailSettled.
    destruct Hid as [-> | ->]; cbn [truthy fst snd];
      rewrite app_nil_r; repeat split; try reflexivity; exact Hsel.
Qed.

Lemma X13_no_association_without_identifier_witness :
  Video.extractVideoId Scenario.calm "not a url" = None /\
  Video.extractVideoId Scenario.calm Scenario.embed = Some "i2znmy5h".
Proof.
  destruct (X13_no_association_without_identifier Scenario.calm None
              Scenario.clip Scenario.empty) as (Hnone & Hsecond & _).
  split.
  - apply Hnone. left. reflexivity.
  - apply (Hsecond Scenario.embed "meno" "i2znmy5h" "");
      [reflexivity | reflexivity | reflexivity | now left].
Defined.

(* ================================================================== *)
(** ** More about the thumbnail *)

Module ExtractionFacts.

Import Thumbnail Notions.

Lemma callback_decides m file x :
  settlement x = None ->
  settlement (toBlob_callback file (encoded m) x) = Some (encoding m).
Proof.
  intros Hx. unfold toBlob_callback, encoding, emit, settle.
  destruct (encoded m); cbn; now rewrite Hx.
Qed.

(** While the promise is not settled, the first task that settles it
    decides. *)
Lemma pending_decides m file events : forall x,
  settlement x = None -> Forall (eq (encoded m)) (waiting x) ->
  settlement (drain file (fold_left (dispatch m file) events x))
  = decided_by m (match waiting x with [] => false | _ => true end) events.
Proof.
  induction events as [|e events IH]; intros x Hx Hw.
  - cbn [fold_left decided_by]. unfold drain.
    destruct (waiting x) as [|blob rest]; [exact Hx |].
    inversion Hw as [|? ? <- _]; subst. cbn [fold_left].
    apply ThumbnailFacts.callbacks_settled. now apply callback_decides.
  - cbn [fold_left decided_by]. destruct e; cbn [dispatch].
    + apply (IH (on_loadeddata x)); assumption.
    + unfold on_seeked. destruct (context2d m); cbn [negb].
      * rewrite (IH (toBlob (encoded m) x) Hx).
        -- cbn [toBlob waiting]. destruct (waiting x); reflexivity.
        -- cbn [toBlob waiting]. apply Forall_app. split; [exact Hw |].
           now repeat constructor.
      * assert (H : settlement (settle (Rejected "Failed to get canvas context") x)
                    = Some (Rejected "Failed to get canvas context"))
          by (unfold settle; now rewrite Hx).
        rewrite (ThumbnailFacts.drain_settled file _ _
                   (ThumbnailFacts.settled_stays m file events _ _ H)).
        now destruct (waiting x).
    + assert (H : settlement (on_error file x)
                  = Some (Rejected "Failed to load video"))
        by (unfold on_error, settle, emit; cbn; now rewrite Hx).
      exact (ThumbnailFacts.drain_settled file _ _
               (ThumbnailFacts.settled_stays m file events _ _ H)).
    + unfold on_blob_ready. destruct (waiting x) as [|blob rest] eqn:Hq.
      * rewrite (IH x Hx); rewrite Hq; [reflexivity | constructor].
      * inversion Hw as [|? ? <- _]; subst.
        assert (H : settlement (toBlob_callback file (encoded m)
                                  (called_back rest x))
                    = Some (encoding m)) by now apply callback_decides.
        exact (ThumbnailFacts.drain_settled file _ _
                 (ThumbnailFacts.settled_stays m file events _ _ H)).
Qed.

Lemma callback_log file blob x :
  log (toBlob_callback file blob x) = log x ++ [revokeObjectURL file].
Proof.
  unfold toBlob_callback, emit, settle.
  destruct blob; cbn; destruct (settlement x); reflexivity.
Qed.

Lemma callbacks_log file blobs : forall x,
  log (fold_left (fun y blob => toBlob_callback file blob y) blobs x)
  = log x ++ repeat (revokeObjectURL file) (List.length blobs).
Proof.
  induction blobs as [|blob blobs IH]; intros x; cbn [fold_left].
  - cbn. now rewrite app_nil_r.
  - rewrite IH, callback_log, <- app_assoc. reflexivity.
Qed.

(** What a task adds to the log, and what it does to the calls that
    wait. *)
Lemma dispatch_effect m file x e :
  exists n,
    log (dispatch m file x e) = log x ++ repeat (revokeObjectURL file) n /\
    n + List.length (waiting (dispatch m file x e))
    = List.length (waiting x) + releases m [e].
Proof.
  destruct e; cbn [dispatch releases].
  - exists 0. cbn. rewrite app_nil_r. split; [reflexivity | lia].
  - unfold on_seeked. destruct (context2d m); cbn [negb].
    + exists 0. cbn [toBlob log waiting repeat].
      rewrite app_nil_r, length_app. cbn. split; [reflexivity | lia].
    + exists 0. unfold settle. cbn [repeat]. rewrite app_nil_r.
      destruct (settlement x); cbn; split; try reflexivity; lia.
  - exists 1. unfold on_error, settle, emit. cbn.
    destruct (settlement x); cbn; split; try reflexivity; lia.
  - unfold on_blob_ready. destruct (waiting x) as [|blob rest] eqn:Hq.
    + exists 0. cbn. rewrite app_nil_r, Hq. split; [reflexivity | cbn; lia].
    + exists 1. rewrite callback_log. split; [reflexivity |].
      unfold toBlob_callback, emit, settle.
      destruct blob; cbn; destruct (settlement x); cbn; lia.
Qed.

Lemma releases_app m a b : releases m (a ++ b) = releases m a + releases m b.
Proof.
  induction a as [|e a IH]; [reflexivity |].
  cbn [List.app releases]. destruct e; try exact IH;
    [destruct (context2d m); [| exact IH] |]; rewrite IH; reflexivity.
Qed.

(** The whole log: the log so far, then one release for every call
    that waits, every [error] and every frame drawn. *)
Lemma extraction_log m file events : forall x,
  log (drain file (fold_left (dispatch m file) events x))
  = log x ++ repeat (revokeObjectURL file)
               (List.length (waiting x) + releases m events).
Proof.
  induction events as [|e events IH]; intros x.
  - cbn [fold_left releases]. unfold drain. rewrite callbacks_log.
    now rewrite Nat.add_0_r.
  - cbn [fold_left]. rewrite IH.
    destruct (dispatch_effect m file x e) as (n & -> & Hn).
    rewrite <- app_assoc, <- repeat_app.
    change (e :: events) with ([e] ++ events). rewrite releases_app.
    do 2 f_equal. lia.
Qed.

Lemma count_releases file n :
  Spec.count_events Spec.is_revoke (repeat (revokeObjectURL file) n) = n.
Proof.
  unfold Spec.count_events. induction n as [|n IH]; [reflexivity |].
  cbn. now rewrite IH.
Qed.

Lemma only_object_urls w file :
  Forall (fun e => is_object_url e = true)
    (snd (Thumbnail.extractThumbnail w file)).
Proof.
  unfold Thumbnail.extractThumbnail. cbn [snd]. rewrite extraction_log.
  cbn [log List.app]. constructor; [reflexivity |].
  apply Forall_forall. intros e He. apply repeat_spec in He. now subst e.
Qed.

Lemma idle_skipped m before rest :
  Forall idle before ->
  decided_by m false (before ++ rest) = decided_by m false rest /\
  releases m before = 0.
Proof.
  induction 1 as [|e before [-> | ->] _ IH]; [now split | |];
    cbn [List.app decided_by releases]; exact IH.
Qed.

Lemma early_skipped m between rest :
  context2d m = true -> Forall early between ->
  decided_by m true (between ++ rest) = decided_by m true rest.
Proof.
  intros Hctx. induction 1 as [|e between [-> | ->] _ IH]; [reflexivity | |];
    cbn [List.app decided_by]; [| rewrite Hctx]; exact IH.
Qed.

End ExtractionFacts.

(** X14: the outcome of [extractThumbnail] is the one of the first
    task that settles its promise, and no later task changes it.  An
    [error] dispatched before any frame was drawn gives 'Failed to load
    video'; a [seeked] without a 2D context gives 'Failed to get canvas
    context'; after a [seeked] with a context the outcome is that of the
    encoder (the blob, or 'Failed to create thumbnail blob') when its
    callback runs before any [error], and 'Failed to load video' when an
    [error] is dispatched before the callback has run, in which case the
    object URL is released at least twice.  With neither [seeked] nor
    [error] the promise never settles and the URL is never released.
    The extraction does nothing observable but create the object URL
    and release it, once for every [error] and once for every frame
    drawn. *)
Theorem X14_first_settlement_decides (w : World) (file : File) :
  let m := media w file in
  let run := Thumbnail.extractThumbnail w file in
  fst run = Notions.decided_by m false (dispatched m) /\
  snd run
  = createObjectURL file
      :: repeat (revokeObjectURL file) (Notions.releases m (dispatched m)) /\
  (forall before later,
      dispatched m = before ++ error :: later ->
      Forall Notions.idle before ->
      fst run = Some (Rejected "Failed to load video")) /\
  (forall before later,
      dispatched m = before ++ seeked :: later ->
      Forall Notions.idle before -> context2d m = false ->
      fst run = Some (Rejected "Failed to get canvas context")) /\
  (forall before between later,
      dispatched m = before ++ seeked :: between ++ blob_ready :: later ->
      Forall Notions.idle before -> Forall Notions.early between ->
      context2d m = true ->
      fst run = Some (match encoded m with
                      | Some blob => Fulfilled blob
                      | None => Rejected "Failed to create thumbnail blob"
                      end)) /\
  (forall before between,
      dispatched m = before ++ seeked :: between ->
      Forall Notions.idle before -> Forall Notions.early between ->
      context2d m = true ->
      fst run = Some (match encoded m with
                      | Some blob => Fulfilled blob
                      | None => Rejected "Failed to create thumbnail blob"
                      end)) /\
  (forall before between later,
      dispatched m = before ++ seeked :: between ++ error :: later ->
      Forall Notions.idle before -> Forall Notions.early between ->
      context2d m = true ->
      fst run = Some (Rejected "Failed to load video") /\
      2 <= Spec.count_events Spec.is_revoke (snd run)) /\
  (Forall Notions.idle (dispatched m) -> run = (None, [createObjectURL file])).
Proof.
  intros m run.
  assert (Hfst : fst run = Notions.decided_by m false (dispatched m)).
  { subst run. unfold Thumbnail.extractThumbnail. cbn [fst]. fold m.
    now rewrite ExtractionFacts.pending_decides by (try constructor). }
  assert (Hsnd : snd run
                 = createObjectURL file
                     :: repeat (revokeObjectURL file)
                          (Notions.releases m (dispatched m))).
  { subst run. unfold Thumbnail.extractThumbnail. cbn [snd]. fold m.
    now rewrite ExtractionFacts.extraction_log. }
  split; [exact Hfst |]. split; [exact Hsnd |].
  split; [| split; [| split; [| split; [| split]]]].
  - intros before later Hev Hidle. rewrite Hfst, Hev.
    now rewrite (proj1 (ExtractionFacts.idle_skipped m before _ Hidle)).
  - intros before later Hev Hidle Hctx. rewrite Hfst, Hev.
    rewrite (proj1 (ExtractionFacts.idle_skipped m before _ Hidle)).
    cbn [Notions.decided_by]. now rewrite Hctx.
  - intros before between later Hev Hidle Hearly Hctx. rewrite Hfst, Hev.
    rewrite (proj1 (ExtractionFacts.idle_skipped m before _ Hidle)).
    cbn [Notions.decided_by]. rewrite Hctx.
    now rewrite (ExtractionFacts.early_skipped m between _ Hctx Hearly).
  - intros before between Hev Hidle Hearly Hctx. rewrite Hfst, Hev.
    rewrite (proj1 (ExtractionFacts.idle_skipped m before _ Hidle)).
    cbn [Notions.decided_by]. rewrite Hctx.
    rewrite <- (app_nil_r between).
    now rewrite (ExtractionFacts.early_skipped m between _ Hctx Hearly).
  - intros before between later Hev Hidle Hearly Hctx. split.
    + rewrite Hfst, Hev.
      rewrite (proj1 (ExtractionFacts.idle_skipped m before _ Hidle)).
      cbn [Notions.decided_by]. rewrite Hctx.
      now rewrite (ExtractionFacts.early_skipped m between _ Hctx Hearly).
    + rewrite Hsnd, Hev.
      change (createObjectURL file :: ?l) with ([createObjectURL file] ++ l).
      unfold Spec.count_events. rewrite filter_app, length_app.
      fold (Spec.count_events Spec.is_revoke
              (repeat (revokeObjectURL file)
                 (Notions.releases m
                    (before ++ seeked :: between ++ error :: later)))).
      rewrite ExtractionFacts.count_releases.
      rewrite ExtractionFacts.releases_app.
      change (seeked :: between ++ error :: later)
        with ([seeked] ++ between ++ [error] ++ later).
      rewrite !ExtractionFacts.releases_app. cbn [Notions.releases].
      rewrite Hctx. lia.
  - intros Hidle.
    assert (E : run = (fst run, snd run)) by now destruct run.
    rewrite E, Hfst, Hsnd.
    rewrite <- (app_nil_r (dispatched m)).
    destruct (ExtractionFacts.idle_skipped m _ [] Hidle) as [-> Hnone].
    rewrite ExtractionFacts.releases_app, Hnone. reflexivity.
Qed.

Lemma X14_first_settlement_decides_witness :
  let late := Runs.with_media Runs.late_error in
  let done := Runs.with_media Runs.error_after_blob in
  (dispatched (media late Scenario.clip) = [loadeddata; seeked; error] /\
   context2d (media late Scenario.clip) = true /\
   encoded (media late Scenario.clip) = Some 9 /\
   Thumbnail.extractThumbnail late Scenario.clip
   = (Some (Rejected "Failed to load video"),
      [createObjectURL Scenario.clip; revokeObjectURL Scenario.clip;
       revokeObjectURL Scenario.clip])) /\
  (dispatched (media done Scenario.clip)
   = [loadeddata; seeked; blob_ready; error] /\
   Thumbnail.extractThumbnail done Scenario.clip
   = (Some (Fulfilled 9),
      [createObjectURL Scenario.clip; revokeObjectURL Scenario.clip;
       revokeObjectURL Scenario.clip])).
Proof.
  intros late done.
  assert (Hidle : Forall Notions.idle [loadeddata])
    by (repeat constructor; left; reflexivity).
  assert (Hearly : Forall Notions.early []) by constructor.
  assert (Hpair : forall w,
             Thumbnail.extractThumbnail w Scenario.clip
             = (fst (Thumbnail.extractThumbnail w Scenario.clip),
                snd (Thumbnail.extractThumbnail w Scenario.clip)))
    by (intros w; now destruct (Thumbnail.extractThumbnail w Scenario.clip)).
  destruct (X14_first_settlement_decides late Scenario.clip)
    as (_ & Hlog & _ & _ & _ & _ & Hlate & _).
  destruct (X14_first_settlement_decides done Scenario.clip)
    as (_ & Hlog' & _ & _ & Hdone & _).
  destruct (Hlate [loadeddata] [] [] eq_refl Hidle Hearly eq_refl)
    as [Hout _].
  pose proof (Hdone [loadeddata] [] [error] eq_refl Hidle Hearly eq_refl)
    as Hout'.
  split.
  - split; [reflexivity |]. split; [reflexivity |]. split; [reflexivity |].
    rewrite (Hpair late), Hout, Hlog. reflexivity.
  - split; [reflexivity |].
    rewrite (Hpair done), Hout', Hlog'. reflexivity.
Defined.

(** X15: the thumbnail pipeline asks for a signature, uploads or calls
    the content-addressed store only after the extraction produced a
    blob.  When the extraction is rejected the pipeline is rejected with
    the same reason, and when it never settles the pipeline never
    settles; in both cases its log holds nothing but the creation and
    release of the object URL.  When a blob is produced, the file that is
    signed is named after the video with [_thumbnail.jpg] appended. *)
Theorem X15_no_publication_without_a_thumbnail (w : World) (file : File) :
  let extraction := Thumbnail.extractThumbnail w file in
  let pipeline := Publisher.extractAndUploadThumbnail w file in
  (fst extraction = None ->
   pipeline = (None, snd extraction) /\
   Forall (fun e => Notions.is_object_url e = true) (snd pipeline)) /\
  (forall reason,
      fst extraction = Some (Rejected reason) ->
      pipeline = (Some (Rejected reason), snd extraction) /\
      Forall (fun e => Notions.is_object_url e = true) (snd pipeline)) /\
  (forall blob,
      fst extraction = Some (Fulfilled blob) ->
      fst pipeline = Some (fst (Publisher.publishThumbnail w file blob)) /\
      exists later,
        snd pipeline
        = snd extraction
            ++ call_getFileSignature
                 {| name := name file +++ "_thumbnail.jpg"; content := blob |}
            :: later).
Proof.
  intros extraction pipeline. subst pipeline.
  unfold Publisher.extractAndUploadThumbnail. fold extraction.
  assert (Hlog : Forall (fun e => Notions.is_object_url e = true)
                   (snd extraction)).
  { subst extraction. apply ExtractionFacts.only_object_urls. }
  destruct extraction as [[[blob | reason] |] ev]; cbn [fst snd] in *.
  - split; [discriminate |]. split; [discriminate |].
    intros blob' H. injection H as <-.
    unfold Publisher.publishThumbnail, Publisher.uploadThumbnailToIPFS,
      Publisher.thumbnail_file.
    destruct (getFileSignature w _) as [signature | r].
    + destruct (uploadImage w _ signature None); cbn [fst snd];
        (split; [reflexivity | eexists; reflexivity]).
    + cbn [fst snd]. split; [reflexivity | eexists; reflexivity].
  - split; [discriminate |]. split; [| discriminate].
    intros r H. injection H as <-. now split.
  - split; [intros _; now split |]. split; discriminate.
Qed.

Lemma X15_no_publication_without_a_thumbnail_witness :
  let w := Runs.with_media Runs.broken_video in
  fst (Thumbnail.extractThumbnail w Scenario.clip)
  = Some (Rejected "Failed to load video") /\
  Publisher.extractAndUploadThumbnail w Scenario.clip
  = (Some (Rejected "Failed to load video"),
     [createObjectURL Scenario.clip; revokeObjectURL Scenario.clip;
      revokeObjectURL Scenario.clip]).
Proof.
  intros w.
  assert (H : fst (Thumbnail.extractThumbnail w Scenario.clip)
              = Some (Rejected "Failed to load video")) by reflexivity.
  destruct (X15_no_publication_without_a_thumbnail w Scenario.clip)
    as (_ & Hrej & _).
  destruct (Hrej _ H) as [Hpipe _].
  split; [exact H |]. rewrite Hpipe. reflexivity.
Defined.

Module FallbackFacts.

Import Publisher.

(** The fallback once the store answered with a body. *)
Lemma answered w blob response responseText :
  fetch w (ipfs_request blob) = Fulfilled response -> ok response = true ->
  text response = Fulfilled responseText ->
  fst (uploadThumbnailToIPFS w blob)
  = match JSON_parse w (Spec.last_line responseText) with
    | None => Rejected "SyntaxError"
    | Some parsed =>
        match get parsed "Hash" with
        | None => Rejected "TypeError"
        | Some ipfsHash => Fulfilled (ipfs_gateway +++ ToString ipfsHash)
        end
    end.
Proof.
  intros Hfetch Hok Htext. unfold uploadThumbnailToIPFS, Spec.last_line.
  rewrite Hfetch, Hok, Htext. reflexivity.
Qed.

End FallbackFacts.

(** X16: the fallback store's reply is not checked for a hash.  When
    its last line is a JSON object without a [Hash] member, or a JSON
    value that is not an object, the publication still succeeds and the
    URL ends in [undefined]; when the last line is the JSON [null] or
    not JSON at all, the publication fails; a [Hash] that is a number is
    used as it prints. *)
Theorem X16_reply_without_hash (w : World) (blob : Blob) (response : Response)
  (responseText : string) :
  fetch w (Publisher.ipfs_request blob) = Fulfilled response ->
  ok response = true -> text response = Fulfilled responseText ->
  let line := Spec.last_line responseText in
  let outcome := fst (Publisher.uploadThumbnailToIPFS w blob) in
  (forall fields,
      JSON_parse w line = Some (JObject fields) ->
      Publisher.lookup "Hash" fields = None ->
      outcome = Fulfilled "https://ipfs.3speak.tv/ipfs/undefined") /\
  (forall v,
      JSON_parse w line = Some v ->
      (exists b, v = JBool b) \/ (exists n, v = JNumber n) \/
      (exists s, v = JString s) \/ (exists items, v = JArray items) ->
      outcome = Fulfilled "https://ipfs.3speak.tv/ipfs/undefined") /\
  (JSON_parse w line = Some JNull \/ JSON_parse w line = None ->
   exists reason, outcome = Rejected reason) /\
  (forall fields shown,
      JSON_parse w line = Some (JObject fields) ->
      Publisher.lookup "Hash" fields = Some (JNumber shown) ->
      outcome = Fulfilled ("https://ipfs.3speak.tv/ipfs/" +++ shown)).
Proof.
  intros Hfetch Hok Htext line outcome. subst outcome line.
  rewrite (FallbackFacts.answered w blob response responseText Hfetch Hok Htext).
  split; [| split; [| split]].
  - intros fields -> Hnone. cbn [Publisher.get]. rewrite Hnone. reflexivity.
  - intros v -> [[b ->] | [[n ->] | [[s ->] | [items ->]]]]; reflexivity.
  - intros [-> | ->]; eexists; reflexivity.
  - intros fields shown -> Hnum. cbn [Publisher.get]. rewrite Hnum. reflexivity.
Qed.

Lemma X16_reply_without_hash_witness :
  let reply := "{}" in
  let w := Runs.with_reply reply (Some (JObject [])) in
  fetch w (Publisher.ipfs_request 9) = Fulfilled (Scenario.reply_ok reply) /\
  JSON_parse w (Spec.last_line reply) = Some (JObject []) /\
  fst (Publisher.uploadThumbnailToIPFS w 9)
  = Fulfilled "https://ipfs.3speak.tv/ipfs/undefined".
Proof.
  intros reply w.
  assert (Hfetch : fetch w (Publisher.ipfs_request 9)
                   = Fulfilled (Scenario.reply_ok reply)) by reflexivity.
  assert (Hparse : JSON_parse w (Spec.last_line reply) = Some (JObject []))
    by reflexivity.
  destruct (X16_reply_without_hash w 9 (Scenario.reply_ok reply) reply Hfetch
              eq_refl eq_refl) as (Hmissing & _).
  split; [exact Hfetch |]. split; [exact Hparse |].
  exact (Hmissing [] Hparse eq_refl).
Defined.

(* ================================================================== *)
(** ** Removing an image *)

Module RemoveFacts.

Import ComposerUI.

Lemma filter_index_far {A} (l : list A) : forall base index,
  index < base ->
  filter_index (fun i => negb (i =? index)%nat) base l = l.
Proof.
  induction l as [|x l IH]; intros base index H; [reflexivity |].
  cbn [filter_index].
  replace (base =? index)%nat with false by (symmetry; apply Nat.eqb_neq; lia).
  cbn [negb]. f_equal. apply IH. lia.
Qed.

Lemma filter_index_at {A} (l : list A) : forall base k,
  filter_index (fun i => negb (i =? base + k)%nat) base l
  = firstn k l ++ skipn (S k) l.
Proof.
  induction l as [|x l IH]; intros base k.
  - now destruct k.
  - cbn [filter_index]. destruct k as [|k].
    + rewrite Nat.add_0_r, Nat.eqb_refl.
      change (skipn 1 (x :: l)) with l. cbn [negb firstn app].
      apply filter_index_far. lia.
    + replace (base =? base + S k)%nat with false
        by (symmetry; apply Nat.eqb_neq; lia).
      change (firstn (S (S k)) (x :: l)) with (x :: firstn (S k) l).
      change (firstn (S k) (x :: l)) with (x :: firstn k l).
      change (skipn (S (S k)) (x :: l)) with (skipn (S k) l).
      cbn [negb]. rewrite <- app_comm_cons. f_equal.
      replace (base + S k) with (S base + k) by lia. apply IH.
Qed.

End RemoveFacts.

(** X17: removing the image at a position keeps the images before and
    after it in their order and drops exactly that one; a position past
    the end removes nothing; no other part of the state changes. *)
Theorem X17_remove_image (index : nat) (st : ComposerState) :
  images (ComposerUI.removeImage index st)
  = firstn index (images st) ++ skipn (S index) (images st) /\
  (index < List.length (images st) ->
   List.length (images (ComposerUI.removeImage index st))
   = List.length (images st) - 1) /\
  (List.length (images st) <= index ->
   ComposerUI.removeImage index st = st) /\
  draft (ComposerUI.removeImage index st) = draft st /\
  selectedGif (ComposerUI.removeImage index st) = selectedGif st /\
  selectedVideo (ComposerUI.removeImage index st) = selectedVideo st /\
  videoEmbedUrl (ComposerUI.removeImage index st) = videoEmbedUrl st.
Proof.
  assert (Hlist : images (ComposerUI.removeImage index st)
                  = firstn index (images st) ++ skipn (S index) (images st))
    by (unfold ComposerUI.removeImage; cbn [images setImages];
        apply (RemoveFacts.filter_index_at (images st) 0 index)).
  split; [exact Hlist |]. split; [| split].
  - intros H. rewrite Hlist, length_app, length_firstn, length_skipn. lia.
  - intros H.
    change (ComposerUI.removeImage index st)
      with (setImages (images (ComposerUI.removeImage index st)) st).
    rewrite Hlist. rewrite firstn_all2 by exact H. rewrite skipn_all2 by lia.
    rewrite app_nil_r. now destruct st.
  - repeat split; reflexivity.
Qed.

Lemma X17_remove_image_witness :
  1 < List.length (images Scenario.with_photos) /\
  images (ComposerUI.removeImage 0 Scenario.with_photos) = [Scenario.photo2] /\
  List.length (images Scenario.with_photos) <= 5 /\
  ComposerUI.removeImage 5 Scenario.with_photos = Scenario.with_photos.
Proof.
  assert (H1 : 1 < List.length (images Scenario.with_photos)) by (cbn; lia).
  assert (H5 : List.length (images Scenario.with_photos) <= 5) by (cbn; lia).
  destruct (X17_remove_image 0 Scenario.with_photos) as (Hlist & _).
  destruct (X17_remove_image 5 Scenario.with_photos) as (_ & _ & Hfar & _).
  split; [exact H1 |]. split; [rewrite Hlist; reflexivity |].
  split; [exact H5 | exact (Hfar H5)].
Defined.

(* ================================================================== *)
(** ** The side bar *)

Module FeedFacts.

Import RightSideBar.

Lemma last_of_snoc {A} (l : list A) x : last_of (l ++ [x]) = Some x.
Proof. unfold last_of. now rewrite rev_app_distr. Qed.

Lemma visible_spec muted post :
  visible muted post = true <->
  parent_author post = "" /\ ~ In (author post) muted.
Proof.
  unfold visible, includes. rewrite andb_true_iff, negb_true_iff.
  rewrite String.eqb_eq. split; intros [H1 H2]; (split; [exact H1 |]).
  - intros Hin. assert (E : existsb (String.eqb (author post)) muted = true).
    { apply existsb_exists. exists (author post).
      split; [exact Hin | apply String.eqb_refl]. }
    congruence.
  - destruct (existsb (String.eqb (author post)) muted) eqn:E; [| reflexivity].
    apply existsb_exists in E as (a & Ha & Hab).
    apply String.eqb_eq in Hab. subst a. contradiction.
Qed.

End FeedFacts.

(** X18: a fetch that is not already running asks [findPosts] once with
    the current query and cursor and ends with both the loading flag and
    the fetching guard cleared, whether the request succeeds or not.  On
    success the posts added to the list are exactly the fetched posts
    that are top-level and whose author is not muted, in the fetched
    order, after the posts already listed; on failure the list and the
    cursor are untouched.  A fetch started while another is running does
    nothing. *)
Theorem X18_fetch_posts (h : RightSideBar.Host) (st : RightSideBar.State) :
  let run := RightSideBar.fetchPosts h st in
  (RightSideBar.isFetching st = true -> run = (st, [])) /\
  (RightSideBar.isFetching st = false ->
   snd run = [RightSideBar.call_findPosts (RightSideBar.query st)
                (RightSideBar.params st)] /\
   RightSideBar.isLoading (fst run) = false /\
   RightSideBar.isFetching (fst run) = false /\
   RightSideBar.query (fst run) = RightSideBar.query st /\
   RightSideBar.mutedAccounts (fst run) = RightSideBar.mutedAccounts st /\
   (forall posts,
       RightSideBar.findPosts h (RightSideBar.query st) (RightSideBar.params st)
       = Fulfilled posts ->
       exists added,
         RightSideBar.allPosts (fst run) = RightSideBar.allPosts st ++ added /\
         added = filter (RightSideBar.visible (RightSideBar.mutedAccounts st))
                   posts /\
         (forall post,
             In post added <->
             In post posts /\ RightSideBar.parent_author post = "" /\
             ~ In (RightSideBar.author post) (RightSideBar.mutedAccounts st))) /\
   (forall reason,
       RightSideBar.findPosts h (RightSideBar.query st) (RightSideBar.params st)
       = Rejected reason ->
       RightSideBar.allPosts (fst run) = RightSideBar.allPosts st /\
       RightSideBar.params (fst run) = RightSideBar.params st)).
Proof.
  intros run. subst run. unfold RightSideBar.fetchPosts. split.
  - intros ->. reflexivity.
  - intros ->.
    destruct (RightSideBar.findPosts h (RightSideBar.query st)
                (RightSideBar.params st)) as [posts | reason]; cbn [fst snd].
    + repeat (split; [reflexivity |]). split.
      * intros posts' H. injection H as <-. eexists.
        split; [reflexivity |]. split; [reflexivity |].
        intros post. rewrite filter_In, FeedFacts.visible_spec. tauto.
      * intros reason H. discriminate H.
    + repeat (split; [reflexivity |]). split.
      * intros posts H. discriminate H.
      * intros r _. now split.
Qed.

Lemma X18_fetch_posts_witness :
  let h := Feed.host (Fulfilled Feed.page) in
  let st := Feed.start ["mallory"] in
  RightSideBar.isFetching st = false /\
  RightSideBar.allPosts (fst (RightSideBar.fetchPosts h st)) = [Feed.post1] /\
  RightSideBar.isLoading (fst (RightSideBar.fetchPosts h st)) = false.
Proof.
  intros h st.
  assert (H : RightSideBar.isFetching st = false) by reflexivity.
  destruct (X18_fetch_posts h st) as [_ Hrun].
  destruct (Hrun H) as (_ & Hload & _ & _ & _ & Hok & _).
  destruct (Hok Feed.page eq_refl) as (added & Hall & Hadded & _).
  split; [exact H |]. split; [| exact Hload].
  rewrite Hall, Hadded. reflexivity.
Defined.

(** X19: after a successful fetch the cursor for the next page is the
    author and permlink of the last post that was kept; when every
    fetched post was filtered out it is the last fetched post, so paging
    still advances; when the page came back empty the cursor is reset to
    the empty author and permlink, so the next fetch starts from the top
    again.  The tag is read from the configuration again and the limit
    is 8. *)
Theorem X19_next_page_cursor (h : RightSideBar.Host) (st : RightSideBar.State)
  (posts : list RightSideBar.Discussion) :
  RightSideBar.isFetching st = false ->
  RightSideBar.findPosts h (RightSideBar.query st) (RightSideBar.params st)
  = Fulfilled posts ->
  let next := RightSideBar.params (fst (RightSideBar.fetchPosts h st)) in
  let kept := filter (RightSideBar.visible (RightSideBar.mutedAccounts st)) posts in
  RightSideBar.tag next = RightSideBar.NEXT_PUBLIC_HIVE_SEARCH_TAG h /\
  RightSideBar.limit next = 8%Z /\
  (forall before post,
      kept = before ++ [post] ->
      RightSideBar.start_author next = RightSideBar.author post /\
      RightSideBar.start_permlink next = RightSideBar.permlink post) /\
  (forall before post,
      kept = [] -> posts = before ++ [post] ->
      RightSideBar.start_author next = RightSideBar.author post /\
      RightSideBar.start_permlink next = RightSideBar.permlink post) /\
  (posts = [] ->
   RightSideBar.start_author next = "" /\
   RightSideBar.start_permlink next = "").
Proof.
  intros Hfree Hfetch next kept. subst next.
  unfold RightSideBar.fetchPosts. rewrite Hfree, Hfetch. cbn [fst].
  fold kept. cbn [RightSideBar.params RightSideBar.finish].
  split; [reflexivity |]. split; [reflexivity |]. split; [| split].
  - intros before post ->. rewrite FeedFacts.last_of_snoc. now split.
  - intros before post -> ->. rewrite FeedFacts.last_of_snoc. now split.
  - intros ->. now split.
Qed.

Lemma X19_next_page_cursor_witness :
  let h := Feed.host (Fulfilled Feed.page) in
  let st := Feed.start ["mallory"] in
  let next := RightSideBar.params (fst (RightSideBar.fetchPosts h st)) in
  filter (RightSideBar.visible (RightSideBar.mutedAccounts st)) Feed.page
  = [] ++ [Feed.post1] /\
  RightSideBar.start_author next = "alice" /\
  RightSideBar.start_permlink next = "hello".
Proof.
  intros h st next.
  assert (Hkept : filter (RightSideBar.visible (RightSideBar.mutedAccounts st))
                    Feed.page = [] ++ [Feed.post1]) by reflexivity.
  destruct (X19_next_page_cursor h st Feed.page eq_refl eq_refl)
    as (_ & _ & Hlast & _).
  split; [exact Hkept |]. exact (Hlast [] Feed.post1 Hkept).
Defined.

(** X20: over any number of fetches the list of posts only grows at its
    end, and when it starts with top-level posts of authors that are not
    muted it never holds anything else. *)
Theorem X20_feed_invariant (hosts : list RightSideBar.Host)
  (st : RightSideBar.State) :
  let st' := Feed.fetch_all hosts st in
  (exists added,
      RightSideBar.allPosts st' = RightSideBar.allPosts st ++ added) /\
  RightSideBar.mutedAccounts st' = RightSideBar.mutedAccounts st /\
  (Forall (fun post => RightSideBar.visible (RightSideBar.mutedAccounts st) post
                       = true)
     (RightSideBar.allPosts st) ->
   Forall (fun post => RightSideBar.parent_author post = "" /\
                       ~ In (RightSideBar.author post)
                           (RightSideBar.mutedAccounts st))
     (RightSideBar.allPosts st')).
Proof.
  cbv zeta. unfold Feed.fetch_all. revert st.
  induction hosts as [|h hosts IH]; intros st; cbn [fold_left].
  - split; [exists []; now rewrite app_nil_r |]. split; [reflexivity |].
    intros H. eapply Forall_impl; [| exact H].
    intros post Hp. now apply FeedFacts.visible_spec.
  - destruct (IH (fst (RightSideBar.fetchPosts h st)))
      as ((added & Hadded) & Hmuted & Hinv).
    assert (Hstep :
      RightSideBar.mutedAccounts (fst (RightSideBar.fetchPosts h st))
      = RightSideBar.mutedAccounts st /\
      exists new,
        RightSideBar.allPosts (fst (RightSideBar.fetchPosts h st))
        = RightSideBar.allPosts st ++ new /\
        Forall (fun post =>
                  RightSideBar.visible (RightSideBar.mutedAccounts st) post
                  = true) new).
    { unfold RightSideBar.fetchPosts.
      destruct (RightSideBar.isFetching st).
      - split; [reflexivity |]. exists []. now rewrite app_nil_r.
      - destruct (RightSideBar.findPosts h (RightSideBar.query st)
                    (RightSideBar.params st)) as [posts | reason]; cbn.
        + split; [reflexivity |]. eexists. split; [reflexivity |].
          apply Forall_forall. intros post Hp.
          now apply filter_In in Hp as [_ Hp].
        + split; [reflexivity |]. exists []. now rewrite app_nil_r. }
    destruct Hstep as (Hm & new & Hnew & Hvisible).
    rewrite Hm in Hmuted, Hinv.
    split; [| split; [exact Hmuted |]].
    + exists (new ++ added). now rewrite Hadded, Hnew, app_assoc.
    + intros H. apply Hinv. rewrite Hnew. apply Forall_app. now split.
Qed.

Lemma X20_feed_invariant_witness :
  let hosts := [Feed.host (Fulfilled Feed.page); Feed.host (Rejected "503");
                Feed.host (Fulfilled Feed.page)] in
  let st := Feed.start ["mallory"] in
  Forall (fun post => RightSideBar.visible (RightSideBar.mutedAccounts st) post
                      = true) (RightSideBar.allPosts st) /\
  RightSideBar.allPosts (Feed.fetch_all hosts st) = [Feed.post1; Feed.post1] /\
  Forall (fun post => RightSideBar.parent_author post = "" /\
                      ~ In (RightSideBar.author post) ["mallory"])
    (RightSideBar.allPosts (Feed.fetch_all hosts st)).
Proof.
  intros hosts st.
  assert (H : Forall (fun post =>
                        RightSideBar.visible (RightSideBar.mutedAccounts st) post
                        = true) (RightSideBar.allPosts st)) by constructor.
  destruct (X20_feed_invariant hosts st) as (_ & _ & Hinv).
  split; [exact H |]. split; [reflexivity | exact (Hinv H)].
Defined.

(* ================================================================== *)
(** ** The last line of the fallback reply *)

Module LineFacts.

Import Notions Spec StringFacts.

Lemma list_append a b :
  list_ascii_of_string (a +++ b)
  = list_ascii_of_string a ++ list_ascii_of_string b.
Proof. induction a as [|c a IH]; simpl; [reflexivity | now rewrite IH]. Qed.

Lemma string_app x y :
  string_of_list_ascii (x ++ y)
  = string_of_list_ascii x +++ string_of_list_ascii y.
Proof. induction x as [|c x IH]; simpl; [reflexivity | now rewrite IH]. Qed.

Lemma rev_append a b : rev (a +++ b) = rev b +++ rev a.
Proof. unfold rev. now rewrite list_append, rev_app_distr, string_app. Qed.

Lemma rev_rev s : rev (rev s) = s.
Proof.
  unfold rev. rewrite list_ascii_of_string_of_list_ascii, rev_involutive.
  apply string_of_list_ascii_of_string.
Qed.

Lemma drop_kept s : edge_space s = false -> drop_while is_space s = s.
Proof. destruct s as [|c s]; simpl; [discriminate | now intros ->]. Qed.

Lemma drop_append a b :
  drop_while is_space (a +++ b)
  = if all_space a then drop_while is_space b
    else drop_while is_space a +++ b.
Proof.
  induction a as [|c a IH]; [reflexivity |].
  cbn [append drop_while all_space].
  destruct (is_space c); [exact IH | reflexivity].
Qed.

Lemma split_never_empty sep s : split sep s <> [].
Proof.
  induction s as [|c s IH]; simpl; [discriminate |].
  destruct (Ascii.eqb c sep); [discriminate |].
  destruct (split sep s); discriminate.
Qed.

Lemma split_front sep a b :
  exists front, front <> [] /\
                split sep (a +++ String sep b) = front ++ split sep b.
Proof.
  induction a as [|c a (front & Hne & IH)].
  - exists [""]. split; [discriminate |]. cbn [append split].
    now rewrite Ascii.eqb_refl.
  - cbn [append split]. rewrite IH.
    destruct (Ascii.eqb c sep).
    + exists ("" :: front). split; [discriminate | reflexivity].
    + destruct front as [|f fs]; [contradiction |].
      exists (String c f :: fs). split; [discriminate | reflexivity].
Qed.

Lemma last_app_nonempty {A} (l1 l2 : list A) d :
  l2 <> [] -> last (l1 ++ l2) d = last l2 d.
Proof.
  intros H. induction l1 as [|x l1 IH]; [reflexivity |].
  cbn [List.app]. destruct (l1 ++ l2) as [|y rest] eqn:E.
  - apply app_eq_nil in E as [_ E]. contradiction.
  - change (last (x :: y :: rest) d) with (last (y :: rest) d). exact IH.
Qed.

(** The trimmed reply: what is left of the earlier lines, then the
    line. *)
Lemma trim_reply earlier line :
  clean_line line ->
  trim (earlier +++ String "010" (line +++ newline))
  = drop_while is_space (earlier +++ newline) +++ line.
Proof.
  intros (_ & Hfirst & Hlast). unfold trim.
  change (earlier +++ String "010" (line +++ newline))
    with (earlier +++ newline +++ line +++ newline).
  rewrite <- (append_assoc earlier newline (line +++ newline)).
  assert (Hline : edge_space (line +++ newline) = false)
    by (destruct line; [discriminate Hfirst | exact Hfirst]).
  rewrite (drop_append (earlier +++ newline) (line +++ newline)).
  set (kept := drop_while is_space (earlier +++ newline)).
  assert (Hkept : (if all_space (earlier +++ newline)
                   then drop_while is_space (line +++ newline)
                   else kept +++ line +++ newline)
                  = kept +++ line +++ newline).
  { destruct (all_space (earlier +++ newline)) eqn:E; [| reflexivity].
    subst kept. apply TrimFacts.drop_spaces_empty in E. rewrite E.
    now rewrite (drop_kept _ Hline). }
  rewrite Hkept.
  rewrite <- (append_assoc kept line newline), rev_append.
  change (rev newline) with newline.
  change (newline +++ rev (kept +++ line))
    with (String "010" (rev (kept +++ line))).
  cbn [drop_while]. change (is_space "010") with true. cbv iota.
  rewrite (rev_append kept line).
  assert (Hedge : edge_space (rev line +++ rev kept) = false)
    by (destruct (rev line); [discriminate Hlast | exact Hlast]).
  rewrite (drop_kept _ Hedge), rev_append, !rev_rev. reflexivity.
Qed.

Lemma last_line_of_reply earlier line :
  clean_line line ->
  last_line (earlier +++ String "010" (line +++ newline)) = line.
Proof.
  intros Hline. unfold last_line. rewrite (trim_reply earlier line Hline).
  destruct Hline as (Hplain & _ & _).
  rewrite (drop_append earlier newline).
  destruct (all_space earlier).
  - cbn [newline drop_while]. change (is_space (ascii_of_nat 10)) with true.
    cbv iota. cbn [drop_while append].
    now rewrite (BodyFacts.split_plain "010" line Hplain).
  - rewrite append_assoc.
    change (newline +++ line) with (String "010" line).
    destruct (split_front "010" (drop_while is_space earlier) line)
      as (front & _ & ->).
    rewrite last_app_nonempty by apply split_never_empty.
    now rewrite (BodyFacts.split_plain "010" line Hplain).
Qed.

End LineFacts.

(** X21: of a newline-delimited reply that ends with a newline only the
    last line is read: whatever lines come before it, the outcome of the
    fallback upload is what that last line alone gives, the gateway URL
    of its [Hash] when it has one. *)
Theorem X21_only_the_last_line_counts (w : World) (blob : Blob)
  (response : Response) (earlier line : string) :
  Notions.clean_line line ->
  fetch w (Publisher.ipfs_request blob) = Fulfilled response ->
  ok response = true ->
  text response = Fulfilled (earlier +++ String "010" (line +++ newline)) ->
  Spec.last_line (earlier +++ String "010" (line +++ newline)) = line /\
  (forall fields ipfsHash,
      JSON_parse w line = Some (JObject fields) ->
      Publisher.lookup "Hash" fields = Some (JString ipfsHash) ->
      fst (Publisher.uploadThumbnailToIPFS w blob)
      = Fulfilled ("https://ipfs.3speak.tv/ipfs/" +++ ipfsHash)) /\
  (JSON_parse w line = None ->
   fst (Publisher.uploadThumbnailToIPFS w blob) = Rejected "SyntaxError").
Proof.
  intros Hline Hfetch Hok Htext.
  pose proof (LineFacts.last_line_of_reply earlier line Hline) as Hlast.
  split; [exact Hlast |].
  rewrite (FallbackFacts.answered w blob response _ Hfetch Hok Htext), Hlast.
  split.
  - intros fields ipfsHash -> Hhash. cbn [Publisher.get]. rewrite Hhash.
    reflexivity.
  - intros ->. reflexivity.
Qed.

Lemma X21_only_the_last_line_counts_witness :
  let w := Scenario.primary_down in
  Notions.clean_line Scenario.hash_line /\
  text (Scenario.reply_ok Scenario.ipfs_reply)
  = Fulfilled (Runs.progress_line
                 +++ String "010" (Scenario.hash_line +++ newline)) /\
  Spec.last_line Scenario.ipfs_reply = Scenario.hash_line /\
  fst (Publisher.uploadThumbnailToIPFS w 9)
  = Fulfilled "https://ipfs.3speak.tv/ipfs/QmThumb".
Proof.
  intros w.
  assert (Hline : Notions.clean_line Scenario.hash_line)
    by (repeat split; vm_compute; reflexivity).
  assert (Htext : text (Scenario.reply_ok Scenario.ipfs_reply)
                  = Fulfilled (Runs.progress_line
                                 +++ String "010"
                                       (Scenario.hash_line +++ newline)))
    by (vm_compute; reflexivity).
  destruct (X21_only_the_last_line_counts w 9
              (Scenario.reply_ok Scenario.ipfs_reply) Runs.progress_line
              Scenario.hash_line Hline eq_refl eq_refl Htext)
    as (Hlast & Hurl & _).
  split; [exact Hline |]. split; [exact Htext |]. split.
  - vm_compute. reflexivity.
  - apply (Hurl [("Name", JString "t.jpg"); ("Hash", JString "QmThumb")]);
      vm_compute; reflexivity.
Defined.
